(** * Multi-provider streaming adapter (services/ai): a shallow embedding

    The development models the two streaming adapters [streamGemini] and
    [streamOpenAI], the facade [streamChatResponse] and [generateImage] of the
    studio client, together with the parts of the JavaScript runtime they
    call: strings as sequences of UTF-16 code units, [String.prototype.split],
    [trim], [startsWith], [replace], the streaming UTF-8 [TextDecoder] and
    [JSON.parse].

    Effects are explicit: every adapter returns the list of observable
    events it performed (SDK calls, [fetch], [JSON.parse] calls, [onChunk]
    invocations, [console.error]) together with the settlement of its
    promise. *)

From Stdlib Require Import String Ascii.
From Stdlib Require Import List NArith Bool Lia Arith.
From Stdlib Require Import DecimalString.
From Stdlib Require Strings.Byte.
Import ListNotations.

Set Implicit Arguments.
Set Warnings "-register-all".

(* ================================================================== *)
(** ** JavaScript strings *)
(* ================================================================== *)

Module JS.

Local Open Scope N_scope.

(** A JavaScript string is a finite sequence of UTF-16 code units. *)
Definition code_unit := N.
Definition jsstring := list code_unit.

(** String literals of the source (all of them are ASCII). *)
Fixpoint lit (s : string) : jsstring :=
  match s with
  | EmptyString => []
  | String a r => N_of_ascii a :: lit r
  end.

(** [===] on strings. *)
Fixpoint str_eqb (a b : jsstring) : bool :=
  match a, b with
  | [], [] => true
  | x :: a', y :: b' => (x =? y) && str_eqb a' b'
  | _, _ => false
  end.

(** ToBoolean on a string: the empty string is the only falsy one. *)
Definition truthy_string (s : jsstring) : bool :=
  match s with [] => false | _ :: _ => true end.

(** [s.startsWith(p)]. *)
Fixpoint startsWith (s p : jsstring) : bool :=
  match p, s with
  | [], _ => true
  | _ :: _, [] => false
  | y :: p', x :: s' => (x =? y) && startsWith s' p'
  end.

(** [s.replace(pat, rep)] for a string pattern: the first occurrence of
    [pat] is replaced.  The only call site passes the replacement [''], which
    has no [$] patterns. *)
Fixpoint replace (s pat rep : jsstring) : jsstring :=
  if startsWith s pat then rep ++ skipn (length pat) s
  else match s with
       | [] => []
       | c :: r => c :: replace r pat rep
       end.

(** [s.split(sep)] for a separator of one code unit.  The result is never
    empty: a string without separator is its own single field. *)
Fixpoint split (sep : code_unit) (s : jsstring) : list jsstring :=
  match s with
  | [] => [[]]
  | c :: r =>
      if c =? sep then [] :: split sep r
      else match split sep r with
           | h :: t => (c :: h) :: t
           | [] => [[c]]
           end
  end.

(** [a.pop()]: the removed last element ([None] is [undefined]) and the
    array that is left. *)
Definition pop {A} (a : list A) : option A * list A :=
  match a with
  | [] => (None, [])
  | x :: r => (Some (last r x), removelast a)
  end.

(** [x || ''] for [x] a string or [undefined]. *)
Definition or_empty (x : option jsstring) : jsstring :=
  match x with
  | Some s => if truthy_string s then s else []
  | None => []
  end.

(** WhiteSpace and LineTerminator code points, the ones [trim] strips. *)
Definition is_white_space (c : code_unit) : bool :=
  (c =? 0x09) || (c =? 0x0A) || (c =? 0x0B) || (c =? 0x0C) || (c =? 0x0D)
  || (c =? 0x20) || (c =? 0xA0) || (c =? 0x1680)
  || ((0x2000 <=? c) && (c <=? 0x200A))
  || (c =? 0x2028) || (c =? 0x2029) || (c =? 0x202F) || (c =? 0x205F)
  || (c =? 0x3000) || (c =? 0xFEFF).

Fixpoint trimStart (s : jsstring) : jsstring :=
  match s with
  | [] => []
  | c :: r => if is_white_space c then trimStart r else s
  end.

Definition trimEnd (s : jsstring) : jsstring := rev (trimStart (rev s)).

Definition trim (s : jsstring) : jsstring := trimEnd (trimStart s).

(** ToString of a non-negative integer Number, as a template literal
    prints [response.status]. *)
Definition of_N (n : N) : jsstring :=
  lit (NilZero.string_of_uint (N.to_uint n)).

(** [hay.includes(needle)]. *)
Fixpoint includes (hay needle : jsstring) : bool :=
  startsWith hay needle
  || match hay with
     | [] => false
     | _ :: r => includes r needle
     end.

End JS.

Import JS.

(* ================================================================== *)
(** ** The streaming UTF-8 decoder behind [TextDecoder] *)
(* ================================================================== *)

Module Utf8.

Local Open Scope N_scope.

Definition bytes := list Byte.byte.

(** The state of the UTF-8 decoder of the Encoding standard. *)
Record state := mkState {
  code_point : N;
  bytes_seen : N;
  bytes_needed : N;
  lower_boundary : N;
  upper_boundary : N
}.

Definition init : state := mkState 0 0 0 0x80 0xBF.

Definition between (lo b hi : N) : bool := (lo <=? b) && (b <=? hi).

(** A byte met while no sequence is open. *)
Definition lead (b : N) : state * list N :=
  if b <=? 0x7F then (init, [b])
  else if between 0xC2 b 0xDF then
    (mkState (N.land b 0x1F) 0 1 0x80 0xBF, [])
  else if between 0xE0 b 0xEF then
    (mkState (N.land b 0xF) 0 2
       (if b =? 0xE0 then 0xA0 else 0x80)
       (if b =? 0xED then 0x9F else 0xBF), [])
  else if between 0xF0 b 0xF4 then
    (mkState (N.land b 0x7) 0 3
       (if b =? 0xF0 then 0x90 else 0x80)
       (if b =? 0xF4 then 0x8F else 0xBF), [])
  else (init, [0xFFFD]).

(** One byte through the decoder, in replacement error mode: the code points
    it completes.  A byte that breaks an open sequence yields U+FFFD and is
    then handled again from the reset state. *)
Definition handler (st : state) (b : N) : state * list N :=
  if bytes_needed st =? 0 then lead b
  else if negb (between (lower_boundary st) b (upper_boundary st)) then
    let (st', out) := lead b in (st', 0xFFFD :: out)
  else
    let cp := N.lor (N.shiftl (code_point st) 6) (N.land b 0x3F) in
    let seen := bytes_seen st + 1 in
    if seen =? bytes_needed st then (init, [cp])
    else (mkState cp seen (bytes_needed st) 0x80 0xBF, []).

(** A scalar value as UTF-16 code units. *)
Definition utf16 (cp : N) : jsstring :=
  if cp <? 0x10000 then [cp]
  else let v := cp - 0x10000 in
       [0xD800 + N.shiftr v 10; 0xDC00 + N.land v 0x3FF].

(** A [TextDecoder] object: its decoder and its "BOM seen" flag (the
    "ignore BOM" flag has its default, false). *)
Record TextDecoder := mkDecoder {
  decoder : state;
  BOM_seen : bool
}.

Definition new_TextDecoder : TextDecoder := mkDecoder init false.

(** Serialising the decoded code points: the first one of the stream is
    dropped when it is U+FEFF. *)
Fixpoint serialize (seen : bool) (cps : list N) : bool * jsstring :=
  match cps with
  | [] => (seen, [])
  | cp :: r =>
      if seen then let (s, out) := serialize true r in (s, utf16 cp ++ out)
      else if cp =? 0xFEFF then serialize true r
      else let (s, out) := serialize true r in (s, utf16 cp ++ out)
  end.

Definition decode_byte (d : TextDecoder) (b : Byte.byte)
  : TextDecoder * jsstring :=
  let (st, cps) := handler (decoder d) (Byte.to_N b) in
  let (seen, out) := serialize (BOM_seen d) cps in
  (mkDecoder st seen, out).

(** [decoder.decode(value, { stream: true })]: an unfinished sequence at the
    end of [value] stays in the decoder. *)
Fixpoint decode (d : TextDecoder) (value : bytes) : TextDecoder * jsstring :=
  match value with
  | [] => (d, [])
  | b :: r =>
      let (d1, o1) := decode_byte d b in
      let (d2, o2) := decode d1 r in
      (d2, o1 ++ o2)
  end.

(** The end of the input: an unfinished sequence becomes U+FFFD. *)
Definition flush (d : TextDecoder) : jsstring :=
  if bytes_needed (decoder d) =? 0 then []
  else snd (serialize (BOM_seen d) [0xFFFD]).

(** "UTF-8 decode" of a whole body, as [response.text()] does it. *)
Definition decode_all (value : bytes) : jsstring :=
  let (d, out) := decode new_TextDecoder value in out ++ flush d.

End Utf8.

(* ================================================================== *)
(** ** [JSON.parse] *)
(* ================================================================== *)

Module JSON.

Local Open Scope N_scope.

(** The values [JSON.parse] builds.  A number keeps the text it was written
    with: its value is an IEEE double, which only the engine's conversions
    (ToBoolean, ToString) look at.  The members of an object are in source
    order; a later duplicate of a key overrides an earlier one. *)
Inductive value :=
| Null
| Bool (b : bool)
| Number (lexeme : jsstring)
| Str (s : jsstring)
| Array (elements : list value)
| Object (members : list (jsstring * value)).

(** What a parsing function returns: a result and the input left, a
    [SyntaxError], or the recursion bound reached. *)
Inductive parsed (A : Type) :=
| Parsed (a : A) (rest : jsstring)
| SyntaxError
| Fuel.
Arguments SyntaxError {A}.
Arguments Fuel {A}.

Definition pmap {A B} (f : A -> B) (p : parsed A) : parsed B :=
  match p with
  | Parsed a r => Parsed (f a) r
  | SyntaxError => SyntaxError
  | Fuel => Fuel
  end.

Definition is_ws (c : code_unit) : bool :=
  (c =? 0x20) || (c =? 0x09) || (c =? 0x0A) || (c =? 0x0D).

Fixpoint skip_ws (s : jsstring) : jsstring :=
  match s with
  | [] => []
  | c :: r => if is_ws c then skip_ws r else s
  end.

Definition is_digit (c : code_unit) : bool := (48 <=? c) && (c <=? 57).

Definition hex_val (c : code_unit) : option N :=
  if is_digit c then Some (c - 48)
  else if (97 <=? c) && (c <=? 102) then Some (c - 87)
  else if (65 <=? c) && (c <=? 70) then Some (c - 55)
  else None.

(** The character an escape letter stands for. *)
Definition escape (e : code_unit) : option code_unit :=
  if e =? 34 then Some 34          (* quotation mark *)
  else if e =? 92 then Some 92     (* reverse solidus *)
  else if e =? 47 then Some 47     (* solidus *)
  else if e =? 98 then Some 8      (* b: backspace *)
  else if e =? 102 then Some 12    (* f: form feed *)
  else if e =? 110 then Some 10    (* n: line feed *)
  else if e =? 114 then Some 13    (* r: carriage return *)
  else if e =? 116 then Some 9     (* t: tab *)
  else None.

(** The characters of a string literal, after its opening quote. *)
Fixpoint string_chars (s : jsstring) : parsed jsstring :=
  match s with
  | [] => SyntaxError
  | c :: r =>
      if c =? 34 then Parsed [] r
      else if c =? 92 then
        match r with
        | [] => SyntaxError
        | e :: r1 =>
            if e =? 117 then
              match r1 with
              | h1 :: h2 :: h3 :: h4 :: r2 =>
                  match hex_val h1, hex_val h2, hex_val h3, hex_val h4 with
                  | Some a, Some b, Some c', Some d =>
                      pmap (cons (((a * 16 + b) * 16 + c') * 16 + d))
                           (string_chars r2)
                  | _, _, _, _ => SyntaxError
                  end
              | _ => SyntaxError
              end
            else
              match escape e with
              | Some x => pmap (cons x) (string_chars r1)
              | None => SyntaxError
              end
        end
      else if c <? 0x20 then SyntaxError
      else pmap (cons c) (string_chars r)
  end.

Fixpoint span_digits (s : jsstring) : jsstring * jsstring :=
  match s with
  | [] => ([], [])
  | c :: r =>
      if is_digit c then let (d, rest) := span_digits r in (c :: d, rest)
      else ([], s)
  end.

(** One or more digits. *)
Definition digits1 (s : jsstring) : option (jsstring * jsstring) :=
  match span_digits s with
  | ([], _) => None
  | (d, rest) => Some (d, rest)
  end.

Definition fraction (s : jsstring) : option (jsstring * jsstring) :=
  match s with
  | c :: r =>
      if c =? 46 then
        match digits1 r with
        | Some (d, rest) => Some (c :: d, rest)
        | None => None
        end
      else Some ([], s)
  | [] => Some ([], s)
  end.

Definition exponent (s : jsstring) : option (jsstring * jsstring) :=
  match s with
  | c :: r =>
      if (c =? 101) || (c =? 69) then
        match r with
        | g :: r' =>
            if (g =? 43) || (g =? 45) then
              match digits1 r' with
              | Some (d, rest) => Some (c :: g :: d, rest)
              | None => None
              end
            else
              match digits1 r with
              | Some (d, rest) => Some (c :: d, rest)
              | None => None
              end
        | [] => None
        end
      else Some ([], s)
  | [] => Some ([], s)
  end.

Definition integer (s : jsstring) : option (jsstring * jsstring) :=
  match s with
  | c :: r =>
      if c =? 48 then Some ([c], r)
      else if is_digit c then let (d, rest) := span_digits r in Some (c :: d, rest)
      else None
  | [] => None
  end.

(** A number: [-? int frac? exp?]; the result is its text. *)
Definition number (s : jsstring) : parsed jsstring :=
  let (sign, s1) :=
    match s with
    | c :: r => if c =? 45 then ([c], r) else ([], s)
    | [] => ([], s)
    end in
  match integer s1 with
  | None => SyntaxError
  | Some (i, s2) =>
      match fraction s2 with
      | None => SyntaxError
      | Some (f, s3) =>
          match exponent s3 with
          | None => SyntaxError
          | Some (e, s4) => Parsed (sign ++ i ++ f ++ e) s4
          end
      end
  end.

(** A literal name. *)
Definition keyword (name : string) (v : value) (s : jsstring) : parsed value :=
  if startsWith s (lit name) then Parsed v (skipn (List.length (lit name)) s)
  else SyntaxError.

(** A value, the elements of an array after its bracket, the members of an
    object after its brace.  [fuel] bounds the recursion; [parse] gives
    enough of it ([fuel_enough]). *)
Fixpoint parse_value (fuel : nat) (s : jsstring) : parsed value :=
  match fuel with
  | O => Fuel
  | S fuel' =>
      match skip_ws s with
      | [] => SyntaxError
      | c :: r =>
          if c =? 34 then pmap Str (string_chars r)
          else if c =? 91 then
            match skip_ws r with
            | [] => SyntaxError
            | c' :: r' =>
                if c' =? 93 then Parsed (Array []) r'
                else pmap Array (parse_elements fuel' r)
            end
          else if c =? 123 then
            match skip_ws r with
            | [] => SyntaxError
            | c' :: r' =>
                if c' =? 125 then Parsed (Object []) r'
                else pmap Object (parse_members fuel' r)
            end
          else if c =? 116 then keyword "true" (Bool true) (c :: r)
          else if c =? 102 then keyword "false" (Bool false) (c :: r)
          else if c =? 110 then keyword "null" Null (c :: r)
          else pmap Number (number (c :: r))
      end
  end

with parse_elements (fuel : nat) (s : jsstring) : parsed (list value) :=
  match fuel with
  | O => Fuel
  | S fuel' =>
      match parse_value fuel' s with
      | Parsed v r =>
          match skip_ws r with
          | [] => SyntaxError
          | c :: r' =>
              if c =? 44 then pmap (cons v) (parse_elements fuel' r')
              else if c =? 93 then Parsed [v] r'
              else SyntaxError
          end
      | SyntaxError => SyntaxError
      | Fuel => Fuel
      end
  end

with parse_members (fuel : nat) (s : jsstring)
  : parsed (list (jsstring * value)) :=
  match fuel with
  | O => Fuel
  | S fuel' =>
      match skip_ws s with
      | [] => SyntaxError
      | q :: r =>
          if q =? 34 then
            match string_chars r with
            | Parsed k r1 =>
                match skip_ws r1 with
                | [] => SyntaxError
                | c1 :: r2 =>
                    if c1 =? 58 then
                      match parse_value fuel' r2 with
                      | Parsed v r3 =>
                          match skip_ws r3 with
                          | [] => SyntaxError
                          | c3 :: r4 =>
                              if c3 =? 44 then
                                pmap (cons (k, v)) (parse_members fuel' r4)
                              else if c3 =? 125 then Parsed [(k, v)] r4
                              else SyntaxError
                          end
                      | SyntaxError => SyntaxError
                      | Fuel => Fuel
                      end
                    else SyntaxError
                end
            | SyntaxError => SyntaxError
            | Fuel => Fuel
            end
          else SyntaxError
      end
  end.

Definition fuel_for (s : jsstring) : nat := 2 * List.length s + 1.

(** The whole text is one value between white space. *)
Definition parse_text (s : jsstring) : parsed value :=
  match parse_value (fuel_for s) s with
  | Parsed v r =>
      match skip_ws r with
      | [] => Parsed v []
      | _ :: _ => SyntaxError
      end
  | SyntaxError => SyntaxError
  | Fuel => Fuel
  end.

(** [JSON.parse(text)]: [None] is a thrown [SyntaxError]. *)
Definition parse (s : jsstring) : option value :=
  match parse_text s with
  | Parsed v _ => Some v
  | _ => None
  end.

End JSON.

(* ================================================================== *)
(** ** types.ts *)
(* ================================================================== *)

Inductive Role := USER | MODEL | SYSTEM.

Definition Role_eqb (a b : Role) : bool :=
  match a, b with
  | USER, USER | MODEL, MODEL | SYSTEM, SYSTEM => true
  | _, _ => false
  end.

Module ChatMessage.

(** An optional field that is absent is [None]. *)
Record t := mk {
  id : jsstring;
  role : Role;
  text : jsstring;
  timestamp : N;
  images : option (list jsstring);
  isError : option bool
}.

End ChatMessage.

Inductive ProviderType := gemini | openai.

Module AIProvider.

Record t := mk {
  id : jsstring;
  name : jsstring;
  type : ProviderType;
  baseUrl : option jsstring;
  apiKey : option jsstring;
  modelId : jsstring;
  isSystem : option bool
}.

End AIProvider.

Module ModelName.

Definition FLASH : jsstring := lit "gemini-2.5-flash".
Definition PRO : jsstring := lit "gemini-3-pro-preview".
Definition IMAGEN : jsstring := lit "imagen-4.0-generate-001".

End ModelName.

(** ToBoolean of an optional string field: [undefined] and [''] are falsy. *)
Definition truthy_opt (x : option jsstring) : bool :=
  match x with
  | Some s => truthy_string s
  | None => false
  end.

(* ================================================================== *)
(** ** What the adapters talk to *)
(* ================================================================== *)

(** Thrown values. *)
Inductive exn :=
| Error (message : jsstring)
| SyntaxError
| TypeError.

(** A source of items that ends or fails: the async iterator of the SDK, the
    reader of a response body. *)
Inductive ending := Done | Failed (e : exn).

Record source (A : Type) := mkSource {
  items : list A;
  finish : ending
}.

(** *** The SDK of the managed provider *)

Inductive Part :=
| TextPart (text : jsstring)
| InlineData (mimeType : jsstring) (data : jsstring).

(** [part.text], [undefined] for a part without text. *)
Definition Part_text (p : Part) : option jsstring :=
  match p with
  | TextPart t => Some t
  | InlineData _ _ => None
  end.

Record Content := mkContent {
  content_role : jsstring;
  parts : list Part
}.

Record ChatConfig := mkChatConfig {
  chat_temperature : string;     (* the numeric literal of the source *)
  systemInstruction : jsstring
}.

(** The argument of [ai.chats.create]. *)
Record ChatParameters := mkChat {
  chat_model : jsstring;
  chat_history : list Content;
  chat_config : ChatConfig
}.

(** The [message] handed to [sendMessageStream]: a string or a list of
    parts. *)
Inductive Message :=
| MessageString (s : jsstring)
| MessageParts (ps : list Part)
| MessageUndefined.

(** A chunk of the stream; [chunk_text] is its [text] getter. *)
Record GenerateContentResponse := mkChunk {
  chunk_text : option jsstring
}.

Record ImagesConfig := mkImagesConfig {
  numberOfImages : N;
  outputMimeType : jsstring;
  aspectRatio : jsstring
}.

Record GenerateImagesParameters := mkImagesParameters {
  images_model : jsstring;
  prompt : jsstring;
  images_config : ImagesConfig
}.

Record Image := mkImage { imageBytes : option jsstring }.
Record GeneratedImage := mkGenerated { image : option Image }.
Record GenerateImagesResponse := mkImagesResponse {
  generatedImages : option (list GeneratedImage)
}.

(** *** fetch *)

Record ApiMessage := mkMessage {
  api_role : jsstring;
  content : jsstring
}.

(** The object given to [JSON.stringify] for the request body. *)
Record RequestBody := mkBody {
  model : jsstring;
  messages : list ApiMessage;
  stream : bool;
  temperature : string;          (* the numeric literal of the source *)
  max_tokens : N
}.

Record RequestInit := mkInit {
  method : jsstring;
  headers : list (jsstring * jsstring);
  body : RequestBody
}.

(** A response: its status and its body, [None] for a null body. *)
Record Response := mkResponse {
  status : N;
  response_body : option (source Utf8.bytes)
}.

(** [response.ok]: the status is in the range 200 to 299. *)
Definition ok (r : Response) : bool :=
  (200 <=? status r)%N && (status r <=? 299)%N.

(** *** The environment of a call *)

Record World := mkWorld {
  API_KEY : option jsstring;     (* process.env.API_KEY *)
  sendMessageStream :
    ChatParameters -> Message -> exn + source GenerateContentResponse;
  generateImages : GenerateImagesParameters -> exn + GenerateImagesResponse;
  fetch : jsstring -> RequestInit -> exn + Response
}.

(** The conversions of a Number, which is an IEEE double, that the engine
    applies to the number a JSON text denotes. *)
Record Engine := mkEngine {
  Number_ToBoolean : jsstring -> bool;
  Number_ToString : jsstring -> jsstring
}.

(** *** Observable events *)

(** [OnChunk t] is the invocation [onChunk(t)]; the callback of the
    application (a state update) returns normally.  [JSONParse t] is the
    call [JSON.parse(t)], whatever it returns or throws. *)

Inductive event :=
| SendMessageStream (chat : ChatParameters) (message : Message)
| GenerateImages (params : GenerateImagesParameters)
| Fetch (url : jsstring) (init : RequestInit)
| JSONParse (text : jsstring)
| OnChunk (text : jsstring)
| ConsoleError (label : jsstring) (e : exn).

(* ================================================================== *)
(** ** Computations: events, then a value or a thrown exception *)
(* ================================================================== *)

Definition M (A : Type) : Type := list event * (exn + A).

Definition ret {A} (a : A) : M A := ([], inr a).
Definition throw {A} (e : exn) : M A := ([], inl e).
Definition emit (ev : event) : M unit := ([ev], inr tt).

Definition bind {A B} (m : M A) (f : A -> M B) : M B :=
  match m with
  | (evs, inl e) => (evs, inl e)
  | (evs, inr a) => let (evs', r) := f a in (evs ++ evs', r)
  end.

(** [try { m } catch (e) { h e }]. *)
Definition try_catch {A} (m : M A) (h : exn -> M A) : M A :=
  match m with
  | (evs, inl e) => let (evs', r) := h e in (evs ++ evs', r)
  | (evs, inr a) => (evs, inr a)
  end.

(** Awaiting a promise of the environment. *)
Definition await {A} (p : exn + A) : M A := ([], p).

Declare Scope js_scope.
Delimit Scope js_scope with js.
Notation "x <- m ;; k" := (bind m (fun x => k))
  (at level 61, m at next level, right associativity) : js_scope.
Notation "m ;; k" := (bind m (fun _ => k))
  (at level 61, right associativity) : js_scope.
Local Open Scope js_scope.

(** [for (const x of xs) { acc = body acc x }]. *)
Fixpoint for_of {A S} (xs : list A) (body : S -> A -> M S) (acc : S) : M S :=
  match xs with
  | [] => ret acc
  | x :: r => acc' <- body acc x ;; for_of r body acc'
  end.

Definition trace {A} (m : M A) : list event := fst m.
Definition outcome {A} (m : M A) : exn + A := snd m.

(** The arguments of the [onChunk] invocations of a trace, in order. *)
Fixpoint onChunk_calls (evs : list event) : list jsstring :=
  match evs with
  | [] => []
  | OnChunk t :: r => t :: onChunk_calls r
  | _ :: r => onChunk_calls r
  end.

(** The texts handed to [JSON.parse], in order. *)
Fixpoint parse_attempts (evs : list event) : list jsstring :=
  match evs with
  | [] => []
  | JSONParse t :: r => t :: parse_attempts r
  | _ :: r => parse_attempts r
  end.

(** The network and SDK calls of a trace. *)
Definition is_request (ev : event) : bool :=
  match ev with
  | SendMessageStream _ _ | GenerateImages _ | Fetch _ _ => true
  | _ => false
  end.

(* ================================================================== *)
(** ** Reading a parsed JSON value *)
(* ================================================================== *)

Module Value.

Import JSON.

(** The member of an object under a key: the last one written wins. *)
Definition lookup (key : jsstring) (ms : list (jsstring * value))
  : option value :=
  fold_left (fun found m => if str_eqb (fst m) key then Some (snd m) else found)
            ms None.

(** [v.key] for a key that no prototype defines ([choices], [delta],
    [content]), on a [v] that is not [null]; [None] is [undefined]. *)
Definition get (key : string) (v : value) : option value :=
  match v with
  | Object ms => lookup (lit key) ms
  | _ => None
  end.

(** [v[0]] on a [v] that is not [null]: the first element of an array, the
    first code unit of a string, the member ["0"] of an object. *)
Definition get_0 (v : value) : option value :=
  match v with
  | Array (x :: _) => Some x
  | Str (c :: _) => Some (Str [c])
  | Object ms => lookup (lit "0") ms
  | _ => None
  end.

(** [x?.p]: [undefined] when [x] is [undefined] or [null]. *)
Definition opt_chain (x : option value) (p : value -> option value)
  : option value :=
  match x with
  | None => None
  | Some Null => None
  | Some v => p v
  end.

Section Conversions.
Variable engine : Engine.

Definition ToBoolean (v : value) : bool :=
  match v with
  | Null => false
  | Bool b => b
  | Number lexeme => Number_ToBoolean engine lexeme
  | Str s => truthy_string s
  | Array _ | Object _ => true
  end.

(** Whether an object has a member of its own under [key]. *)
Definition has_own (key : string) (ms : list (jsstring * value)) : bool :=
  existsb (fun m => str_eqb (fst m) (lit key)) ms.

(** ToString, as the [+] of a string and a value applies it; [None] is a
    thrown [TypeError].  An array is its elements joined by commas, [null]
    elements printing as nothing.  An object is converted by its [toString]
    method: the one of [Object.prototype], which prints [[object Object]],
    unless the object has a member of its own under that key, which is no
    function (no parsed value is) so that no conversion is left.  The
    [valueOf] method, tried before or after it, never gives a primitive. *)
Fixpoint ToString (v : value) : option jsstring :=
  match v with
  | Null => Some (lit "null")
  | Bool true => Some (lit "true")
  | Bool false => Some (lit "false")
  | Number lexeme => Some (Number_ToString engine lexeme)
  | Str s => Some s
  | Array elements =>
      (fix join (l : list value) : option jsstring :=
         match l with
         | [] => Some []
         | x :: r =>
             match match x with Null => Some [] | _ => ToString x end with
             | None => None
             | Some sx =>
                 match r with
                 | [] => Some sx
                 | _ :: _ =>
                     match join r with
                     | Some sr => Some (sx ++ 44%N :: sr)
                     | None => None
                     end
                 end
             end
         end) elements
  | Object members =>
      if has_own "toString" members then None
      else Some (lit "[object Object]")
  end.

(** [x || '']. *)
Definition or_empty_string (x : option value) : value :=
  match x with
  | Some v => if ToBoolean v then v else Str []
  | None => Str []
  end.

End Conversions.

End Value.

(* ================================================================== *)
(** ** services/ai: the adapters *)
(* ================================================================== *)

Section Service.

Variable engine : Engine.
Variable world : World.

Import ChatMessage AIProvider.

(** A template literal hole filled with an optional string. *)
Definition template (x : option jsstring) : jsstring :=
  match x with
  | Some s => s
  | None => lit "undefined"
  end.

(** *** Google Gemini logic *)

Record GoogleGenAI := mkClient { client_apiKey : option jsstring }.

Definition getGeminiClient : M GoogleGenAI :=
  let apiKey := API_KEY world in
  if negb (truthy_opt apiKey) then
    throw (Error (lit "System API_KEY missing."))
  else ret (mkClient apiKey).

Definition inline_jpeg (img : jsstring) : Part :=
  InlineData (lit "image/jpeg") img.

(** The entry of the SDK history for one message. *)
Definition history_content (msg : ChatMessage.t) : Content :=
  mkContent
    (if Role_eqb (role msg) USER then lit "user" else lit "model")
    (match images msg with
     | Some imgs =>
         if (0 <? List.length imgs)%nat
         then TextPart (text msg) :: map inline_jpeg imgs
         else [TextPart (text msg)]
     | None => [TextPart (text msg)]
     end).

(** [history.slice(0, -1).map(...)]. *)
Definition prevHistory (history : list ChatMessage.t) : list Content :=
  map history_content (removelast history).

(** The parts of the new message. *)
Definition new_parts (newMessage : jsstring) (newImages : list jsstring)
  : list Part :=
  let parts := [TextPart newMessage] in
  if (0 <? List.length newImages)%nat
  then fold_left (fun ps img => ps ++ [inline_jpeg img]) newImages parts
  else parts.

(** [parts.length === 1 ? parts[0].text : parts]. *)
Definition outgoing_message (parts : list Part) : Message :=
  if (List.length parts =? 1)%nat then
    match nth_error parts 0 with
    | Some p =>
        match Part_text p with
        | Some t => MessageString t
        | None => MessageUndefined
        end
    | None => MessageUndefined
    end
  else MessageParts parts.

(** [for await (const x of src) { acc = body acc x }]. *)
Definition for_await {A S} (src : source A) (body : S -> A -> M S) (acc : S)
  : M S :=
  (acc' <- for_of (items src) body acc ;;
   match finish src with
   | Done => ret acc'
   | Failed e => throw e
   end)%js.

(** The body of the loop over the chunks of the SDK stream. *)
Definition gemini_chunk (responseText : jsstring) (c : GenerateContentResponse)
  : M jsstring :=
  if truthy_opt (chunk_text c) then
    let responseText := responseText ++ template (chunk_text c) in
    (emit (OnChunk responseText) ;; ret responseText)%js
  else ret responseText.

Definition chat_parameters (history : list ChatMessage.t) (modelName : jsstring)
  : ChatParameters :=
  mkChat modelName (prevHistory history)
    (mkChatConfig "0.7"
       (lit "You are a helpful, professional AI assistant in a studio application. Use Markdown for formatting.")).

Definition streamGemini (history : list ChatMessage.t) (newMessage : jsstring)
    (newImages : list jsstring) (modelName : jsstring) : M jsstring :=
  (ai <- getGeminiClient ;;
   let chat := chat_parameters history modelName in
   let parts := new_parts newMessage newImages in
   try_catch
     (let message := outgoing_message parts in
      streamResult <- (emit (SendMessageStream chat message) ;;
                       await (sendMessageStream world chat message)) ;;
      for_await streamResult gemini_chunk [])
     (fun error =>
        emit (ConsoleError (lit "Gemini Chat Error:") error) ;;
        throw error))%js.

(** *** OpenAI / custom logic *)

Definition history_message (msg : ChatMessage.t) : ApiMessage :=
  mkMessage (if Role_eqb (role msg) MODEL then lit "assistant" else lit "user")
            (text msg).

Definition system_message : ApiMessage :=
  mkMessage (lit "system")
    (lit "You are a helpful, professional AI assistant. Output in Markdown.").

Definition messagesWithSystem (history : list ChatMessage.t)
    (newMessage : jsstring) : list ApiMessage :=
  let apiMessages := map history_message history in
  let apiMessages := apiMessages ++ [mkMessage (lit "user") newMessage] in
  system_message :: apiMessages.

Definition request_init (history : list ChatMessage.t) (newMessage : jsstring)
    (provider : AIProvider.t) : RequestInit :=
  mkInit (lit "POST")
    [(lit "Content-Type", lit "application/json");
     (lit "Authorization", lit "Bearer " ++ template (apiKey provider))]
    (mkBody (modelId provider) (messagesWithSystem history newMessage)
       true "0.7" 4000).

(** [await response.text()]. *)
Definition Response_text (r : Response) : M jsstring :=
  match response_body r with
  | None => ret []
  | Some src =>
      match finish src with
      | Done => ret (Utf8.decode_all (concat (items src)))
      | Failed e => throw e
      end
  end.

(** [json.choices?.[0]?.delta?.content]; reading [choices] off [null]
    throws. *)
Definition delta_content (json : JSON.value) : M (option JSON.value) :=
  match json with
  | JSON.Null => throw TypeError
  | _ =>
      ret (Value.opt_chain
             (Value.opt_chain
                (Value.opt_chain (Value.get "choices" json) Value.get_0)
                (Value.get "delta"))
             (Value.get "content"))
  end.

(** The conversion of [content] that [fullText += content] applies. *)
Definition to_primitive_string (content : JSON.value) : M jsstring :=
  match Value.ToString engine content with
  | Some s => ret s
  | None => throw TypeError
  end.

Definition JSON_parse (text : jsstring) : M JSON.value :=
  (emit (JSONParse text) ;;
   match JSON.parse text with
   | Some v => ret v
   | None => throw SyntaxError
   end)%js.

(** The body of [for (const line of lines)]. *)
Definition handle_line (fullText : jsstring) (line : jsstring) : M jsstring :=
  let trimmed := trim line in
  if startsWith trimmed (lit "data: ")
     && negb (str_eqb trimmed (lit "data: [DONE]")) then
    try_catch
      (json <- JSON_parse (replace trimmed (lit "data: ") []) ;;
       found <- delta_content json ;;
       let content := Value.or_empty_string engine found in
       if Value.ToBoolean engine content then
         added <- to_primitive_string content ;;
         let fullText := fullText ++ added in
         emit (OnChunk fullText) ;; ret fullText
       else ret fullText)%js
      (fun _ => ret fullText)
  else ret fullText.

(** The variables of the read loop. *)
Record loop_state := mkLoop {
  text_decoder : Utf8.TextDecoder;
  fullText : jsstring;
  buffer : jsstring
}.

(** One read that delivers [value]. *)
Definition on_read (st : loop_state) (value : Utf8.bytes) : M loop_state :=
  let (decoder, chunk) := Utf8.decode (text_decoder st) value in
  let buffer := buffer st ++ chunk in
  let lines := split 10%N buffer in
  let (last, lines) := pop lines in
  let buffer := or_empty last in
  (fullText <- for_of lines handle_line (fullText st) ;;
   ret (mkLoop decoder fullText buffer))%js.

(** [while (!done)]: every chunk of the body is read in turn; the read after
    the last one reports [done], or rejects when the body fails. *)
Definition read_loop (reader : source Utf8.bytes) : M jsstring :=
  (st <- for_await reader on_read (mkLoop Utf8.new_TextDecoder [] []) ;;
   ret (fullText st))%js.

Definition streamOpenAI (history : list ChatMessage.t) (newMessage : jsstring)
    (provider : AIProvider.t) : M jsstring :=
  if negb (truthy_opt (apiKey provider)) || negb (truthy_opt (baseUrl provider))
  then throw (Error (lit "API Key or Base URL missing for custom provider."))
  else
    try_catch
      (let url := template (baseUrl provider) ++ lit "/chat/completions" in
       let init := request_init history newMessage provider in
       response <- (emit (Fetch url init) ;; await (fetch world url init)) ;;
       (if negb (ok response) then
          err <- Response_text response ;;
          throw (Error (lit "Provider Error (" ++ of_N (status response)
                        ++ lit "): " ++ err))
        else ret tt) ;;
       match response_body response with
       | None => throw (Error (lit "No response body"))
       | Some reader => read_loop reader
       end)%js
      (fun error =>
         emit (ConsoleError (lit "OpenAI/Custom Chat Error:") error) ;;
         throw error)%js.

(** *** Main facade *)

Definition streamChatResponse (history : list ChatMessage.t)
    (newMessage : jsstring) (newImages : list jsstring)
    (provider : AIProvider.t) : M jsstring :=
  match type provider with
  | gemini => streamGemini history newMessage newImages (modelId provider)
  | openai => streamOpenAI history newMessage provider
  end.

Definition images_parameters (prompt aspectRatio : jsstring)
  : GenerateImagesParameters :=
  mkImagesParameters ModelName.IMAGEN prompt
    (mkImagesConfig 1 (lit "image/jpeg") aspectRatio).

(** [response.generatedImages?.[0]?.image?.imageBytes]. *)
Definition first_imageBytes (response : GenerateImagesResponse)
  : option jsstring :=
  match generatedImages response with
  | Some (g :: _) =>
      match image g with
      | Some i => imageBytes i
      | None => None
      end
  | _ => None
  end.

(** [aspectRatio] is [None] when the caller leaves it out. *)
Definition generateImage (prompt : jsstring) (aspectRatio : option jsstring)
  : M jsstring :=
  let aspectRatio :=
    match aspectRatio with Some a => a | None => lit "1:1" end in
  (ai <- getGeminiClient ;;
   try_catch
     (let params := images_parameters prompt aspectRatio in
      response <- (emit (GenerateImages params) ;;
                   await (generateImages world params)) ;;
      let base64EncodeString := first_imageBytes response in
      if negb (truthy_opt base64EncodeString) then
        throw (Error (lit "No image generated"))
      else ret (lit "data:image/jpeg;base64," ++ template base64EncodeString))
     (fun error =>
        emit (ConsoleError (lit "Image Gen Error:") error) ;;
        throw error))%js.

(** *** App.tsx: how [handleSendChat] calls the facade *)

(** [None] when the handler returns before the call.  [now] is
    [Date.now()]. *)
Definition handleSendChat (messages : list ChatMessage.t) (input : jsstring)
    (attachedImages : list jsstring) (isLoading : bool) (now : N)
    (activeProvider : AIProvider.t) : option (M jsstring) :=
  if (negb (truthy_string (trim input))
      && (List.length attachedImages =? 0)%nat) || isLoading then None
  else if negb (match isSystem activeProvider with Some b => b | None => false end)
          && negb (truthy_opt (apiKey activeProvider)) then None
  else
    let newUserMsg :=
      ChatMessage.mk (of_N now) USER input now (Some attachedImages) None in
    Some (streamChatResponse
            (messages ++ [newUserMsg])
            (text newUserMsg)
            (match images newUserMsg with Some i => i | None => [] end)
            activeProvider).

End Service.

(* ================================================================== *)
(** ** Derived notions used in the statements *)
(* ================================================================== *)

(** The bytes of an ASCII text. *)
Definition ascii_bytes (s : string) : Utf8.bytes := list_byte_of_string s.

(** The text a fresh [TextDecoder] has produced once it was fed the chunks
    [cs], one [decode] call per chunk. *)
Definition decoded (cs : list Utf8.bytes) : jsstring :=
  snd (Utf8.decode Utf8.new_TextDecoder (concat cs)).

(** The lines of a text that a line feed terminates, and what follows the
    last line feed. *)
Definition complete_lines (t : jsstring) : list jsstring :=
  removelast (split 10%N t).

Definition pending (t : jsstring) : jsstring := last (split 10%N t) [].

(** Each line followed by a line feed. *)
Definition unlines (ls : list jsstring) : jsstring :=
  concat (map (fun l => l ++ [10%N]) ls).

(** The read loop run on the complete lines of a text at once. *)
Definition scan (engine : Engine) (t : jsstring) : M jsstring :=
  for_of (complete_lines t) (handle_line engine) [].

Definition initial_loop : loop_state := mkLoop Utf8.new_TextDecoder [] [].

(** The URL [streamOpenAI] posts to. *)
Definition completions_url (provider : AIProvider.t) : jsstring :=
  template (AIProvider.baseUrl provider) ++ lit "/chat/completions".

(** [msg.images], the empty list when the field is absent. *)
Definition images_of (msg : ChatMessage.t) : list jsstring :=
  match ChatMessage.images msg with
  | Some imgs => imgs
  | None => []
  end.

(* ================================================================== *)
(** ** Concrete inputs for the examples *)
(* ================================================================== *)

(** A text written with apostrophes where it has quotation marks. *)
Fixpoint quoted (s : string) : string :=
  match s with
  | EmptyString => EmptyString
  | String a r =>
      String (if Ascii.eqb a "'"%char then "034"%char else a) (quoted r)
  end.

Definition LF : string := String "010"%char EmptyString.

Definition sse_Hi : string :=
  quoted "data: {'choices':[{'delta':{'content':'Hi'}}]}".
Definition sse_there : string :=
  quoted "data: {'choices':[{'delta':{'content':' there'}}]}".
Definition sse_DONE : string := "data: [DONE]".

(** The three lines, each ended by a line feed. *)
Definition sse_body : Utf8.bytes :=
  ascii_bytes (sse_Hi ++ LF ++ sse_there ++ LF ++ sse_DONE ++ LF)%string.

(** The three lines, the last one without its line feed. *)
Definition sse_body_open : Utf8.bytes :=
  ascii_bytes (sse_Hi ++ LF ++ sse_there ++ LF ++ sse_DONE)%string.

(** A world that answers every call the same way. *)
Definition constant_world (key : option jsstring)
    (chat : exn + source GenerateContentResponse)
    (imgs : exn + GenerateImagesResponse)
    (response : exn + Response) : World :=
  mkWorld key (fun _ _ => chat) (fun _ => imgs) (fun _ _ => response).

Definition unreachable : exn := Error (lit "unreachable").

(** A world whose SDK stream carries the given texts and ends. *)
Definition chat_world (texts : list string) : World :=
  constant_world (Some (lit "system-key"))
    (inr (mkSource (map (fun t => mkChunk (Some (lit t))) texts) Done))
    (inl unreachable) (inl unreachable).

(** A world whose endpoint answers with a status and a body in chunks. *)
Definition http_world (status : N) (chunks : list Utf8.bytes) : World :=
  constant_world None (inl unreachable) (inl unreachable)
    (inr (mkResponse status (Some (mkSource chunks Done)))).

(** A world whose image backend answers with the given response. *)
Definition image_world (response : GenerateImagesResponse) : World :=
  constant_world (Some (lit "system-key")) (inl unreachable) (inr response)
    (inl unreachable).

(** The examples hold no numbers; this engine prints a number as it was
    written. *)
Definition sample_engine : Engine := mkEngine (fun _ => true) (fun l => l).

Definition sample_provider : AIProvider.t :=
  AIProvider.mk (lit "deepseek-chat") (lit "DeepSeek V3") openai
    (Some (lit "https://api.deepseek.com")) (Some (lit "sk-1"))
    (lit "deepseek-chat") (Some false).

Definition gemini_provider : AIProvider.t :=
  AIProvider.mk (lit "gemini-flash") (lit "Gemini 2.5 Flash") gemini
    None None ModelName.FLASH (Some true).

Definition sample_message (role : Role) (text : string)
    (images : option (list jsstring)) : ChatMessage.t :=
  ChatMessage.mk (lit "1") role (lit text) 1 images None.

(** A chunk of the SDK stream with the given text. *)
Definition chunk_of (t : string) : GenerateContentResponse :=
  mkChunk (Some (lit t)).

(** The JSON texts of the two delta lines. *)
Definition json_Hi : jsstring :=
  lit (quoted "{'choices':[{'delta':{'content':'Hi'}}]}").
Definition json_there : jsstring :=
  lit (quoted "{'choices':[{'delta':{'content':' there'}}]}").

(** A body with a line that is no JSON between the two delta lines, and the
    body without that line. *)
Definition sse_with_malformed : Utf8.bytes :=
  ascii_bytes (sse_Hi ++ LF ++ "data: {oops" ++ LF ++ sse_there ++ LF)%string.

Definition sse_without_malformed : Utf8.bytes :=
  ascii_bytes (sse_Hi ++ LF ++ sse_there ++ LF)%string.

(* ================================================================== *)
(** ** Derived notions for the adapters at large *)
(* ================================================================== *)

Definition is_fetch (ev : event) : bool :=
  match ev with Fetch _ _ => true | _ => false end.

Definition is_sdk (ev : event) : bool :=
  match ev with
  | SendMessageStream _ _ | GenerateImages _ => true
  | _ => false
  end.

Definition is_onChunk (ev : event) : bool :=
  match ev with OnChunk _ => true | _ => false end.

(** The successive values of an accumulator that starts at [acc] and is
    appended the texts [ds] one after the other. *)
Fixpoint running (acc : jsstring) (ds : list jsstring) : list jsstring :=
  match ds with
  | [] => []
  | d :: r => (acc ++ d) :: running (acc ++ d) r
  end.

(** The texts of the chunks of an SDK stream that carry one. *)
Definition chunk_texts (chunks : list GenerateContentResponse)
  : list jsstring :=
  flat_map (fun c => if truthy_opt (chunk_text c)
                     then [template (chunk_text c)] else []) chunks.

(** What a line hands to [JSON.parse]: the text after the prefix, for a
    line that starts with "data: " and is not the [DONE] line. *)
Definition payload (line : jsstring) : option jsstring :=
  let trimmed := trim line in
  if startsWith trimmed (lit "data: ")
     && negb (str_eqb trimmed (lit "data: [DONE]"))
  then Some (replace trimmed (lit "data: ") [])
  else None.

(** What a payload adds to the accumulated text: the content of its delta
    as a string, when the payload parses, is not [null], has a truthy
    content and this content converts to a string. *)
Definition delta (engine : Engine) (text : jsstring) : option jsstring :=
  match JSON.parse text with
  | Some JSON.Null | None => None
  | Some json =>
      let content :=
        Value.or_empty_string engine
          (Value.opt_chain
             (Value.opt_chain
                (Value.opt_chain (Value.get "choices" json) Value.get_0)
                (Value.get "delta"))
             (Value.get "content")) in
      if Value.ToBoolean engine content
      then Value.ToString engine content else None
  end.

(** The texts that the lines add, in order. *)
Definition line_deltas (engine : Engine) (lines : list jsstring)
  : list jsstring :=
  flat_map (fun line =>
              match payload line with
              | Some text =>
                  match delta engine text with
                  | Some d => [d]
                  | None => []
                  end
              | None => []
              end) lines.

(** Each text starts with the one before it, the first one with [prev]. *)
Fixpoint growing (prev : jsstring) (calls : list jsstring) : bool :=
  match calls with
  | [] => true
  | a :: r => startsWith a prev && growing a r
  end.

Definition gemini_label : jsstring := lit "Gemini Chat Error:".
Definition openai_label : jsstring := lit "OpenAI/Custom Chat Error:".
Definition image_label : jsstring := lit "Image Gen Error:".

(** Whether a line hands anything to [JSON.parse]. *)
Definition has_payload (line : jsstring) : bool :=
  match payload line with Some _ => true | None => false end.

(** Whether two turns look the same to the compatible adapter. *)
Definition same_for_openai (a b : ChatMessage.t) : Prop :=
  ChatMessage.text a = ChatMessage.text b
  /\ Role_eqb (ChatMessage.role a) MODEL = Role_eqb (ChatMessage.role b) MODEL.

(** A body as a server sends it: an event-stream with a comment, blank
    lines between the events, "data:" without a space, and a delta after the
    [DONE] line. *)
Definition sse_noisy : Utf8.bytes :=
  ascii_bytes (": ping" ++ LF ++ LF ++ sse_Hi ++ LF ++ LF
               ++ quoted "data:{'choices':[{'delta':{'content':'lost'}}]}"
               ++ LF ++ sse_DONE ++ LF ++ LF ++ sse_there ++ LF)%string.

Definition sse_quiet : Utf8.bytes :=
  ascii_bytes (sse_Hi ++ LF ++ sse_there ++ LF)%string.

(** The three lines, each ended by a carriage return and a line feed. *)
Definition CR : string := String "013"%char EmptyString.

Definition sse_CRLF : Utf8.bytes :=
  ascii_bytes (sse_Hi ++ CR ++ LF ++ sse_there ++ CR ++ LF
               ++ sse_DONE ++ CR ++ LF)%string.

(* ================================================================== *)
(** ** types.ts: the built-in providers *)
(* ================================================================== *)

(** The two words of the display names that are not ASCII, by their code
    units: U+5185 U+7F6E and U+914D U+7F6E. *)
Definition built_in_tag : jsstring := [0x5185%N; 0x7F6E%N].
Definition configured_tag : jsstring := [0x914D%N; 0x7F6E%N].

Definition gemini_flash : AIProvider.t :=
  AIProvider.mk (lit "gemini-flash")
    (lit "Gemini 2.5 Flash (" ++ built_in_tag ++ lit ")")
    gemini None None (lit "gemini-2.5-flash") (Some true).

Definition gemini_pro : AIProvider.t :=
  AIProvider.mk (lit "gemini-pro")
    (lit "Gemini 3.0 Pro (" ++ built_in_tag ++ lit ")")
    gemini None None (lit "gemini-3-pro-preview") (Some true).

Definition deepseek_chat : AIProvider.t :=
  AIProvider.mk (lit "deepseek-chat")
    (lit "DeepSeek V3 (" ++ configured_tag ++ lit ")")
    openai (Some (lit "https://api.deepseek.com")) None (lit "deepseek-chat")
    (Some false).

Definition kimi_8k : AIProvider.t :=
  AIProvider.mk (lit "kimi-8k")
    (lit "Kimi / Moonshot (" ++ configured_tag ++ lit ")")
    openai (Some (lit "https://api.moonshot.cn/v1")) None
    (lit "moonshot-v1-8k") (Some false).

Definition DEFAULT_PROVIDERS : list AIProvider.t :=
  [gemini_flash; gemini_pro; deepseek_chat; kimi_8k].

(* ================================================================== *)
(** ** App.tsx: the list of providers *)
(* ================================================================== *)

(** ToBoolean of an optional boolean field. *)
Definition truthy_flag (x : option bool) : bool :=
  match x with Some b => b | None => false end.

(** [a.findIndex(f)]; [None] is [-1]. *)
Fixpoint findIndex {A} (f : A -> bool) (a : list A) : option nat :=
  match a with
  | [] => None
  | x :: r => if f x then Some 0 else option_map S (findIndex f r)
  end.

(** [a[i] = v] for an index [i] of the array. *)
Fixpoint assign {A} (a : list A) (i : nat) (v : A) : list A :=
  match a, i with
  | [], _ => []
  | _ :: r, 0 => v :: r
  | x :: r, S i' => x :: assign r i' v
  end.

(** [m.id === p.id]. *)
Definition same_id (p m : AIProvider.t) : bool :=
  str_eqb (AIProvider.id m) (AIProvider.id p).

(** The object [m] after [m.apiKey = k]. *)
Definition with_apiKey (m : AIProvider.t) (k : option jsstring)
  : AIProvider.t :=
  AIProvider.mk (AIProvider.id m) (AIProvider.name m) (AIProvider.type m)
    (AIProvider.baseUrl m) k (AIProvider.modelId m) (AIProvider.isSystem m).

(** The body of [parsed.forEach] in the start-up effect, on the array
    [merged]. *)
Definition merge_one (merged : list AIProvider.t) (p : AIProvider.t)
  : list AIProvider.t :=
  match find (same_id p) merged with
  | None => merged ++ [p]
  | Some _ =>
      let idx := findIndex (same_id p) merged in
      let merged :=
        match idx with
        | Some i =>
            match nth_error merged i with
            | Some m =>
                if negb (truthy_flag (AIProvider.isSystem m))
                then assign merged i p else merged
            | None => merged
            end
        | None => merged
        end in
      match idx with
      | Some i =>
          match nth_error merged i with
          | Some m =>
              if negb (truthy_flag (AIProvider.isSystem m))
                 && truthy_opt (AIProvider.apiKey p)
              then assign merged i (with_apiKey m (AIProvider.apiKey p))
              else merged
          | None => merged
          end
      | None => merged
      end
  end.

(** The providers that the start-up effect sets, from the array [parsed]
    that [JSON.parse] made of the stored text, taken at its declared type. *)
Definition merge_saved (parsed : list AIProvider.t) : list AIProvider.t :=
  fold_left merge_one parsed DEFAULT_PROVIDERS.

(** The filter of the storing effect: [!p.isSystem || p.type === 'openai']. *)
Definition stored (p : AIProvider.t) : bool :=
  negb (truthy_flag (AIProvider.isSystem p))
  || match AIProvider.type p with openai => true | gemini => false end.

(** What the storing effect hands to [JSON.stringify], [None] when it
    stores nothing. *)
Definition to_store (providers : list AIProvider.t)
  : option (list AIProvider.t) :=
  if (0 <? List.length providers)%nat then Some (filter stored providers)
  else None.

(** [providers.find(p => p.id === activeProviderId) || providers[0]];
    [None] is [undefined]. *)
Definition activeProvider (activeProviderId : jsstring)
    (providers : list AIProvider.t) : option AIProvider.t :=
  match find (fun p => str_eqb (AIProvider.id p) activeProviderId) providers
  with
  | Some p => Some p
  | None => nth_error providers 0
  end.

(** The update of [saveProviderSettings]. *)
Definition saveProviderSettings (p : AIProvider.t)
    (prev : list AIProvider.t) : list AIProvider.t :=
  match find (fun item => str_eqb (AIProvider.id item) (AIProvider.id p)) prev
  with
  | Some _ =>
      map (fun item =>
             if str_eqb (AIProvider.id item) (AIProvider.id p)
             then p else item) prev
  | None => prev ++ [p]
  end.

(** The ids of the built-in providers, and of the two system ones. *)
Definition default_ids : list jsstring := map AIProvider.id DEFAULT_PROVIDERS.

Definition system_ids : list jsstring := [lit "gemini-flash"; lit "gemini-pro"].

(** What every state of the merge keeps. *)
Record merge_invariant (merged : list AIProvider.t) : Prop := {
  inv_system : firstn 2 merged = [gemini_flash; gemini_pro];
  inv_ids : map AIProvider.id (firstn 4 merged) = default_ids;
  inv_NoDup : NoDup (map AIProvider.id merged)
}.

(* ================================================================== *)
(** ** App.tsx: the handlers and the state they set *)
(* ================================================================== *)

Module App.

Inductive AppMode := CHAT | IMAGE_GEN | SETTINGS.

(** The state variables that [handleSendChat] reads or sets. *)
Record ChatState := mkChatState {
  mode : AppMode;
  editingProvider : option AIProvider.t;
  messages : list ChatMessage.t;
  input : jsstring;
  isLoading : bool;
  attachedImages : list jsstring
}.


(** The texts of the two [alert] calls and of the error message, by their
    code units. *)
Definition configure_key_alert : jsstring :=
  [0x8BF7; 0x5148; 0x5728; 0x8BBE; 0x7F6E; 0x4E2D; 0x914D; 0x7F6E; 0x8BE5;
   0x6A21; 0x578B; 0x7684]%N ++ lit " API Key".


Definition error_prefix : jsstring := [0x9519; 0x8BEF]%N ++ lit ": ".

Definition request_failed : jsstring := [0x8BF7; 0x6C42; 0x5931; 0x8D25]%N.

(** [{...msg, text: t}] and [{...msg, text: t, isError: true}]. *)
Definition with_text (msg : ChatMessage.t) (t : jsstring) : ChatMessage.t :=
  ChatMessage.mk (ChatMessage.id msg) (ChatMessage.role msg) t
    (ChatMessage.timestamp msg) (ChatMessage.images msg)
    (ChatMessage.isError msg).

Definition with_error (msg : ChatMessage.t) (t : jsstring) : ChatMessage.t :=
  ChatMessage.mk (ChatMessage.id msg) (ChatMessage.role msg) t
    (ChatMessage.timestamp msg) (ChatMessage.images msg) (Some true).

(** The update of the [onChunk] callback:
    [prev.map(msg => msg.id === aiMsgId ? {...msg, text: textChunk} : msg)]. *)
Definition show_chunk (aiMsgId textChunk : jsstring)
    (prev : list ChatMessage.t) : list ChatMessage.t :=
  map (fun msg => if str_eqb (ChatMessage.id msg) aiMsgId
                  then with_text msg textChunk else msg) prev.

(** The update of the [catch] block. *)
Definition show_error (aiMsgId text : jsstring)
    (prev : list ChatMessage.t) : list ChatMessage.t :=
  map (fun msg => if str_eqb (ChatMessage.id msg) aiMsgId
                  then with_error msg text else msg) prev.

(** What a handler leaves: the state when it has finished, the texts it
    has alerted, and the events of the call it has awaited. *)
Record handled (S : Type) := mkHandled {
  state : S;
  alerts : list jsstring;
  events : list event
}.
Arguments mkHandled {S}.
Arguments state {S}.
Arguments alerts {S}.
Arguments events {S}.

Section Handlers.

Variable engine : Engine.
Variable world : World.

(** [error.message] of a [SyntaxError] or a [TypeError], in the wording of
    the engine. *)
Variable builtin_message : exn -> jsstring.

Definition message_of (error : exn) : jsstring :=
  match error with
  | Error message => message
  | _ => builtin_message error
  end.

(** The text of the [catch] block, with [error.message || ...]. *)
Definition error_text (error : exn) : jsstring :=
  error_prefix
  ++ (if truthy_string (message_of error) then message_of error
      else request_failed).

(** The new user message and the empty message of the assistant.  The
    four arguments [t1] to [t4] are the values of the four [Date.now()]
    calls, in order. *)
Definition newUserMsg (st : ChatState) (t1 t2 : N) : ChatMessage.t :=
  ChatMessage.mk (of_N t1) USER (input st) t2 (Some (attachedImages st)) None.

Definition aiMsgId (t3 : N) : jsstring := of_N (t3 + 1).

Definition newAiMsg (t3 t4 : N) : ChatMessage.t :=
  ChatMessage.mk (aiMsgId t3) MODEL [] t4 None None.

(** The call of the facade that the handler awaits. *)
Definition chat_run (st : ChatState) (t1 t2 : N)
    (activeProvider : AIProvider.t) : M jsstring :=
  let user := newUserMsg st t1 t2 in
  streamChatResponse engine world (messages st ++ [user])
    (ChatMessage.text user)
    (match ChatMessage.images user with Some i => i | None => [] end)
    activeProvider.

(** [handleSendChat]. *)
Definition handleSendChat (st : ChatState) (t1 t2 t3 t4 : N)
    (activeProvider : AIProvider.t) : handled ChatState :=
  if (negb (truthy_string (trim (input st)))
      && (List.length (attachedImages st) =? 0)%nat) || isLoading st
  then mkHandled st [] []
  else if negb (truthy_flag (AIProvider.isSystem activeProvider))
          && negb (truthy_opt (AIProvider.apiKey activeProvider))
  then mkHandled
         (mkChatState SETTINGS (Some activeProvider) (messages st) (input st)
            (isLoading st) (attachedImages st))
         [configure_key_alert] []
  else
    let user := newUserMsg st t1 t2 in
    (* the four updates before the call *)
    let shown := messages st ++ [user] in
    let shown := shown ++ [newAiMsg t3 t4] in
    let run := chat_run st t1 t2 activeProvider in
    (* one update per invocation of the callback *)
    let shown :=
      fold_left (fun prev textChunk => show_chunk (aiMsgId t3) textChunk prev)
                (onChunk_calls (trace run)) shown in
    (* the catch block *)
    let shown :=
      match outcome run with
      | inl error => show_error (aiMsgId t3) (error_text error) shown
      | inr _ => shown
      end in
    (* the finally block *)
    mkHandled (mkChatState (mode st) (editingProvider st) shown [] false [])
      [] (trace run).


End Handlers.

End App.

(* ================================================================== *)
(** ** App.tsx: helper functions *)
(* ================================================================== *)

(** What [blobToBase64] resolves with when the reader has loaded the data
    URL [base64String]: [base64String.split(',')[1]]; [None] is
    [undefined]. *)
Definition blobToBase64 (base64String : jsstring) : option jsstring :=
  nth_error (split 44%N base64String) 1.

Definition displayBase64 (raw : jsstring) : jsstring :=
  lit "data:image/jpeg;base64," ++ raw.

(* ================================================================== *)
(** ** components/MarkdownView.tsx *)
(* ================================================================== *)

Module MarkdownView.

(** *** [String.prototype.split] with a regular expression *)

(** [split_loop] is the loop of the split of a string by a regular
    expression whose one capturing group is the whole pattern and that
    matches no empty string.  [match_at text] is the length of the match
    that starts at the head of [text], if there is one.  [piece] is what was
    passed over since the last match, [rest] what is still to look at; of
    [fuel] there is enough when it is the length of [rest]
    ([split_loop_eq]). *)
Section RegExpSplit.

Variable match_at : jsstring -> option nat.

Fixpoint split_loop (fuel : nat) (piece rest : jsstring) : list jsstring :=
  match fuel, rest with
  | S fuel', c :: rest' =>
      match match_at rest with
      | Some (S n) =>
          piece :: firstn (S n) rest
            :: split_loop (fuel' - n) [] (skipn (S n) rest)
      | _ => split_loop fuel' (piece ++ [c]) rest'
      end
  | _, _ => [piece]
  end.

Definition split_re (s : jsstring) : list jsstring :=
  split_loop (List.length s) [] s.

End RegExpSplit.

(** [s.indexOf(pat)]; [None] is [-1]. *)
Fixpoint indexOf (s pat : jsstring) : option nat :=
  if startsWith s pat then Some 0
  else match s with
       | [] => None
       | _ :: r => option_map S (indexOf r pat)
       end.

Definition fence : jsstring := lit "```".
Definition stars : jsstring := lit "**".

(** The pattern of a fenced block: three backticks, as few code units of
    any kind as possible, three backticks. *)
Definition match_fence (text : jsstring) : option nat :=
  if startsWith text fence then
    match indexOf (skipn 3 text) fence with
    | Some k => Some (3 + k + 3)
    | None => None
    end
  else None.

(** The code units that [.] does not match. *)
Definition is_line_terminator (c : code_unit) : bool :=
  (c =? 0x0A)%N || (c =? 0x0D)%N || (c =? 0x2028)%N || (c =? 0x2029)%N.

(** How many code units that [.] matches come before the next two stars;
    [None] when a line terminator or the end of the text comes first. *)
Fixpoint bold_end (s : jsstring) : option nat :=
  if startsWith s stars then Some 0
  else match s with
       | [] => None
       | c :: r => if is_line_terminator c then None
                   else option_map S (bold_end r)
       end.

(** The pattern of a bold span: two stars, as few code units other than
    line terminators as possible, two stars. *)
Definition match_bold (text : jsstring) : option nat :=
  if startsWith text stars then
    match bold_end (skipn 2 text) with
    | Some k => Some (2 + k + 2)
    | None => None
    end
  else None.

(** *** What the component renders *)

Inductive inline :=
| Strong (text : jsstring)
| Span (text : jsstring).

Inductive line_view :=
| Spacer
| Paragraph (parts : list inline).

(** A code block shows the label [lang] only when it is not empty. *)
Inductive block :=
| Code (lang : jsstring) (code : jsstring)
| Text (lines : list line_view).

(** [s.endsWith(p)]. *)
Definition endsWith (s p : jsstring) : bool := startsWith (rev s) (rev p).

(** [p.slice(2, -2)]. *)
Definition slice_2_m2 (p : jsstring) : jsstring :=
  firstn (List.length p - 4) (skipn 2 p).

(** [a.join(sep)]. *)
Fixpoint join (sep : jsstring) (a : list jsstring) : jsstring :=
  match a with
  | [] => []
  | [x] => x
  | x :: r => x ++ sep ++ join sep r
  end.

Definition render_inline (p : jsstring) : inline :=
  if startsWith p stars && endsWith p stars then Strong (slice_2_m2 p)
  else Span p.

Definition lineParts (line : jsstring) : list jsstring :=
  split_re match_bold line.

Definition render_line (line : jsstring) : line_view :=
  if negb (truthy_string line) then Spacer
  else Paragraph (map render_inline (lineParts line)).

Definition render_part (part : jsstring) : block :=
  if startsWith part fence then
    let lines := split 10%N part in
    let lang := trim (replace (hd [] lines) fence []) in
    let code := join [10%N] (removelast (tl lines)) in
    Code lang code
  else Text (map render_line (split 10%N part)).

Definition MarkdownView (content : jsstring) : list block :=
  map render_part (split_re match_fence content).

(** How a line without bold span is shown: an empty line as a spacer, any
    other line as one plain span.  Used to state what [render_line] does on
    such lines. *)
Definition plain_line (l : jsstring) : line_view :=
  match l with
  | [] => Spacer
  | _ :: _ => Paragraph [Span l]
  end.

End MarkdownView.

(** A body of one data line whose delta is the letter e with an acute
    accent, two bytes in UTF-8, cut into two chunks between these bytes, and
    the same body in one chunk. *)
Definition sse_accent_head : Utf8.bytes :=
  ascii_bytes (quoted "data: {'choices':[{'delta':{'content':'") ++ [Byte.xc3].
Definition sse_accent_tail : Utf8.bytes :=
  [Byte.xa9] ++ ascii_bytes (quoted "'}}]}" ++ LF)%string.
Definition sse_accent_cut : list Utf8.bytes :=
  [sse_accent_head; sse_accent_tail].
Definition sse_accent_whole : list Utf8.bytes :=
  [sse_accent_head ++ sse_accent_tail].

(** A body whose second delta holds an object with a member of its own
    under [toString], and whose third delta holds an object without one. *)
Definition json_own_toString : jsstring :=
  lit (quoted "{'choices':[{'delta':{'content':{'toString':1}}}]}").
Definition json_plain_object : jsstring :=
  lit (quoted "{'choices':[{'delta':{'content':{'a':1}}}]}").

Definition sse_objects : Utf8.bytes :=
  ascii_bytes
    (sse_Hi ++ LF
     ++ quoted "data: {'choices':[{'delta':{'content':{'toString':1}}}]}" ++ LF
     ++ quoted "data: {'choices':[{'delta':{'content':{'a':1}}}]}" ++ LF
     ++ sse_there ++ LF)%string.

(* ================================================================== *)
(** ** The runtime model on small inputs *)
(* ================================================================== *)

Example split_keeps_the_open_field :
  split 10%N (lit ("a" ++ LF ++ "b" ++ LF ++ "c"))
  = [lit "a"; lit "b"; lit "c"].
Proof. reflexivity. Qed.

Example split_after_final_LF :
  split 10%N (lit ("a" ++ LF ++ "b" ++ LF)) = [lit "a"; lit "b"; []].
Proof. reflexivity. Qed.

Example pop_takes_the_last :
  pop [lit "a"; lit "b"; lit "c"] = (Some (lit "c"), [lit "a"; lit "b"]).
Proof. reflexivity. Qed.

Example trim_strips_CR :
  trim (lit "  data: x " ++ [13%N]) = lit "data: x".
Proof. reflexivity. Qed.

Example replace_first_occurrence_only :
  replace (lit "data: {data: }") (lit "data: ") [] = lit "{data: }".
Proof. reflexivity. Qed.

Example status_in_decimal : of_N 404 = lit "404".
Proof. reflexivity. Qed.

Example parse_delta :
  JSON.parse json_Hi
  = Some (JSON.Object
            [(lit "choices",
              JSON.Array
                [JSON.Object
                   [(lit "delta",
                     JSON.Object [(lit "content", JSON.Str (lit "Hi"))])]])]).
Proof. reflexivity. Qed.

Example parse_escapes :
  JSON.parse (lit (quoted "'a\u00e9\n\''"))
  = Some (JSON.Str [97%N; 233%N; 10%N; 34%N]).
Proof. reflexivity. Qed.

Example parse_numbers_keep_their_text :
  JSON.parse (lit " [ -1.50e+3 , 0 ] ")
  = Some (JSON.Array [JSON.Number (lit "-1.50e+3"); JSON.Number (lit "0")]).
Proof. reflexivity. Qed.

Example parse_rejects_DONE : JSON.parse (lit "[DONE]") = None.
Proof. reflexivity. Qed.

Example parse_rejects_leading_zero : JSON.parse (lit "01") = None.
Proof. reflexivity. Qed.

Example parse_rejects_trailing_comma : JSON.parse (lit "[1,]") = None.
Proof. reflexivity. Qed.

Example last_duplicate_key_wins :
  option_map (Value.get "a") (JSON.parse (lit (quoted "{'a':1,'a':2}")))
  = Some (Some (JSON.Number (lit "2"))).
Proof. reflexivity. Qed.

(** A two-byte character cut by a read boundary comes out with the second
    read. *)
Example decoder_holds_an_open_sequence :
  let (d, out1) := Utf8.decode Utf8.new_TextDecoder [Byte.xc3] in
  out1 = [] /\ snd (Utf8.decode d [Byte.xa9; Byte.x0a]) = [233%N; 10%N].
Proof. split; reflexivity. Qed.

Example decoder_drops_the_BOM_and_pairs_surrogates :
  decoded [[Byte.xef; Byte.xbb]; [Byte.xbf; Byte.xf0; Byte.x9f];
           [Byte.x98; Byte.x80]]
  = [0xD83D%N; 0xDE00%N].
Proof. reflexivity. Qed.

Example decoder_replaces_a_broken_sequence :
  decoded [[Byte.xe2; Byte.x82; Byte.x41]] = [0xFFFD%N; 65%N].
Proof. reflexivity. Qed.

(** Reading [choices] off [null] throws a [TypeError], which the loop
    catches like a [SyntaxError]. *)
Example null_payload_is_caught (engine : Engine) :
  handle_line engine (lit "so far") (lit "data: null")
  = ([JSONParse (lit "null")], inr (lit "so far")).
Proof. reflexivity. Qed.

Example delta_without_content (engine : Engine) :
  handle_line engine (lit "so far")
    (lit (quoted "data: {'choices':[{'delta':{'role':'assistant'}}]}"))
  = ([JSONParse (lit (quoted "{'choices':[{'delta':{'role':'assistant'}}]}"))],
     inr (lit "so far")).
Proof. reflexivity. Qed.

Example default_aspect_ratio :
  trace (generateImage (image_world (mkImagesResponse None)) (lit "a cat") None)
  = [GenerateImages (images_parameters (lit "a cat") (lit "1:1"));
     ConsoleError (lit "Image Gen Error:") (Error (lit "No image generated"))].
Proof. reflexivity. Qed.

Example line_without_data_prefix (engine : Engine) :
  handle_line engine (lit "so far") (lit ": keep-alive")
  = ([], inr (lit "so far")).
Proof. reflexivity. Qed.

Example content_that_is_not_a_string (engine : Engine) :
  handle_line engine (lit "n=")
    (lit (quoted "data: {'choices':[{'delta':{'content':[true,null,'x']}}]}"))
  = ([JSONParse (lit (quoted "{'choices':[{'delta':{'content':[true,null,'x']}}]}"));
      OnChunk (lit "n=true,,x")],
     inr (lit "n=true,,x")).
Proof. reflexivity. Qed.

Example content_that_is_an_object (engine : Engine) :
  handle_line engine (lit "so far")
    (lit (quoted "data: {'choices':[{'delta':{'content':{'a':1}}}]}"))
  = ([JSONParse (lit (quoted "{'choices':[{'delta':{'content':{'a':1}}}]}"));
      OnChunk (lit "so far[object Object]")],
     inr (lit "so far[object Object]")).
Proof. reflexivity. Qed.

(** An object with a member of its own under [toString] does not convert:
    the [TypeError] is caught with the parse errors, nothing is reported. *)
Example content_with_its_own_toString (engine : Engine) :
  handle_line engine (lit "so far")
    (lit (quoted "data: {'choices':[{'delta':{'content':{'toString':1}}}]}"))
  = ([JSONParse
        (lit (quoted "{'choices':[{'delta':{'content':{'toString':1}}}]}"))],
     inr (lit "so far")).
Proof. reflexivity. Qed.

Example content_with_such_an_element (engine : Engine) :
  handle_line engine (lit "so far")
    (lit (quoted "data: {'choices':[{'delta':{'content':['x',{'toString':null}]}}]}"))
  = ([JSONParse
        (lit (quoted "{'choices':[{'delta':{'content':['x',{'toString':null}]}}]}"))],
     inr (lit "so far")).
Proof. reflexivity. Qed.

(* ================================================================== *)
(** ** Strings: basic facts *)
(* ================================================================== *)

Unset Implicit Arguments.

Lemma str_eqb_eq (a b : jsstring) : str_eqb a b = true <-> a = b.
Proof.
  revert b; induction a as [|x a IH]; intros [|y b]; simpl;
    try (split; [discriminate | discriminate]); try tauto.
  rewrite andb_true_iff, N.eqb_eq, IH.
  split; [intros [-> ->]; reflexivity | intros H; inversion H; auto].
Qed.

Lemma startsWith_app (p s : jsstring) : startsWith (p ++ s) p = true.
Proof.
  induction p as [|c p IH]; simpl; [destruct s; reflexivity|].
  now rewrite N.eqb_refl, IH.
Qed.

Lemma startsWith_inv (s p : jsstring) :
  startsWith s p = true -> s = p ++ skipn (List.length p) s.
Proof.
  revert s; induction p as [|c p IH]; intros s H; [reflexivity|].
  destruct s as [|x s]; [discriminate|]. simpl in H.
  apply andb_true_iff in H as [Hx Hs]. apply N.eqb_eq in Hx; subst x.
  simpl; f_equal; auto.
Qed.

(** Removing a prefix that is there removes exactly that prefix. *)
Lemma replace_prefix (s p : jsstring) :
  startsWith s p = true -> replace s p [] = skipn (List.length p) s.
Proof. intros H; destruct s; simpl in *; now rewrite H. Qed.

Lemma includes_startsWith (hay needle : jsstring) :
  startsWith hay needle = true -> includes hay needle = true.
Proof. destruct hay; simpl; intros ->; reflexivity. Qed.

Lemma includes_app (pre s post : jsstring) :
  includes (pre ++ s ++ post) s = true.
Proof.
  induction pre as [|c pre IH].
  - cbn [app]; apply includes_startsWith, startsWith_app.
  - simpl; rewrite IH; apply orb_true_r.
Qed.

Lemma or_empty_Some (s : jsstring) : or_empty (Some s) = s.
Proof. destruct s; reflexivity. Qed.

Lemma split_nonempty (sep : code_unit) (s : jsstring) : split sep s <> [].
Proof.
  destruct s as [|c r]; simpl; [discriminate|].
  destruct (N.eqb c sep); [discriminate|].
  destruct (split sep r); discriminate.
Qed.

Lemma pop_split (sep : code_unit) (s : jsstring) :
  pop (split sep s) = (Some (last (split sep s) []), removelast (split sep s)).
Proof.
  pose proof (split_nonempty sep s) as H.
  destruct (split sep s) as [|x r]; [congruence|].
  unfold pop; f_equal; f_equal.
  clear H; revert x; induction r as [|y r IH]; intros x; [reflexivity|].
  simpl in *; destruct r; auto.
Qed.

(** Splitting a text that arrives in two pieces: the fields closed within
    the first piece, then the fields of what the first piece left open
    followed by the second piece. *)
Lemma split_app (sep : code_unit) (a b : jsstring) :
  split sep (a ++ b)
  = removelast (split sep a) ++ split sep (last (split sep a) [] ++ b).
Proof.
  induction a as [|c a IH]; [reflexivity|].
  pose proof (split_nonempty sep a) as Hne.
  cbn [app split]. destruct (N.eqb c sep) eqn:E.
  - rewrite IH. destruct (split sep a) as [|h t]; [congruence|]. reflexivity.
  - rewrite IH. destruct (split sep a) as [|h [|x t]]; [congruence| |].
    + cbn. rewrite E. reflexivity.
    + reflexivity.
Qed.

Lemma split_no_sep (sep : code_unit) (s : jsstring) :
  ~ In sep s -> split sep s = [s].
Proof.
  induction s as [|c s IH]; intros H; [reflexivity|].
  simpl. destruct (N.eqb_spec c sep) as [->|_].
  - exfalso; apply H; left; reflexivity.
  - rewrite IH; [reflexivity | intros Hin; apply H; right; exact Hin].
Qed.

Lemma last_split_no_sep (sep : code_unit) (s : jsstring) :
  ~ In sep (last (split sep s) []).
Proof.
  induction s as [|c s IH]; [intros []|].
  pose proof (split_nonempty sep s) as Hne.
  simpl. destruct (N.eqb_spec c sep) as [->|Hc].
  - destruct (split sep s) as [|h t]; [congruence | exact IH].
  - destruct (split sep s) as [|h [|x t]]; [congruence | | exact IH].
    simpl in *. intros [E|Hin]; [apply Hc; exact E | exact (IH Hin)].
Qed.

(** A text is its terminated fields, each with its separator, then what
    follows the last separator. *)
Lemma split_unlines (sep : code_unit) (s : jsstring) :
  concat (map (fun l => l ++ [sep]) (removelast (split sep s)))
    ++ last (split sep s) [] = s.
Proof.
  induction s as [|c s IH]; [reflexivity|].
  pose proof (split_nonempty sep s) as Hne.
  simpl split. destruct (N.eqb_spec c sep) as [->|Hc].
  - destruct (split sep s) as [|h t]; [congruence|].
    cbn [removelast last map concat app] in *. now rewrite IH.
  - destruct (split sep s) as [|h [|x t]]; [congruence | |].
    + simpl in *. now rewrite IH.
    + cbn [removelast last map concat app] in *.
      rewrite <- app_assoc in IH |- *. cbn [app]. now rewrite IH.
Qed.

Lemma last_app_nonempty {A} (l l' : list A) (d : A) :
  l' <> [] -> last (l ++ l') d = last l' d.
Proof.
  intros H; induction l as [|x l IH]; [reflexivity|].
  cbn [app]. destruct (l ++ l') eqn:E.
  - destruct l; [simpl in E; congruence | discriminate].
  - simpl in *. exact IH.
Qed.

Lemma complete_lines_app (a b : jsstring) :
  complete_lines (a ++ b) = complete_lines a ++ complete_lines (pending a ++ b).
Proof.
  unfold complete_lines, pending. rewrite split_app.
  apply removelast_app, split_nonempty.
Qed.

Lemma pending_app (a b : jsstring) :
  pending (a ++ b) = pending (pending a ++ b).
Proof.
  unfold pending. rewrite split_app.
  apply last_app_nonempty, split_nonempty.
Qed.

Lemma complete_lines_pending (t : jsstring) : complete_lines (pending t) = [].
Proof.
  unfold complete_lines.
  rewrite (split_no_sep 10%N (pending t)); [reflexivity|].
  apply last_split_no_sep.
Qed.

Lemma pending_pending (t : jsstring) : pending (pending t) = pending t.
Proof.
  unfold pending at 1.
  rewrite (split_no_sep 10%N (pending t)); [reflexivity|].
  apply last_split_no_sep.
Qed.

(* ================================================================== *)
(** ** The decoder is driven byte by byte *)
(* ================================================================== *)

Lemma decode_app (d : Utf8.TextDecoder) (a b : Utf8.bytes) :
  Utf8.decode d (a ++ b)
  = let (d1, o1) := Utf8.decode d a in
    let (d2, o2) := Utf8.decode d1 b in
    (d2, o1 ++ o2).
Proof.
  revert d; induction a as [|x a IH]; intros d; simpl.
  - destruct (Utf8.decode d b); reflexivity.
  - destruct (Utf8.decode_byte d x) as [d1 o1]. rewrite IH.
    destruct (Utf8.decode d1 a) as [d2 o2].
    destruct (Utf8.decode d2 b) as [d3 o3].
    now rewrite app_assoc.
Qed.

(* ================================================================== *)
(** ** Laws of the computations *)
(* ================================================================== *)

Lemma bind_ret_l {A B} (a : A) (f : A -> M B) : bind (ret a) f = f a.
Proof. unfold bind, ret. destruct (f a); reflexivity. Qed.

Lemma bind_ret_r {A} (m : M A) : bind m ret = m.
Proof.
  destruct m as [evs [e|a]]; unfold bind, ret; simpl;
    [reflexivity | now rewrite app_nil_r].
Qed.

Lemma bind_assoc {A B C} (m : M A) (f : A -> M B) (g : B -> M C) :
  bind (bind m f) g = bind m (fun a => bind (f a) g).
Proof.
  destruct m as [evs [e|a]]; unfold bind; simpl; [reflexivity|].
  destruct (f a) as [evs1 [e1|b]]; [reflexivity|].
  destruct (g b) as [evs2 r]. now rewrite app_assoc.
Qed.

Lemma bind_ext {A B} (m : M A) (f g : A -> M B) :
  (forall a, f a = g a) -> bind m f = bind m g.
Proof.
  intros H. destruct m as [evs [e|a]]; unfold bind; [reflexivity|].
  now rewrite H.
Qed.

Lemma for_of_app {A S} (xs ys : list A) (body : S -> A -> M S) (acc : S) :
  for_of (xs ++ ys) body acc
  = bind (for_of xs body acc) (fun acc' => for_of ys body acc').
Proof.
  revert acc; induction xs as [|x xs IH]; intros acc; cbn [app for_of].
  - now rewrite bind_ret_l.
  - rewrite bind_assoc. apply bind_ext. intros a; apply IH.
Qed.

(* ================================================================== *)
(** ** [JSON.parse] never runs out of fuel *)
(* ================================================================== *)

Section ParserTermination.

Import JSON.

Lemma skip_ws_length (s : jsstring) : List.length (skip_ws s) <= List.length s.
Proof.
  induction s as [|c s IH]; simpl; [lia|].
  destruct (is_ws c); simpl; lia.
Qed.

Lemma skip_ws_cons (s : jsstring) (c : code_unit) (r : jsstring) :
  skip_ws s = c :: r -> List.length r < List.length s.
Proof. intros H. pose proof (skip_ws_length s) as L. rewrite H in L. simpl in L. lia. Qed.

Lemma pmap_Parsed {A B} (f : A -> B) (p : parsed A) (b : B) (r : jsstring) :
  pmap f p = Parsed b r -> exists a, p = Parsed a r.
Proof. destruct p; simpl; intros H; inversion H; eauto. Qed.

Lemma pmap_Fuel {A B} (f : A -> B) (p : parsed A) :
  pmap f p = Fuel -> p = Fuel.
Proof. destruct p; simpl; intros H; congruence. Qed.

Lemma string_chars_shorter (n : nat) :
  forall s x r, List.length s <= n ->
    string_chars s = Parsed x r -> List.length r < List.length s.
Proof.
  induction n as [|n IH]; intros s x r Hn H.
  - destruct s; [discriminate | simpl in Hn; lia].
  - destruct s as [|c s]; [discriminate|]. simpl in Hn, H.
    destruct (N.eqb c 34).
    { inversion H; subst; simpl; lia. }
    destruct (N.eqb c 92).
    { destruct s as [|e r1]; [discriminate|].
      destruct (N.eqb e 117).
      - destruct r1 as [|h1 [|h2 [|h3 [|h4 r2]]]]; try discriminate.
        destruct (hex_val h1), (hex_val h2), (hex_val h3), (hex_val h4);
          try discriminate.
        apply pmap_Parsed in H as [a H]. apply IH in H; simpl in *; lia.
      - destruct (escape e); [|discriminate].
        apply pmap_Parsed in H as [a H]. apply IH in H; simpl in *; lia. }
    destruct (N.ltb c 32); [discriminate|].
    apply pmap_Parsed in H as [a H]. apply IH in H; simpl in *; lia.
Qed.

Lemma string_chars_no_Fuel (n : nat) :
  forall s, List.length s <= n -> string_chars s <> Fuel.
Proof.
  induction n as [|n IH]; intros s Hn H.
  - destruct s; [discriminate | simpl in Hn; lia].
  - destruct s as [|c s]; [discriminate|]. simpl in Hn, H.
    destruct (N.eqb c 34); [discriminate|].
    destruct (N.eqb c 92).
    { destruct s as [|e r1]; [discriminate|].
      destruct (N.eqb e 117).
      - destruct r1 as [|h1 [|h2 [|h3 [|h4 r2]]]]; try discriminate.
        destruct (hex_val h1), (hex_val h2), (hex_val h3), (hex_val h4);
          try discriminate.
        apply pmap_Fuel in H. apply IH in H; simpl in *; [exact H | lia].
      - destruct (escape e); [|discriminate].
        apply pmap_Fuel in H. apply IH in H; simpl in *; [exact H | lia]. }
    destruct (N.ltb c 32); [discriminate|].
    apply pmap_Fuel in H. apply IH in H; simpl in *; [exact H | lia].
Qed.

Lemma span_digits_length (s d rest : jsstring) :
  span_digits s = (d, rest) -> List.length rest <= List.length s.
Proof.
  revert d rest; induction s as [|c s IH]; intros d rest H; simpl in H.
  - inversion H; simpl; lia.
  - destruct (is_digit c).
    + destruct (span_digits s) as [d' rest'] eqn:E. inversion H; subst.
      specialize (IH _ _ eq_refl). simpl; lia.
    + inversion H; subst; simpl; lia.
Qed.

Lemma digits1_length (s d rest : jsstring) :
  digits1 s = Some (d, rest) -> List.length rest <= List.length s.
Proof.
  unfold digits1. destruct (span_digits s) as [[|x d'] rest'] eqn:E;
    [discriminate|]. intros H; inversion H; subst.
  eapply span_digits_length; eauto.
Qed.

Lemma fraction_length (s f rest : jsstring) :
  fraction s = Some (f, rest) -> List.length rest <= List.length s.
Proof.
  unfold fraction. destruct s as [|c r]; [intros H; inversion H; simpl; lia|].
  destruct (N.eqb c 46).
  - destruct (digits1 r) as [[d rest']|] eqn:E; [|discriminate].
    intros H; inversion H; subst. apply digits1_length in E. simpl; lia.
  - intros H; inversion H; subst; lia.
Qed.

Lemma exponent_length (s e rest : jsstring) :
  exponent s = Some (e, rest) -> List.length rest <= List.length s.
Proof.
  unfold exponent. destruct s as [|c r]; [intros H; inversion H; simpl; lia|].
  destruct (_ || _).
  - destruct r as [|g r']; [discriminate|].
    destruct (_ || _).
    + destruct (digits1 r') as [[d rest']|] eqn:E; [|discriminate].
      intros H; inversion H; subst. apply digits1_length in E. simpl; lia.
    + destruct (digits1 (g :: r')) as [[d rest']|] eqn:E; [|discriminate].
      intros H; inversion H; subst. apply digits1_length in E. simpl in *; lia.
  - intros H; inversion H; subst; lia.
Qed.

Lemma integer_length (s i rest : jsstring) :
  integer s = Some (i, rest) -> List.length rest < List.length s.
Proof.
  unfold integer. destruct s as [|c r]; [discriminate|].
  destruct (N.eqb c 48); [intros H; inversion H; subst; simpl; lia|].
  destruct (is_digit c); [|discriminate].
  destruct (span_digits r) as [d rest'] eqn:E.
  intros H; inversion H; subst. apply span_digits_length in E. simpl; lia.
Qed.

Lemma number_shorter (s x r : jsstring) :
  number s = Parsed x r -> List.length r < List.length s.
Proof.
  unfold number.
  set (p := match s with [] => _ | _ => _ end).
  assert (Hp : List.length (snd p) <= List.length s).
  { subst p. destruct s as [|c s']; simpl; [lia|].
    destruct (N.eqb c 45); simpl; lia. }
  destruct p as [sign s1]. simpl in Hp.
  destruct (integer s1) as [[i s2]|] eqn:E1; [|discriminate].
  destruct (fraction s2) as [[f s3]|] eqn:E2; [|discriminate].
  destruct (exponent s3) as [[e s4]|] eqn:E3; [|discriminate].
  intros H; inversion H; subst.
  apply integer_length in E1. apply fraction_length in E2.
  apply exponent_length in E3. lia.
Qed.

Lemma number_no_Fuel (s : jsstring) : number s <> Fuel.
Proof.
  unfold number.
  destruct (match s with [] => _ | _ => _ end) as [sign s1].
  destruct (integer s1) as [[i s2]|]; [|discriminate].
  destruct (fraction s2) as [[f s3]|]; [|discriminate].
  destruct (exponent s3) as [[e s4]|]; discriminate.
Qed.

Lemma keyword_shorter (name : string) (v w : value) (s r : jsstring) :
  name <> EmptyString ->
  keyword name v s = Parsed w r -> List.length r < List.length s.
Proof.
  unfold keyword. intros Hn. destruct (startsWith s (lit name)) eqn:E; [|discriminate].
  intros H; inversion H; subst.
  apply startsWith_inv in E. rewrite E at 2. rewrite length_app.
  destruct name; [congruence|]. simpl. lia.
Qed.

Lemma keyword_no_Fuel (name : string) (v : value) (s : jsstring) :
  keyword name v s <> Fuel.
Proof. unfold keyword. destruct (startsWith s (lit name)); discriminate. Qed.


Lemma parse_shorter (fuel : nat) :
  (forall s v r, parse_value fuel s = Parsed v r ->
                 List.length r < List.length s)
  /\ (forall s v r, parse_elements fuel s = Parsed v r ->
                    List.length r < List.length s)
  /\ (forall s v r, parse_members fuel s = Parsed v r ->
                    List.length r < List.length s).
Proof.
  induction fuel as [|fuel (IHv & IHe & IHm)];
    [repeat split; intros; discriminate|].
  repeat split; intros s v r H; cbn [parse_value parse_elements parse_members] in H.
  - destruct (skip_ws s) as [|c r0] eqn:E0; [discriminate|].
    apply skip_ws_cons in E0.
    destruct (N.eqb c 34).
    { apply pmap_Parsed in H as [a H].
      apply (string_chars_shorter _ _ _ _ (le_n _)) in H. lia. }
    destruct (N.eqb c 91).
    { destruct (skip_ws r0) as [|c' r'] eqn:E1; [discriminate|].
      apply skip_ws_cons in E1.
      destruct (N.eqb c' 93); [inversion H; subst; lia|].
      apply pmap_Parsed in H as [a H]. apply IHe in H. lia. }
    destruct (N.eqb c 123).
    { destruct (skip_ws r0) as [|c' r'] eqn:E1; [discriminate|].
      apply skip_ws_cons in E1.
      destruct (N.eqb c' 125); [inversion H; subst; lia|].
      apply pmap_Parsed in H as [a H]. apply IHm in H. lia. }
    destruct (N.eqb c 116);
      [apply keyword_shorter in H; [simpl in H; lia | discriminate]|].
    destruct (N.eqb c 102);
      [apply keyword_shorter in H; [simpl in H; lia | discriminate]|].
    destruct (N.eqb c 110);
      [apply keyword_shorter in H; [simpl in H; lia | discriminate]|].
    apply pmap_Parsed in H as [a H]. apply number_shorter in H. simpl in H. lia.
  - destruct (parse_value fuel s) as [v0 r0| |] eqn:E0; try discriminate.
    apply IHv in E0.
    destruct (skip_ws r0) as [|c r'] eqn:E1; [discriminate|].
    apply skip_ws_cons in E1.
    destruct (N.eqb c 44).
    { apply pmap_Parsed in H as [a H]. apply IHe in H. lia. }
    destruct (N.eqb c 93); [inversion H; subst; lia | discriminate].
  - destruct (skip_ws s) as [|q r0] eqn:E0; [discriminate|].
    apply skip_ws_cons in E0.
    destruct (N.eqb q 34); [|discriminate].
    destruct (string_chars r0) as [k r1| |] eqn:E1; try discriminate.
    apply (string_chars_shorter _ _ _ _ (le_n _)) in E1.
    destruct (skip_ws r1) as [|c1 r2] eqn:E2; [discriminate|].
    apply skip_ws_cons in E2.
    destruct (N.eqb c1 58); [|discriminate].
    destruct (parse_value fuel r2) as [v0 r3| |] eqn:E3; try discriminate.
    apply IHv in E3.
    destruct (skip_ws r3) as [|c3 r4] eqn:E4; [discriminate|].
    apply skip_ws_cons in E4.
    destruct (N.eqb c3 44).
    { apply pmap_Parsed in H as [a H]. apply IHm in H. lia. }
    destruct (N.eqb c3 125); [inversion H; subst; lia | discriminate].
Qed.

(** With fuel beyond twice the length of the input, the bound is never
    reached. *)
Lemma parse_no_Fuel (fuel : nat) :
  (forall s, 2 * List.length s < fuel -> parse_value fuel s <> Fuel)
  /\ (forall s, 2 * List.length s + 1 < fuel -> parse_elements fuel s <> Fuel)
  /\ (forall s, 2 * List.length s + 1 < fuel -> parse_members fuel s <> Fuel).
Proof.
  induction fuel as [|fuel (IHv & IHe & IHm)];
    [repeat split; intros; lia|].
  repeat split; intros s Hs H; cbn [parse_value parse_elements parse_members] in H.
  - destruct (skip_ws s) as [|c r0] eqn:E0; [discriminate|].
    apply skip_ws_cons in E0.
    destruct (N.eqb c 34).
    { apply pmap_Fuel in H. exact (string_chars_no_Fuel _ _ (le_n _) H). }
    destruct (N.eqb c 91).
    { destruct (skip_ws r0) as [|c' r'] eqn:E1; [discriminate|].
      destruct (N.eqb c' 93); [discriminate|].
      apply pmap_Fuel in H. apply IHe in H; [exact H | lia]. }
    destruct (N.eqb c 123).
    { destruct (skip_ws r0) as [|c' r'] eqn:E1; [discriminate|].
      destruct (N.eqb c' 125); [discriminate|].
      apply pmap_Fuel in H. apply IHm in H; [exact H | lia]. }
    destruct (N.eqb c 116); [exact (keyword_no_Fuel _ _ _ H)|].
    destruct (N.eqb c 102); [exact (keyword_no_Fuel _ _ _ H)|].
    destruct (N.eqb c 110); [exact (keyword_no_Fuel _ _ _ H)|].
    apply pmap_Fuel in H. exact (number_no_Fuel _ H).
  - destruct (parse_value fuel s) as [v0 r0| |] eqn:E0; try discriminate.
    + apply (proj1 (parse_shorter fuel)) in E0.
      destruct (skip_ws r0) as [|c r'] eqn:E1; [discriminate|].
      apply skip_ws_cons in E1.
      destruct (N.eqb c 44).
      { apply pmap_Fuel in H. apply IHe in H; [exact H | lia]. }
      destruct (N.eqb c 93); discriminate.
    + apply IHv in E0; [exact E0 | lia].
  - destruct (skip_ws s) as [|q r0] eqn:E0; [discriminate|].
    apply skip_ws_cons in E0.
    destruct (N.eqb q 34); [|discriminate].
    destruct (string_chars r0) as [k r1| |] eqn:E1; try discriminate.
    + apply (string_chars_shorter _ _ _ _ (le_n _)) in E1.
      destruct (skip_ws r1) as [|c1 r2] eqn:E2; [discriminate|].
      apply skip_ws_cons in E2.
      destruct (N.eqb c1 58); [|discriminate].
      destruct (parse_value fuel r2) as [v0 r3| |] eqn:E3; try discriminate.
      * apply (proj1 (parse_shorter fuel)) in E3.
        destruct (skip_ws r3) as [|c3 r4] eqn:E4; [discriminate|].
        apply skip_ws_cons in E4.
        destruct (N.eqb c3 44).
        { apply pmap_Fuel in H. apply IHm in H; [exact H | lia]. }
        destruct (N.eqb c3 125); discriminate.
      * apply IHv in E3; [exact E3 | lia].
    + exact (string_chars_no_Fuel _ _ (le_n _) E1).
Qed.

(** [JSON.parse] returns a value or throws: the model's recursion bound
    plays no part. *)
Lemma parse_text_no_Fuel (s : jsstring) : parse_text s <> Fuel.
Proof.
  unfold parse_text.
  destruct (parse_value (fuel_for s) s) as [v r| |] eqn:E.
  - destruct (skip_ws r); discriminate.
  - discriminate.
  - exfalso. apply (proj1 (parse_no_Fuel (fuel_for s))) in E; [exact E|].
    unfold fuel_for; lia.
Qed.

Lemma parse_None_SyntaxError (s : jsstring) :
  parse s = None <-> parse_text s = SyntaxError.
Proof.
  unfold parse. pose proof (parse_text_no_Fuel s).
  destruct (parse_text s); split; congruence.
Qed.

End ParserTermination.

(* ================================================================== *)
(** ** The read loop of [streamOpenAI] *)
(* ================================================================== *)

Section ReadLoop.

Variable engine : Engine.

Lemma try_catch_ret {A} (m : M A) (a : A) :
  exists evs a', try_catch m (fun _ => ret a) = (evs, inr a').
Proof.
  destruct m as [evs [e|x]]; simpl; eauto.
Qed.

(** A line never makes the loop throw. *)
Lemma handle_line_returns (fullText line : jsstring) :
  exists evs fullText',
    handle_line engine fullText line = (evs, inr fullText').
Proof.
  unfold handle_line. destruct (_ && _).
  - apply try_catch_ret.
  - unfold ret; eauto.
Qed.

Lemma for_of_handle_line_returns (lines : list jsstring) (fullText : jsstring) :
  exists evs fullText',
    for_of lines (handle_line engine) fullText = (evs, inr fullText').
Proof.
  revert fullText; induction lines as [|l lines IH]; intros fullText.
  - unfold for_of, ret; eauto.
  - cbn [for_of].
    destruct (handle_line_returns fullText l) as (evs1 & ft1 & ->).
    destruct (IH ft1) as (evs2 & ft2 & E). unfold bind. rewrite E. eauto.
Qed.

Lemma scan_returns (t : jsstring) :
  exists evs fullText, scan engine t = (evs, inr fullText).
Proof. apply for_of_handle_line_returns. Qed.

(** One read: the lines that the new text completes are handled, the rest
    stays in the buffer. *)
Lemma on_read_spec (st : loop_state) (value : Utf8.bytes) :
  on_read engine st value
  = let (d, chunk) := Utf8.decode (text_decoder st) value in
    bind (for_of (complete_lines (buffer st ++ chunk)) (handle_line engine)
                 (fullText st))
         (fun ft => ret (mkLoop d ft (pending (buffer st ++ chunk)))).
Proof.
  unfold on_read. destruct (Utf8.decode (text_decoder st) value) as [d chunk].
  rewrite pop_split, or_empty_Some. reflexivity.
Qed.

(** Any number of reads: what was handled and what is buffered depend on
    the concatenation of the chunks only. *)
Lemma reads_spec (cs : list Utf8.bytes) :
  forall st, ~ In 10%N (buffer st) ->
    for_of cs (on_read engine) st
    = let (d, t) := Utf8.decode (text_decoder st) (concat cs) in
      bind (for_of (complete_lines (buffer st ++ t)) (handle_line engine)
                   (fullText st))
           (fun ft => ret (mkLoop d ft (pending (buffer st ++ t)))).
Proof.
  induction cs as [|c cs IH]; intros st Hbuf.
  - cbn [concat for_of Utf8.decode]. rewrite app_nil_r.
    unfold complete_lines, pending. rewrite (split_no_sep _ _ Hbuf).
    cbn [removelast last for_of]. rewrite bind_ret_l. destruct st; reflexivity.
  - cbn [concat for_of]. rewrite on_read_spec, decode_app.
    destruct (Utf8.decode (text_decoder st) c) as [d1 t1].
    rewrite bind_assoc.
    destruct (Utf8.decode d1 (concat cs)) as [d2 t2] eqn:E2.
    rewrite app_assoc, (complete_lines_app (buffer st ++ t1) t2),
      (pending_app (buffer st ++ t1) t2), for_of_app, bind_assoc.
    apply bind_ext; intros ft1. rewrite bind_ret_l.
    rewrite IH by (cbn [buffer]; apply last_split_no_sep).
    cbn [text_decoder buffer fullText]. rewrite E2. reflexivity.
Qed.

Lemma reads_from_start (cs : list Utf8.bytes) :
  for_of cs (on_read engine) initial_loop
  = bind (scan engine (decoded cs))
         (fun ft => ret (mkLoop (fst (Utf8.decode Utf8.new_TextDecoder (concat cs)))
                                ft (pending (decoded cs)))).
Proof.
  rewrite reads_spec by (intros []).
  unfold decoded, scan. cbn [text_decoder buffer fullText initial_loop app].
  destruct (Utf8.decode Utf8.new_TextDecoder (concat cs)); reflexivity.
Qed.

(** A body that ends normally: the loop returns what the complete lines of
    the decoded text accumulate; the buffer is dropped. *)
Lemma read_loop_Done (cs : list Utf8.bytes) :
  read_loop engine (mkSource cs Done) = scan engine (decoded cs).
Proof.
  unfold read_loop, for_await. cbn [items finish].
  fold initial_loop. rewrite reads_from_start.
  rewrite !bind_assoc. rewrite <- (bind_ret_r (scan engine (decoded cs))) at 2.
  apply bind_ext; intros ft. now rewrite !bind_ret_l.
Qed.

End ReadLoop.

(* ================================================================== *)
(** ** [streamOpenAI]: the shape of a call *)
(* ================================================================== *)

Import ChatMessage AIProvider.

Section OpenAIFacts.

Variable engine : Engine.
Variable world : World.
Variables (history : list ChatMessage.t) (newMessage : jsstring).
Variable provider : AIProvider.t.

Let url := completions_url provider.
Let init := request_init history newMessage provider.

Hypothesis Hkey : truthy_opt (apiKey provider) = true.
Hypothesis Hurl : truthy_opt (baseUrl provider) = true.

(** With a complete configuration the adapter starts with its request. *)
Lemma streamOpenAI_fetches :
  exists rest,
    trace (streamOpenAI engine world history newMessage provider)
    = Fetch url init :: rest.
Proof.
  unfold streamOpenAI. rewrite Hkey, Hurl. cbn [negb orb].
  fold (completions_url provider). fold url. fold init.
  unfold try_catch, bind, emit, await, trace.
  destruct (fetch world url init) as [e|response]; cbn.
  - eauto.
  - destruct (ok response); cbn.
    + destruct (response_body response) as [reader|]; cbn.
      * destruct (read_loop engine reader) as [evs [e|a]]; cbn; eauto.
      * eauto.
    + destruct (Response_text response) as [evs [e|a]]; cbn; eauto.
Qed.

(** A success response whose body ends normally. *)
Lemma streamOpenAI_streams (response : Response) (cs : list Utf8.bytes) :
  fetch world url init = inr response ->
  ok response = true ->
  response_body response = Some (mkSource cs Done) ->
  streamOpenAI engine world history newMessage provider
  = (Fetch url init :: trace (scan engine (decoded cs)),
     outcome (scan engine (decoded cs))).
Proof.
  intros Hf Hok Hb.
  unfold streamOpenAI. rewrite Hkey, Hurl. cbn [negb orb].
  fold (completions_url provider). fold url. fold init.
  unfold try_catch, bind at 1 2 3, emit, await. rewrite Hf, Hok, Hb.
  cbn [negb]. rewrite read_loop_Done.
  destruct (scan_returns engine (decoded cs)) as (evs & ft & ->).
  reflexivity.
Qed.

(** A response that is not a success. *)
Lemma streamOpenAI_not_ok (response : Response) (err : jsstring) :
  fetch world url init = inr response ->
  ok response = false ->
  Response_text response = ret err ->
  let e := Error (lit "Provider Error (" ++ of_N (status response)
                  ++ lit "): " ++ err) in
  streamOpenAI engine world history newMessage provider
  = ([Fetch url init; ConsoleError (lit "OpenAI/Custom Chat Error:") e],
     inl e).
Proof.
  intros Hf Hok Ht e.
  unfold streamOpenAI. rewrite Hkey, Hurl. cbn [negb orb].
  fold (completions_url provider). fold url. fold init.
  unfold try_catch, bind, emit, await. rewrite Hf, Hok, Ht.
  reflexivity.
Qed.

End OpenAIFacts.

(* ================================================================== *)
(** ** [streamGemini]: the shape of a call *)
(* ================================================================== *)

Section GeminiFacts.

Variable world : World.
Variables (history : list ChatMessage.t) (newMessage : jsstring).
Variables (newImages : list jsstring) (modelName : jsstring).

Let chat := chat_parameters history modelName.
Let message := outgoing_message (new_parts newMessage newImages).

Hypothesis Hkey : truthy_opt (API_KEY world) = true.

Lemma gemini_chunk_returns (responseText : jsstring)
    (c : GenerateContentResponse) :
  exists evs responseText',
    gemini_chunk responseText c = (evs, inr responseText').
Proof.
  unfold gemini_chunk, bind, emit, ret.
  destruct (truthy_opt (chunk_text c)); cbn; eauto.
Qed.

Lemma for_of_gemini_chunk_returns (chunks : list GenerateContentResponse) :
  forall responseText, exists evs responseText',
    for_of chunks gemini_chunk responseText = (evs, inr responseText').
Proof.
  induction chunks as [|c chunks IH]; intros responseText.
  - unfold for_of, ret; eauto.
  - cbn [for_of].
    destruct (gemini_chunk_returns responseText c) as (evs1 & t1 & ->).
    destruct (IH t1) as (evs2 & t2 & E). unfold bind. rewrite E. eauto.
Qed.

(** With the system key present the adapter starts with its SDK call. *)
Lemma streamGemini_sends :
  exists rest,
    trace (streamGemini world history newMessage newImages modelName)
    = SendMessageStream chat message :: rest.
Proof.
  unfold streamGemini, getGeminiClient. rewrite Hkey. cbn [negb].
  rewrite bind_ret_l. fold chat. fold message.
  unfold try_catch, bind, emit, await, trace.
  destruct (sendMessageStream world chat message) as [e|src]; cbn; [eauto|].
  destruct (for_await src gemini_chunk []) as [evs [e|a]]; cbn; eauto.
Qed.

(** A stream that ends normally. *)
Lemma streamGemini_streams (chunks : list GenerateContentResponse) :
  sendMessageStream world chat message = inr (mkSource chunks Done) ->
  streamGemini world history newMessage newImages modelName
  = (SendMessageStream chat message :: trace (for_of chunks gemini_chunk []),
     outcome (for_of chunks gemini_chunk [])).
Proof.
  intros Hs.
  unfold streamGemini, getGeminiClient. rewrite Hkey. cbn [negb].
  rewrite bind_ret_l. fold chat. fold message.
  unfold try_catch, bind at 1 2, emit, await. rewrite Hs.
  unfold for_await. cbn [items finish]. rewrite bind_ret_r.
  destruct (for_of_gemini_chunk_returns chunks []) as (evs & t & ->).
  reflexivity.
Qed.

End GeminiFacts.

(* ================================================================== *)
(** ** Properties of the adapters *)
(* ================================================================== *)

(** C1, as amended: when the SDK stream carries the chunk texts "Hi",
    "Hi there", "Hi there!" and ends, [onChunk] is invoked exactly three
    times, with "Hi", "HiHi there" and "HiHi thereHi there!" in that order:
    each chunk's text is appended to the running total.  The call resolves
    with "HiHi thereHi there!". *)
Theorem streamGemini_appends_chunk_texts
    (world : World) (history : list ChatMessage.t) (newMessage : jsstring)
    (newImages : list jsstring) (modelName : jsstring) :
  truthy_opt (API_KEY world) = true ->
  sendMessageStream world (chat_parameters history modelName)
      (outgoing_message (new_parts newMessage newImages))
    = inr (mkSource [chunk_of "Hi"; chunk_of "Hi there"; chunk_of "Hi there!"]
                    Done) ->
  let run := streamGemini world history newMessage newImages modelName in
  onChunk_calls (trace run)
    = [lit "Hi"; lit "HiHi there"; lit "HiHi thereHi there!"]
  /\ outcome run = inr (lit "HiHi thereHi there!").
Proof.
  intros Hkey Hs run. subst run.
  rewrite (streamGemini_streams _ _ _ _ _ Hkey _ Hs).
  split; reflexivity.
Qed.

Lemma streamGemini_appends_chunk_texts_witness :
  let run := streamGemini (chat_world ["Hi"; "Hi there"; "Hi there!"]%string)
               [] (lit "hello") [] ModelName.FLASH in
  onChunk_calls (trace run)
    = [lit "Hi"; lit "HiHi there"; lit "HiHi thereHi there!"]
  /\ outcome run = inr (lit "HiHi thereHi there!").
Proof.
  apply streamGemini_appends_chunk_texts; reflexivity.
Defined.

(** C1 as stated fails: on the chunk texts "Hi", "Hi there", "Hi there!" the
    callback does not receive "Hi", "Hi there", "Hi there!". *)
Lemma streamGemini_not_replacement :
  let run := streamGemini (chat_world ["Hi"; "Hi there"; "Hi there!"]%string)
               [] (lit "hello") [] ModelName.FLASH in
  ~ (onChunk_calls (trace run) = [lit "Hi"; lit "Hi there"; lit "Hi there!"]
     /\ outcome run = inr (lit "Hi there!")).
Proof.
  intros run [H _]. vm_compute in H. discriminate H.
Qed.

(* ------------------------------------------------------------------ *)
(** *** The managed adapter: projection of the turns *)

Lemma removelast_length {A} (l : list A) :
  List.length (removelast l) = List.length l - 1.
Proof.
  rewrite removelast_firstn_len, length_firstn. lia.
Qed.

Lemma history_content_parts (msg : ChatMessage.t) :
  parts (history_content msg)
  = TextPart (text msg) :: map inline_jpeg (images_of msg).
Proof.
  unfold history_content, images_of. cbn [parts].
  destruct (images msg) as [[|i imgs]|]; reflexivity.
Qed.

Lemma new_parts_spec (newMessage : jsstring) (newImages : list jsstring) :
  new_parts newMessage newImages
  = TextPart newMessage :: map inline_jpeg newImages.
Proof.
  unfold new_parts.
  assert (H : forall imgs acc,
             fold_left (fun ps img => ps ++ [inline_jpeg img]) imgs acc
             = acc ++ map inline_jpeg imgs).
  { induction imgs as [|i imgs IH]; intros acc; cbn [fold_left map].
    - now rewrite app_nil_r.
    - rewrite IH, <- app_assoc. reflexivity. }
  destruct newImages as [|i imgs]; [reflexivity|].
  cbn [List.length Nat.ltb Nat.leb]. rewrite H. reflexivity.
Qed.

(** C4: for every history and every prior turn [k] of it (the history
    without its last element, the new turn in flight), the entry [k] of the
    history handed to the SDK has exactly [1 + len(images_k)] parts, the text
    part first and after it, in order, one part of inline data per image,
    with the type image/jpeg and the image as data; a turn without images
    gives exactly the one text part.  The SDK history has one entry per
    prior turn. *)
Theorem prior_turns_projection
    (world : World) (history : list ChatMessage.t) (newMessage : jsstring)
    (newImages : list jsstring) (modelName : jsstring)
    (k : nat) (msg : ChatMessage.t) :
  truthy_opt (API_KEY world) = true ->
  nth_error (removelast history) k = Some msg ->
  exists chat message rest c,
    trace (streamGemini world history newMessage newImages modelName)
      = SendMessageStream chat message :: rest
    /\ List.length (chat_history chat) = List.length history - 1
    /\ nth_error (chat_history chat) k = Some c
    /\ parts c
       = TextPart (text msg)
         :: map (InlineData (lit "image/jpeg")) (images_of msg)
    /\ List.length (parts c) = 1 + List.length (images_of msg)
    /\ (images_of msg = [] -> parts c = [TextPart (text msg)]).
Proof.
  intros Hkey Hk.
  destruct (streamGemini_sends world history newMessage newImages modelName
              Hkey) as [rest Hrest].
  exists (chat_parameters history modelName),
         (outgoing_message (new_parts newMessage newImages)), rest,
         (history_content msg).
  split; [exact Hrest|]. cbn [chat_parameters chat_history]. unfold prevHistory.
  split; [now rewrite length_map, removelast_length|].
  split; [now apply map_nth_error|].
  rewrite history_content_parts.
  split; [reflexivity|]. split; [cbn; now rewrite length_map|].
  intros ->; reflexivity.
Qed.

Lemma prior_turns_projection_witness :
  exists chat message rest c,
    trace (streamGemini (chat_world []) 
             [sample_message USER "look" (Some [lit "AAAA"; lit "BBBB"]);
              sample_message MODEL "nice" None;
              sample_message USER "more" None]
             (lit "more") [] ModelName.FLASH)
      = SendMessageStream chat message :: rest
    /\ List.length (chat_history chat) = 3 - 1
    /\ nth_error (chat_history chat) 0 = Some c
    /\ parts c = [TextPart (lit "look");
                  InlineData (lit "image/jpeg") (lit "AAAA");
                  InlineData (lit "image/jpeg") (lit "BBBB")]
    /\ List.length (parts c) = 1 + 2
    /\ (images_of (sample_message USER "look" (Some [lit "AAAA"; lit "BBBB"]))
          = [] -> parts c = [TextPart (lit "look")]).
Proof.
  apply (prior_turns_projection (chat_world [])
           [sample_message USER "look" (Some [lit "AAAA"; lit "BBBB"]);
            sample_message MODEL "nice" None;
            sample_message USER "more" None]
           (lit "more") [] ModelName.FLASH 0
           (sample_message USER "look" (Some [lit "AAAA"; lit "BBBB"])));
    reflexivity.
Defined.

(** C5, as amended: the new user turn is submitted as the list of parts
    (the text part, then one part of inline data per attached image, in
    order, with the type image/jpeg and the image as data) when there is at
    least one image; with no image it is submitted as the bare text string,
    not as a list of parts. *)
Theorem new_turn_submission
    (world : World) (history : list ChatMessage.t) (newMessage : jsstring)
    (newImages : list jsstring) (modelName : jsstring) :
  truthy_opt (API_KEY world) = true ->
  exists rest,
    trace (streamGemini world history newMessage newImages modelName)
    = SendMessageStream (chat_parameters history modelName)
        (match newImages with
         | [] => MessageString newMessage
         | _ :: _ =>
             MessageParts
               (TextPart newMessage
                :: map (InlineData (lit "image/jpeg")) newImages)
         end) :: rest.
Proof.
  intros Hkey.
  destruct (streamGemini_sends world history newMessage newImages modelName
              Hkey) as [rest Hrest].
  exists rest. rewrite Hrest. rewrite new_parts_spec.
  destruct newImages as [|i imgs]; reflexivity.
Qed.

Lemma new_turn_submission_witness :
  exists rest,
    trace (streamGemini (chat_world []) [] (lit "look") [lit "AAAA"]
             ModelName.FLASH)
    = SendMessageStream (chat_parameters [] ModelName.FLASH)
        (MessageParts [TextPart (lit "look");
                       InlineData (lit "image/jpeg") (lit "AAAA")])
      :: rest.
Proof.
  apply (new_turn_submission (chat_world []) [] (lit "look") [lit "AAAA"]
           ModelName.FLASH).
  reflexivity.
Defined.

(** C5 as stated fails: a new turn without images is not submitted as a
    list of parts. *)
Lemma new_turn_without_images_is_no_part_list :
  ~ (exists chat rest,
       trace (streamGemini (chat_world []) [] (lit "hello") []
                ModelName.FLASH)
       = SendMessageStream chat
           (MessageParts [TextPart (lit "hello")])
         :: rest).
Proof.
  intros (chat & rest & H). vm_compute in H. discriminate H.
Qed.

(* ------------------------------------------------------------------ *)
(** *** The compatible adapter: failures *)

(** C6: with a provider whose [apiKey] is missing or empty, or whose
    [baseUrl] is missing or empty, [streamOpenAI] fails at once with an
    error: it performs no event at all, so no [fetch] and no [onChunk]. *)
Theorem missing_configuration_fails_first
    (engine : Engine) (world : World) (history : list ChatMessage.t)
    (newMessage : jsstring) (provider : AIProvider.t) :
  apiKey provider = None \/ apiKey provider = Some []
  \/ baseUrl provider = None \/ baseUrl provider = Some [] ->
  let run := streamOpenAI engine world history newMessage provider in
  outcome run
    = inl (Error (lit "API Key or Base URL missing for custom provider."))
  /\ trace run = []
  /\ filter is_request (trace run) = []
  /\ onChunk_calls (trace run) = [].
Proof.
  intros H run. subst run. unfold streamOpenAI.
  assert (E : negb (truthy_opt (apiKey provider))
              || negb (truthy_opt (baseUrl provider)) = true).
  { destruct H as [H|[H|[H|H]]]; rewrite H; cbn;
      [reflexivity | reflexivity | apply orb_true_r | apply orb_true_r]. }
  rewrite E. repeat split.
Qed.

Lemma missing_configuration_fails_first_witness :
  let provider :=
    AIProvider.mk (lit "kimi-8k") (lit "Kimi") openai
      (Some (lit "https://api.moonshot.cn/v1")) None (lit "moonshot-v1-8k")
      (Some false) in
  let run := streamOpenAI sample_engine (http_world 200 [sse_body]) []
               (lit "hello") provider in
  outcome run
    = inl (Error (lit "API Key or Base URL missing for custom provider."))
  /\ trace run = []
  /\ filter is_request (trace run) = []
  /\ onChunk_calls (trace run) = [].
Proof.
  intros provider.
  apply (missing_configuration_fails_first sample_engine
           (http_world 200 [sse_body]) [] (lit "hello") provider).
  left; reflexivity.
Defined.

(** C7: when the response status is not a success status, the call fails
    with the error whose message is "Provider Error (" + status + "): " +
    body text, the status written with its decimal digits: it contains the
    status code and the raw body text.  Nothing is resolved and [onChunk] is
    never invoked. *)
Theorem http_error_fails_with_status_and_body
    (engine : Engine) (world : World) (history : list ChatMessage.t)
    (newMessage : jsstring) (provider : AIProvider.t)
    (response : Response) (err : jsstring) :
  truthy_opt (apiKey provider) = true ->
  truthy_opt (baseUrl provider) = true ->
  fetch world (completions_url provider)
        (request_init history newMessage provider) = inr response ->
  ok response = false ->
  Response_text response = ret err ->
  let run := streamOpenAI engine world history newMessage provider in
  let digits := lit (NilZero.string_of_uint (N.to_uint (status response))) in
  exists message,
    outcome run = inl (Error message)
    /\ message = lit "Provider Error (" ++ digits ++ lit "): " ++ err
    /\ includes message digits = true
    /\ includes message err = true
    /\ onChunk_calls (trace run) = [].
Proof.
  intros Hkey Hurl Hf Hok Ht run digits. subst run digits.
  fold (of_N (status response)).
  rewrite (streamOpenAI_not_ok engine world history newMessage provider
             Hkey Hurl response err Hf Hok Ht).
  eexists; split; [reflexivity|]. split; [reflexivity|].
  split; [apply includes_app|]. split; [|reflexivity].
  rewrite app_assoc, app_assoc, <- (app_nil_r err) at 1.
  apply includes_app.
Qed.

Lemma http_error_fails_with_status_and_body_witness :
  let run := streamOpenAI sample_engine
               (http_world 401 [ascii_bytes "bad "; ascii_bytes "key"]) []
               (lit "hello") sample_provider in
  outcome run = inl (Error (lit "Provider Error (401): bad key"))
  /\ includes (lit "Provider Error (401): bad key") (lit "401") = true
  /\ includes (lit "Provider Error (401): bad key") (lit "bad key") = true
  /\ onChunk_calls (trace run) = [].
Proof.
  intros run.
  destruct (http_error_fails_with_status_and_body sample_engine
              (http_world 401 [ascii_bytes "bad "; ascii_bytes "key"]) []
              (lit "hello") sample_provider
              (mkResponse 401
                 (Some (mkSource [ascii_bytes "bad "; ascii_bytes "key"] Done)))
              (lit "bad key") eq_refl eq_refl eq_refl eq_refl eq_refl)
    as (message & Hout & Hmsg & Hstatus & Herr & Hcalls).
  rewrite Hmsg in Hout, Hstatus, Herr.
  repeat split; assumption.
Defined.

(* ------------------------------------------------------------------ *)
(** *** Image generation *)



(* ------------------------------------------------------------------ *)
(** *** The two adapters and the last element of the history *)

(** C10: on the same history, [streamOpenAI] puts every turn of the history
    into the request's [messages] (after the system message) and appends the
    new user message, whereas [streamGemini] hands the SDK the history
    without its last element, and the new turn as the outgoing message: its
    text alone, or its text part and its images.  So when [handleSendChat]
    calls the facade, with the new user turn as last element of the history,
    the compatible adapter's request ends with the new user text twice, and
    the managed adapter's carries it once, as the outgoing message.  The
    entries are written out: [api_turn] is what the compatible request holds
    for a turn, [sdk_turn] what the SDK history holds for it, [sent] the
    outgoing message of the SDK. *)
Theorem last_turn_kept_by_openai_dropped_by_gemini
    (engine : Engine) (world : World) (history : list ChatMessage.t)
    (newMessage : jsstring) (newImages : list jsstring)
    (compatible managed : AIProvider.t) :
  let api_system :=
    mkMessage (lit "system")
      (lit "You are a helpful, professional AI assistant. Output in Markdown.") in
  let api_turn := fun msg : ChatMessage.t =>
    mkMessage (if Role_eqb (role msg) MODEL then lit "assistant" else lit "user")
              (text msg) in
  let sdk_turn := fun msg : ChatMessage.t =>
    mkContent (if Role_eqb (role msg) USER then lit "user" else lit "model")
      (TextPart (text msg)
       :: map (InlineData (lit "image/jpeg")) (images_of msg)) in
  let sent := fun (t : jsstring) (imgs : list jsstring) =>
    match imgs with
    | [] => MessageString t
    | _ :: _ => MessageParts (TextPart t :: map (InlineData (lit "image/jpeg")) imgs)
    end in
  type compatible = openai ->
  truthy_opt (apiKey compatible) = true ->
  truthy_opt (baseUrl compatible) = true ->
  type managed = gemini ->
  truthy_opt (API_KEY world) = true ->
  (exists init rest,
      trace (streamChatResponse engine world history newMessage newImages
               compatible)
        = Fetch (completions_url compatible) init :: rest
      /\ messages (body init)
         = api_system :: map api_turn history
           ++ [mkMessage (lit "user") newMessage])
  /\ (exists chat rest,
         trace (streamChatResponse engine world history newMessage newImages
                  managed)
           = SendMessageStream chat (sent newMessage newImages) :: rest
         /\ chat_history chat = map sdk_turn (removelast history))
  /\ (forall prior input attachedImages isLoading now run_c run_m,
         handleSendChat engine world prior input attachedImages isLoading now
           compatible = Some run_c ->
         handleSendChat engine world prior input attachedImages isLoading now
           managed = Some run_m ->
         (exists init rest,
             trace run_c = Fetch (completions_url compatible) init :: rest
             /\ messages (body init)
                = api_system :: map api_turn prior
                  ++ [mkMessage (lit "user") input;
                      mkMessage (lit "user") input])
         /\ (exists chat rest,
                trace run_m
                  = SendMessageStream chat (sent input attachedImages) :: rest
                /\ chat_history chat = map sdk_turn prior)).
Proof.
  intros api_system api_turn sdk_turn sent Hc Hkey Hurl Hm Hsys.
  assert (Ho : forall h m imgs,
             exists init rest,
               trace (streamChatResponse engine world h m imgs compatible)
                 = Fetch (completions_url compatible) init :: rest
               /\ messages (body init)
                  = api_system :: map api_turn h
                    ++ [mkMessage (lit "user") m]).
  { intros h m imgs. unfold streamChatResponse. rewrite Hc.
    destruct (streamOpenAI_fetches engine world h m compatible Hkey Hurl)
      as [rest Hrest].
    exists (request_init h m compatible), rest. split; [exact Hrest|].
    reflexivity. }
  assert (Hg : forall h m imgs,
             exists chat rest,
               trace (streamChatResponse engine world h m imgs managed)
                 = SendMessageStream chat (sent m imgs) :: rest
               /\ chat_history chat = map sdk_turn (removelast h)).
  { intros h m imgs. unfold streamChatResponse. rewrite Hm.
    destruct (streamGemini_sends world h m imgs (modelId managed) Hsys)
      as [rest Hrest].
    exists (chat_parameters h (modelId managed)), rest. split.
    - rewrite Hrest, new_parts_spec. destruct imgs; reflexivity.
    - cbn [chat_parameters chat_history]. unfold prevHistory.
      apply map_ext. intros msg. unfold history_content, sdk_turn, images_of.
      destruct (images msg) as [[|i imgs']|]; reflexivity. }
  split; [apply Ho|]. split; [apply Hg|].
  intros prior input attachedImages isLoading now run_c run_m Hrc Hrm.
  unfold handleSendChat in Hrc, Hrm.
  destruct (_ || _); [discriminate|].
  destruct (_ && _) in Hrc; [discriminate|].
  destruct (_ && _) in Hrm; [discriminate|].
  inversion Hrc; inversion Hrm; subst run_c run_m.
  cbn [text images].
  split.
  - destruct (Ho (prior ++ [ChatMessage.mk (of_N now) USER input now
                              (Some attachedImages) None])
                 input attachedImages) as (init & rest & Ht & Hmsgs).
    exists init, rest. split; [exact Ht|]. rewrite Hmsgs.
    rewrite map_app, <- app_assoc. reflexivity.
  - destruct (Hg (prior ++ [ChatMessage.mk (of_N now) USER input now
                              (Some attachedImages) None])
                 input attachedImages) as (chat & rest & Ht & Hh).
    exists chat, rest. split; [exact Ht|]. rewrite Hh.
    now rewrite removelast_last.
Qed.

Lemma last_turn_kept_by_openai_dropped_by_gemini_witness :
  let world :=
    constant_world (Some (lit "system-key")) (inr (mkSource [] Done))
      (inl unreachable)
      (inr (mkResponse 200 (Some (mkSource [sse_body] Done)))) in
  let history := [sample_message USER "first" (Some [lit "AAAA"]);
                  sample_message MODEL "reply" None;
                  sample_message USER "again" None] in
  (exists init rest,
      trace (streamChatResponse sample_engine world history (lit "again") []
               sample_provider)
        = Fetch (completions_url sample_provider) init :: rest
      /\ messages (body init)
         = [mkMessage (lit "system")
              (lit "You are a helpful, professional AI assistant. Output in Markdown.");
            mkMessage (lit "user") (lit "first");
            mkMessage (lit "assistant") (lit "reply");
            mkMessage (lit "user") (lit "again");
            mkMessage (lit "user") (lit "again")])
  /\ (exists chat rest,
         trace (streamChatResponse sample_engine world history (lit "again") []
                  gemini_provider)
           = SendMessageStream chat (MessageString (lit "again")) :: rest
         /\ chat_history chat
            = [mkContent (lit "user")
                 [TextPart (lit "first");
                  InlineData (lit "image/jpeg") (lit "AAAA")];
               mkContent (lit "model") [TextPart (lit "reply")]]).
Proof.
  intros world history.
  destruct (last_turn_kept_by_openai_dropped_by_gemini sample_engine world
              history (lit "again") [] sample_provider gemini_provider
              eq_refl eq_refl eq_refl eq_refl eq_refl) as (H1 & H2 & _).
  split; [exact H1 | exact H2].
Defined.

(* ------------------------------------------------------------------ *)
(** *** The compatible adapter: the stream *)

Lemma scan_sse_body (engine : Engine) :
  scan engine (snd (Utf8.decode Utf8.new_TextDecoder sse_body))
  = ([JSONParse json_Hi; OnChunk (lit "Hi");
      JSONParse json_there; OnChunk (lit "Hi there")],
     inr (lit "Hi there")).
Proof. vm_compute. reflexivity. Qed.

Lemma scan_sse_body_open (engine : Engine) :
  scan engine (snd (Utf8.decode Utf8.new_TextDecoder sse_body_open))
  = ([JSONParse json_Hi; OnChunk (lit "Hi");
      JSONParse json_there; OnChunk (lit "Hi there")],
     inr (lit "Hi there")).
Proof. vm_compute. reflexivity. Qed.

(** C2: on a body made of the two delta lines and the [DONE] line (the last
    line with or without its line feed), however it is cut into reads,
    [onChunk] is invoked exactly twice, with "Hi" and then "Hi there"; the
    [DONE] line is passed over (it is not handed to [JSON.parse] and nothing
    is thrown); the call resolves with "Hi there". *)
Theorem openai_stream_appends_deltas
    (engine : Engine) (world : World) (history : list ChatMessage.t)
    (newMessage : jsstring) (provider : AIProvider.t)
    (response : Response) (cs : list Utf8.bytes) :
  truthy_opt (apiKey provider) = true ->
  truthy_opt (baseUrl provider) = true ->
  fetch world (completions_url provider)
        (request_init history newMessage provider) = inr response ->
  ok response = true ->
  response_body response = Some (mkSource cs Done) ->
  concat cs = sse_body \/ concat cs = sse_body_open ->
  let run := streamOpenAI engine world history newMessage provider in
  onChunk_calls (trace run) = [lit "Hi"; lit "Hi there"]
  /\ parse_attempts (trace run) = [json_Hi; json_there]
  /\ outcome run = inr (lit "Hi there").
Proof.
  intros Hkey Hurl Hf Hok Hb Hcs run. subst run.
  rewrite (streamOpenAI_streams engine world history newMessage provider
             Hkey Hurl response cs Hf Hok Hb).
  unfold decoded.
  destruct Hcs as [-> | ->]; [rewrite scan_sse_body | rewrite scan_sse_body_open];
    repeat split.
Qed.

Lemma openai_stream_appends_deltas_witness :
  let run := streamOpenAI sample_engine
               (http_world 200 [firstn 60 sse_body; skipn 60 sse_body]) []
               (lit "hello") sample_provider in
  onChunk_calls (trace run) = [lit "Hi"; lit "Hi there"]
  /\ parse_attempts (trace run) = [json_Hi; json_there]
  /\ outcome run = inr (lit "Hi there").
Proof.
  apply (openai_stream_appends_deltas sample_engine
           (http_world 200 [firstn 60 sse_body; skipn 60 sse_body]) []
           (lit "hello") sample_provider
           (mkResponse 200
              (Some (mkSource [firstn 60 sse_body; skipn 60 sse_body] Done)))
           [firstn 60 sse_body; skipn 60 sse_body]);
    try reflexivity.
  left; reflexivity.
Defined.

Lemma complete_lines_no_LF (t : jsstring) :
  ~ In 10%N t -> complete_lines t = [] /\ pending t = t.
Proof.
  intros H. unfold complete_lines, pending.
  rewrite (split_no_sep _ _ H). split; reflexivity.
Qed.

(** A read whose text brings no line feed only grows the buffer. *)
Lemma on_read_without_LF (engine : Engine) (st : loop_state)
    (value : Utf8.bytes) :
  ~ In 10%N (buffer st) ->
  ~ In 10%N (snd (Utf8.decode (text_decoder st) value)) ->
  on_read engine st value
  = ret (mkLoop (fst (Utf8.decode (text_decoder st) value)) (fullText st)
                (buffer st ++ snd (Utf8.decode (text_decoder st) value))).
Proof.
  intros Hb Hc. rewrite on_read_spec.
  destruct (Utf8.decode (text_decoder st) value) as [d chunk]. cbn [fst snd] in *.
  assert (H : ~ In 10%N (buffer st ++ chunk)).
  { intros Hin. apply in_app_or in Hin as [Hin|Hin]; tauto. }
  destruct (complete_lines_no_LF _ H) as [-> ->].
  cbn [for_of]. now rewrite bind_ret_l.
Qed.

(** C3: a read hands to [JSON.parse] only lines that a line feed has
    completed: after any reads, what was handled is the complete lines of
    the text decoded so far, and what follows the last line feed waits in
    the buffer; a read without line feed handles nothing.  The run, and so
    the accumulated text and the resolved value, is the same for all ways of
    cutting the same bytes into reads.  At the end of the body what is left
    in the buffer is dropped: only the complete lines count. *)
Theorem partial_line_buffering
    (engine : Engine) (world1 world2 : World) (history : list ChatMessage.t)
    (newMessage : jsstring) (provider : AIProvider.t)
    (response1 response2 : Response) (cs1 cs2 : list Utf8.bytes) :
  truthy_opt (apiKey provider) = true ->
  truthy_opt (baseUrl provider) = true ->
  fetch world1 (completions_url provider)
        (request_init history newMessage provider) = inr response1 ->
  ok response1 = true ->
  response_body response1 = Some (mkSource cs1 Done) ->
  fetch world2 (completions_url provider)
        (request_init history newMessage provider) = inr response2 ->
  ok response2 = true ->
  response_body response2 = Some (mkSource cs2 Done) ->
  concat cs1 = concat cs2 ->
  let run1 := streamOpenAI engine world1 history newMessage provider in
  let run2 := streamOpenAI engine world2 history newMessage provider in
  (forall cs,
      for_of cs (on_read engine) initial_loop
      = bind (scan engine (decoded cs))
          (fun ft =>
             ret (mkLoop (fst (Utf8.decode Utf8.new_TextDecoder (concat cs)))
                         ft (pending (decoded cs))))
      /\ decoded cs = unlines (complete_lines (decoded cs)) ++ pending (decoded cs)
      /\ ~ In 10%N (pending (decoded cs)))
  /\ (forall st value,
         ~ In 10%N (buffer st) ->
         ~ In 10%N (snd (Utf8.decode (text_decoder st) value)) ->
         on_read engine st value
         = ret (mkLoop (fst (Utf8.decode (text_decoder st) value))
                       (fullText st)
                       (buffer st ++ snd (Utf8.decode (text_decoder st) value))))
  /\ run1 = run2
  /\ run1 = (Fetch (completions_url provider)
                   (request_init history newMessage provider)
               :: trace (scan engine (decoded cs1)),
             outcome (scan engine (decoded cs1)))
  /\ (forall cs cs',
         complete_lines (decoded cs) = complete_lines (decoded cs') ->
         read_loop engine (mkSource cs Done)
         = read_loop engine (mkSource cs' Done)).
Proof.
  intros Hkey Hurl Hf1 Hok1 Hb1 Hf2 Hok2 Hb2 Hcs run1 run2. subst run1 run2.
  split; [|split; [|split; [|split]]].
  - intros cs. split; [apply reads_from_start|]. split.
    + unfold unlines, complete_lines, pending. symmetry. apply split_unlines.
    + apply last_split_no_sep.
  - apply on_read_without_LF.
  - rewrite (streamOpenAI_streams engine world1 history newMessage provider
               Hkey Hurl response1 cs1 Hf1 Hok1 Hb1).
    rewrite (streamOpenAI_streams engine world2 history newMessage provider
               Hkey Hurl response2 cs2 Hf2 Hok2 Hb2).
    unfold decoded. now rewrite Hcs.
  - apply (streamOpenAI_streams engine world1 history newMessage provider
             Hkey Hurl response1 cs1 Hf1 Hok1 Hb1).
  - intros cs cs' H. rewrite !read_loop_Done. unfold scan. now rewrite H.
Qed.

Lemma partial_line_buffering_witness :
  streamOpenAI sample_engine
    (http_world 200 [firstn 60 sse_body; skipn 60 sse_body]) []
    (lit "hello") sample_provider
  = streamOpenAI sample_engine (http_world 200 [sse_body]) []
      (lit "hello") sample_provider.
Proof.
  apply (partial_line_buffering sample_engine
           (http_world 200 [firstn 60 sse_body; skipn 60 sse_body])
           (http_world 200 [sse_body]) [] (lit "hello") sample_provider
           (mkResponse 200
              (Some (mkSource [firstn 60 sse_body; skipn 60 sse_body] Done)))
           (mkResponse 200 (Some (mkSource [sse_body] Done)))
           [firstn 60 sse_body; skipn 60 sse_body] [sse_body]);
    reflexivity.
Defined.

(* ------------------------------------------------------------------ *)
(** *** Malformed lines *)

Lemma onChunk_calls_app (a b : list event) :
  onChunk_calls (a ++ b) = onChunk_calls a ++ onChunk_calls b.
Proof.
  induction a as [|ev a IH]; [reflexivity|].
  destruct ev; cbn [app onChunk_calls]; rewrite IH; reflexivity.
Qed.

Lemma bind_inr {A B} (evs : list event) (a : A) (f : A -> M B) :
  bind (evs, inr a) f = (evs ++ fst (f a), snd (f a)).
Proof. unfold bind. destruct (f a); reflexivity. Qed.

Section Malformed.

Variable engine : Engine.
Variable line : jsstring.

Hypothesis Hdata : startsWith (trim line) (lit "data: ") = true.
Hypothesis Hbad : JSON.parse (replace (trim line) (lit "data: ") []) = None.

Lemma handle_line_malformed (fullText : jsstring) :
  exists evs,
    handle_line engine fullText line = (evs, inr fullText)
    /\ onChunk_calls evs = [].
Proof.
  unfold handle_line. rewrite Hdata. cbn [andb].
  destruct (str_eqb (trim line) (lit "data: [DONE]")); cbn [negb].
  - exists []. split; reflexivity.
  - unfold JSON_parse. rewrite Hbad.
    eexists. split; reflexivity.
Qed.

Lemma for_of_skips_malformed (before after : list jsstring)
    (fullText : jsstring) :
  outcome (for_of (before ++ line :: after) (handle_line engine) fullText)
  = outcome (for_of (before ++ after) (handle_line engine) fullText)
  /\ onChunk_calls
       (trace (for_of (before ++ line :: after) (handle_line engine) fullText))
     = onChunk_calls
         (trace (for_of (before ++ after) (handle_line engine) fullText)).
Proof.
  rewrite !for_of_app. cbn [for_of].
  destruct (for_of_handle_line_returns engine before fullText)
    as (evs1 & ft1 & ->).
  rewrite !bind_inr.
  destruct (handle_line_malformed ft1) as (evs & -> & Hevs).
  rewrite bind_inr.
  destruct (for_of_handle_line_returns engine after ft1) as (evs2 & ft2 & ->).
  unfold trace, outcome. cbn [fst snd].
  split; [reflexivity|].
  rewrite !onChunk_calls_app, Hevs. reflexivity.
Qed.

End Malformed.

(** C8: a line that starts with "data: " and whose remainder is not
    valid JSON throws nothing out of the loop and leaves the accumulated
    text as it was, without any [onChunk].  A body with such a line among
    its complete lines resolves, with the same value and the same [onChunk]
    invocations as the body without it: the lines after it are handled as
    usual. *)
Theorem malformed_data_line_is_skipped
    (engine : Engine) (world1 world2 : World) (history : list ChatMessage.t)
    (newMessage : jsstring) (provider : AIProvider.t)
    (response1 response2 : Response) (cs1 cs2 : list Utf8.bytes)
    (before after : list jsstring) (line : jsstring) :
  truthy_opt (apiKey provider) = true ->
  truthy_opt (baseUrl provider) = true ->
  fetch world1 (completions_url provider)
        (request_init history newMessage provider) = inr response1 ->
  ok response1 = true ->
  response_body response1 = Some (mkSource cs1 Done) ->
  fetch world2 (completions_url provider)
        (request_init history newMessage provider) = inr response2 ->
  ok response2 = true ->
  response_body response2 = Some (mkSource cs2 Done) ->
  startsWith (trim line) (lit "data: ") = true ->
  JSON.parse (replace (trim line) (lit "data: ") []) = None ->
  complete_lines (decoded cs1) = before ++ line :: after ->
  complete_lines (decoded cs2) = before ++ after ->
  let run1 := streamOpenAI engine world1 history newMessage provider in
  let run2 := streamOpenAI engine world2 history newMessage provider in
  (forall fullText,
      outcome (handle_line engine fullText line) = inr fullText
      /\ onChunk_calls (trace (handle_line engine fullText line)) = [])
  /\ (exists fullText, outcome run1 = inr fullText
                       /\ outcome run2 = inr fullText)
  /\ onChunk_calls (trace run1) = onChunk_calls (trace run2).
Proof.
  intros Hkey Hurl Hf1 Hok1 Hb1 Hf2 Hok2 Hb2 Hdata Hbad Hl1 Hl2 run1 run2.
  subst run1 run2.
  rewrite (streamOpenAI_streams engine world1 history newMessage provider
             Hkey Hurl response1 cs1 Hf1 Hok1 Hb1).
  rewrite (streamOpenAI_streams engine world2 history newMessage provider
             Hkey Hurl response2 cs2 Hf2 Hok2 Hb2).
  unfold scan. rewrite Hl1, Hl2.
  destruct (for_of_skips_malformed engine line Hdata Hbad before after [])
    as [Ho Hc].
  split; [|split].
  - intros fullText.
    destruct (handle_line_malformed engine line Hdata Hbad fullText)
      as (evs & -> & Hevs).
    split; [reflexivity | exact Hevs].
  - destruct (for_of_handle_line_returns engine (before ++ after) [])
      as (evs & ft & E).
    exists ft. cbn [outcome snd]. rewrite Ho, E. split; reflexivity.
  - cbn [trace fst onChunk_calls]. exact Hc.
Qed.

Lemma malformed_data_line_is_skipped_witness :
  let run1 := streamOpenAI sample_engine (http_world 200 [sse_with_malformed])
                [] (lit "hello") sample_provider in
  let run2 := streamOpenAI sample_engine
                (http_world 200 [sse_without_malformed])
                [] (lit "hello") sample_provider in
  (exists fullText, outcome run1 = inr fullText
                    /\ outcome run2 = inr fullText)
  /\ onChunk_calls (trace run1) = onChunk_calls (trace run2).
Proof.
  apply (malformed_data_line_is_skipped sample_engine
           (http_world 200 [sse_with_malformed])
           (http_world 200 [sse_without_malformed])
           [] (lit "hello") sample_provider
           (mkResponse 200 (Some (mkSource [sse_with_malformed] Done)))
           (mkResponse 200 (Some (mkSource [sse_without_malformed] Done)))
           [sse_with_malformed] [sse_without_malformed]
           [lit sse_Hi] [lit sse_there] (lit "data: {oops"));
    reflexivity.
Defined.

(* ================================================================== *)
(** ** Accumulation: what the loops add and report *)
(* ================================================================== *)

Lemma running_app (acc : jsstring) (ds es : list jsstring) :
  running acc (ds ++ es) = running acc ds ++ running (acc ++ concat ds) es.
Proof.
  revert acc; induction ds as [|d ds IH]; intros acc; cbn [app running concat].
  - now rewrite app_nil_r.
  - rewrite IH, app_assoc. reflexivity.
Qed.

Lemma running_length (acc : jsstring) (ds : list jsstring) :
  List.length (running acc ds) = List.length ds.
Proof.
  revert acc; induction ds as [|d ds IH]; intros acc; cbn; [reflexivity|].
  now rewrite IH.
Qed.

(** The [k]-th value is the start followed by the first [k + 1] texts. *)
Lemma running_nth (acc : jsstring) (ds : list jsstring) (k : nat) :
  k < List.length ds ->
  nth_error (running acc ds) k = Some (acc ++ concat (firstn (S k) ds)).
Proof.
  revert acc k; induction ds as [|d ds IH]; intros acc k Hk;
    [simpl in Hk; lia|].
  destruct k as [|k].
  - cbn. now rewrite app_nil_r.
  - cbn [running nth_error]. rewrite IH by (simpl in Hk; lia).
    cbn [firstn concat]. now rewrite app_assoc.
Qed.

Lemma last_default {A} (l : list A) (a b : A) :
  l <> [] -> last l a = last l b.
Proof.
  induction l as [|x l IH]; intros H; [congruence|].
  destruct l; [reflexivity|]. apply IH; discriminate.
Qed.

Lemma running_last (acc : jsstring) (ds : list jsstring) :
  last (running acc ds) acc = acc ++ concat ds.
Proof.
  revert acc; induction ds as [|d ds IH]; intros acc.
  - cbn. now rewrite app_nil_r.
  - cbn [running concat]. rewrite app_assoc, <- IH.
    destruct (running (acc ++ d) ds) as [|j l] eqn:E; [reflexivity|].
    change (last (j :: l) acc = last (j :: l) (acc ++ d)).
    apply last_default; discriminate.
Qed.

Lemma gemini_chunk_eq (responseText : jsstring) (c : GenerateContentResponse) :
  gemini_chunk responseText c
  = if truthy_opt (chunk_text c)
    then ([OnChunk (responseText ++ template (chunk_text c))],
          inr (responseText ++ template (chunk_text c)))
    else ([], inr responseText).
Proof.
  unfold gemini_chunk. destruct (truthy_opt (chunk_text c)); reflexivity.
Qed.

Lemma for_of_gemini_chunk (chunks : list GenerateContentResponse) :
  forall acc,
    for_of chunks gemini_chunk acc
    = (map OnChunk (running acc (chunk_texts chunks)),
       inr (acc ++ concat (chunk_texts chunks))).
Proof.
  induction chunks as [|c chunks IH]; intros acc.
  - cbn. now rewrite app_nil_r.
  - cbn [for_of]. rewrite gemini_chunk_eq. unfold chunk_texts.
    cbn [flat_map]. fold (chunk_texts chunks).
    destruct (truthy_opt (chunk_text c)).
    + rewrite bind_inr, IH. cbn [fst snd app running concat map].
      now rewrite app_assoc.
    + rewrite bind_inr, IH. reflexivity.
Qed.

Lemma handle_line_eq (engine : Engine) (fullText line : jsstring) :
  handle_line engine fullText line
  = match payload line with
    | None => ([], inr fullText)
    | Some text =>
        match delta engine text with
        | None => ([JSONParse text], inr fullText)
        | Some d => ([JSONParse text; OnChunk (fullText ++ d)],
                     inr (fullText ++ d))
        end
    end.
Proof.
  unfold handle_line, payload.
  destruct (_ && _); [|reflexivity].
  unfold delta, JSON_parse, delta_content.
  destruct (JSON.parse _) as [json|]; [|reflexivity].
  destruct json; try reflexivity;
    unfold try_catch, bind, emit, ret, to_primitive_string, throw; cbn;
    match goal with
    | |- context [Value.ToBoolean ?e ?c] => destruct (Value.ToBoolean e c)
    end; try reflexivity;
    match goal with
    | |- context [Value.ToString ?e ?c] => destruct (Value.ToString e c)
    end; reflexivity.
Qed.

Lemma for_of_handle_line (engine : Engine) (lines : list jsstring) :
  forall acc,
    onChunk_calls (trace (for_of lines (handle_line engine) acc))
      = running acc (line_deltas engine lines)
    /\ outcome (for_of lines (handle_line engine) acc)
       = inr (acc ++ concat (line_deltas engine lines))
    /\ Forall (fun ev => is_request ev = false)
              (trace (for_of lines (handle_line engine) acc))
    /\ parse_attempts (trace (for_of lines (handle_line engine) acc))
       = flat_map (fun l => match payload l with Some t => [t] | None => [] end)
                  lines.
Proof.
  induction lines as [|l lines IH]; intros acc.
  - cbn. rewrite app_nil_r. repeat split; constructor.
  - cbn [for_of]. rewrite handle_line_eq. unfold line_deltas.
    cbn [flat_map]. fold (line_deltas engine lines).
    destruct (payload l) as [text|].
    + destruct (delta engine text) as [d|]; rewrite bind_inr;
        unfold trace, outcome; cbn [fst snd].
      * destruct (IH (acc ++ d)) as (H1 & H2 & H3 & H4).
        unfold trace, outcome in *.
        cbn [app onChunk_calls running concat parse_attempts].
        rewrite H1, H2, H4, app_assoc.
        repeat split. repeat constructor. exact H3.
      * destruct (IH acc) as (G1 & G2 & G3 & G4).
        unfold trace, outcome in *.
        cbn [app onChunk_calls running concat parse_attempts].
        rewrite G1, G2, G4. repeat split. repeat constructor. exact G3.
    + rewrite bind_inr. unfold trace, outcome. cbn [fst snd app].
      apply IH.
Qed.

(* ================================================================== *)
(** ** Every outcome of a call *)
(* ================================================================== *)

Lemma read_loop_Failed (engine : Engine) (cs : list Utf8.bytes) (e : exn) :
  read_loop engine (mkSource cs (Failed e))
  = (trace (scan engine (decoded cs)), inl e).
Proof.
  unfold read_loop, for_await. cbn [items finish].
  fold initial_loop. rewrite reads_from_start.
  destruct (scan_returns engine (decoded cs)) as (evs & ft & ->).
  rewrite !bind_inr. cbn. now rewrite !app_nil_r.
Qed.

Lemma Response_text_silent (r : Response) : trace (Response_text r) = [].
Proof.
  unfold Response_text. destruct (response_body r) as [src|]; [|reflexivity].
  destruct (finish src); reflexivity.
Qed.

(** [streamOpenAI], case by case. *)
Lemma streamOpenAI_eq (engine : Engine) (world : World)
    (history : list ChatMessage.t) (newMessage : jsstring)
    (provider : AIProvider.t) :
  let url := completions_url provider in
  let init := request_init history newMessage provider in
  let logged e := ([Fetch url init; ConsoleError openai_label e], inl e) in
  streamOpenAI engine world history newMessage provider
  = if negb (truthy_opt (apiKey provider))
       || negb (truthy_opt (baseUrl provider))
    then ([], inl (Error (lit "API Key or Base URL missing for custom provider.")))
    else
      match fetch world url init with
      | inl e => logged e
      | inr response =>
          if ok response then
            match response_body response with
            | None => logged (Error (lit "No response body"))
            | Some reader =>
                match finish reader with
                | Done =>
                    (Fetch url init
                       :: trace (scan engine (decoded (items reader))),
                     outcome (scan engine (decoded (items reader))))
                | Failed e =>
                    (Fetch url init
                       :: trace (scan engine (decoded (items reader)))
                       ++ [ConsoleError openai_label e],
                     inl e)
                end
            end
          else
            match outcome (Response_text response) with
            | inl e => logged e
            | inr err =>
                logged (Error (lit "Provider Error ("
                               ++ of_N (status response) ++ lit "): " ++ err))
            end
      end.
Proof.
  intros url init logged. unfold streamOpenAI.
  destruct (_ || _); [reflexivity|].
  fold (completions_url provider). fold url. fold init.
  unfold try_catch, bind at 1 2 3, emit, await.
  destruct (fetch world url init) as [e|response]; [reflexivity|].
  destruct (ok response); cbn [negb].
  - destruct (response_body response) as [[cs fin]|]; [|reflexivity].
    cbn [items finish]. destruct fin as [|e].
    + rewrite read_loop_Done.
      destruct (scan_returns engine (decoded cs)) as (evs & ft & ->).
      reflexivity.
    + rewrite read_loop_Failed. reflexivity.
  - pose proof (Response_text_silent response) as Hs.
    destruct (Response_text response) as [evs [e|err]];
      unfold trace in Hs; cbn [fst] in Hs; subst evs; reflexivity.
Qed.

(** [streamGemini], case by case. *)
Lemma streamGemini_eq (world : World) (history : list ChatMessage.t)
    (newMessage : jsstring) (newImages : list jsstring)
    (modelName : jsstring) :
  let chat := chat_parameters history modelName in
  let message := outgoing_message (new_parts newMessage newImages) in
  streamGemini world history newMessage newImages modelName
  = if negb (truthy_opt (API_KEY world))
    then ([], inl (Error (lit "System API_KEY missing.")))
    else
      match sendMessageStream world chat message with
      | inl e =>
          ([SendMessageStream chat message; ConsoleError gemini_label e],
           inl e)
      | inr src =>
          let calls := map OnChunk (running [] (chunk_texts (items src))) in
          match finish src with
          | Done =>
              (SendMessageStream chat message :: calls,
               inr (concat (chunk_texts (items src))))
          | Failed e =>
              (SendMessageStream chat message :: calls
                 ++ [ConsoleError gemini_label e],
               inl e)
          end
      end.
Proof.
  intros chat message. unfold streamGemini, getGeminiClient.
  destruct (negb _); [reflexivity|].
  rewrite bind_ret_l. fold chat. fold message.
  unfold try_catch, bind at 1 2, emit, await.
  destruct (sendMessageStream world chat message) as [e|[chunks fin]];
    [reflexivity|].
  unfold for_await. cbn [items finish]. rewrite for_of_gemini_chunk.
  destruct fin as [|e]; rewrite bind_inr; cbn; now rewrite !app_nil_r.
Qed.

(** [generateImage], case by case. *)
Lemma generateImage_eq (world : World) (prompt : jsstring)
    (aspectRatio : option jsstring) :
  let params :=
    images_parameters prompt
      (match aspectRatio with Some a => a | None => lit "1:1" end) in
  let logged e := ([GenerateImages params; ConsoleError image_label e], inl e) in
  generateImage world prompt aspectRatio
  = if negb (truthy_opt (API_KEY world))
    then ([], inl (Error (lit "System API_KEY missing.")))
    else
      match generateImages world params with
      | inl e => logged e
      | inr response =>
          match first_imageBytes response with
          | Some (c :: b) =>
              ([GenerateImages params],
               inr (lit "data:image/jpeg;base64," ++ c :: b))
          | Some [] | None => logged (Error (lit "No image generated"))
          end
      end.
Proof.
  intros params logged. unfold generateImage, getGeminiClient.
  destruct (negb _); [reflexivity|].
  rewrite bind_ret_l. fold params.
  unfold try_catch, bind, emit, await.
  destruct (generateImages world params) as [e|response]; [reflexivity|].
  destruct (first_imageBytes response) as [[|c b]|]; reflexivity.
Qed.

(* ================================================================== *)
(** ** Properties of the adapters at large *)
(* ================================================================== *)

Lemma onChunk_calls_map (l : list jsstring) : onChunk_calls (map OnChunk l) = l.
Proof. induction l as [|a l IH]; cbn; [reflexivity | now rewrite IH]. Qed.

Lemma map_OnChunk_no_request (l : list jsstring) :
  Forall (fun ev => is_request ev = false) (map OnChunk l).
Proof. induction l; cbn; constructor; auto. Qed.

Lemma filter_none {A} (f : A -> bool) (l : list A) :
  Forall (fun a => f a = false) l -> filter f l = [].
Proof.
  induction 1 as [|a l Ha _ IH]; cbn; [reflexivity|]. now rewrite Ha.
Qed.

Lemma scan_no_request (engine : Engine) (t : jsstring) :
  Forall (fun ev => is_request ev = false) (trace (scan engine t)).
Proof. apply (for_of_handle_line engine (complete_lines t) []). Qed.

Lemma scan_calls (engine : Engine) (t : jsstring) :
  onChunk_calls (trace (scan engine t))
  = running [] (line_deltas engine (complete_lines t)).
Proof. apply (for_of_handle_line engine (complete_lines t) []). Qed.

Lemma scan_outcome (engine : Engine) (t : jsstring) :
  outcome (scan engine t)
  = inr (concat (line_deltas engine (complete_lines t))).
Proof. apply (for_of_handle_line engine (complete_lines t) []). Qed.

Lemma growing_running (acc : jsstring) (ds : list jsstring) :
  growing acc (running acc ds) = true.
Proof.
  revert acc; induction ds as [|d ds IH]; intros acc; cbn; [reflexivity|].
  now rewrite startsWith_app, IH.
Qed.

Lemma Forall_app_intro {A} (P : A -> Prop) (l l' : list A) :
  Forall P l -> Forall P l' -> Forall P (l ++ l').
Proof. intros; apply Forall_app; split; assumption. Qed.

(** The events of a call of [streamOpenAI]: at most the one [fetch], first,
    and no call of the SDK. *)
Lemma streamOpenAI_requests (engine : Engine) (world : World)
    (history : list ChatMessage.t) (newMessage : jsstring)
    (provider : AIProvider.t) :
  let run := streamOpenAI engine world history newMessage provider in
  Forall (fun ev => is_sdk ev = false) (trace run)
  /\ (filter is_request (trace run) = []
      \/ filter is_request (trace run)
         = [Fetch (completions_url provider)
                  (request_init history newMessage provider)]).
Proof.
  intros run. subst run. rewrite streamOpenAI_eq.
  assert (Hsdk : forall l, Forall (fun ev => is_request ev = false) l ->
                           Forall (fun ev => is_sdk ev = false) l).
  { intros l H. eapply Forall_impl; [|exact H].
    intros [] Hev; cbn in *; congruence. }
  destruct (_ || _); [split; [constructor | left; reflexivity]|].
  destruct (fetch world _ _) as [e|response];
    [split; [repeat constructor | right; reflexivity]|].
  destruct (ok response).
  - destruct (response_body response) as [[cs fin]|];
      [|split; [repeat constructor | right; reflexivity]].
    cbn [items finish]. pose proof (scan_no_request engine (decoded cs)) as Hn.
    destruct fin as [|e]; unfold trace at 1 2 3; cbn [fst].
    + split; [constructor; [reflexivity | apply Hsdk, Hn]|].
      right. cbn. now rewrite (filter_none _ _ Hn).
    + split.
      * constructor; [reflexivity|].
        apply Forall_app_intro; [apply Hsdk, Hn | repeat constructor].
      * right. cbn. rewrite filter_app, (filter_none _ _ Hn). reflexivity.
  - destruct (outcome (Response_text response));
      (split; [repeat constructor | right; reflexivity]).
Qed.

(** The events of a call of [streamGemini]: at most the one SDK call,
    first, and no [fetch]. *)
Lemma streamGemini_requests (world : World) (history : list ChatMessage.t)
    (newMessage : jsstring) (newImages : list jsstring)
    (modelName : jsstring) :
  let run := streamGemini world history newMessage newImages modelName in
  Forall (fun ev => is_fetch ev = false) (trace run)
  /\ (filter is_request (trace run) = []
      \/ filter is_request (trace run)
         = [SendMessageStream (chat_parameters history modelName)
              (outgoing_message (new_parts newMessage newImages))]).
Proof.
  intros run. subst run. rewrite streamGemini_eq.
  assert (Hf : forall l, Forall (fun ev => is_request ev = false) l ->
                         Forall (fun ev => is_fetch ev = false) l).
  { intros l H. eapply Forall_impl; [|exact H].
    intros [] Hev; cbn in *; congruence. }
  destruct (negb _); [split; [constructor | left; reflexivity]|].
  destruct (sendMessageStream world _ _) as [e|[chunks fin]];
    [split; [repeat constructor | right; reflexivity]|].
  cbn [items finish].
  pose proof (map_OnChunk_no_request (running [] (chunk_texts chunks))) as Hn.
  destruct fin as [|e]; unfold trace; cbn [fst].
  - split; [constructor; [reflexivity | apply Hf, Hn]|].
    right. cbn. now rewrite (filter_none _ _ Hn).
  - split.
    + constructor; [reflexivity|].
      apply Forall_app_intro; [apply Hf, Hn | repeat constructor].
    + right. cbn. rewrite filter_app, (filter_none _ _ Hn). reflexivity.
Qed.

(** X1: the facade keeps to the backend of the provider's type: a call
    for a provider of type gemini never performs a [fetch], a call for a
    provider of type openai never calls the SDK, whatever the environment
    answers. *)
Theorem dispatch_keeps_to_one_backend
    (engine : Engine) (world : World) (history : list ChatMessage.t)
    (newMessage : jsstring) (newImages : list jsstring)
    (provider : AIProvider.t) :
  let run := streamChatResponse engine world history newMessage newImages
               provider in
  match type provider with
  | gemini => Forall (fun ev => is_fetch ev = false) (trace run)
  | openai => Forall (fun ev => is_sdk ev = false) (trace run)
  end.
Proof.
  intros run. subst run. unfold streamChatResponse.
  destruct (type provider).
  - apply streamGemini_requests.
  - apply streamOpenAI_requests.
Qed.

(** X2: no call retries: a chat call and an image call each perform at
    most one request (SDK call or [fetch]), whether it succeeds, fails or
    its stream breaks off. *)
Theorem at_most_one_request_per_call
    (engine : Engine) (world : World) (history : list ChatMessage.t)
    (newMessage : jsstring) (newImages : list jsstring)
    (provider : AIProvider.t) (prompt : jsstring)
    (aspectRatio : option jsstring) :
  List.length
    (filter is_request
       (trace (streamChatResponse engine world history newMessage newImages
                 provider))) <= 1
  /\ List.length
       (filter is_request (trace (generateImage world prompt aspectRatio)))
     <= 1.
Proof.
  split.
  - unfold streamChatResponse. destruct (type provider).
    + destruct (streamGemini_requests world history newMessage newImages
                  (modelId provider)) as [_ [-> | ->]]; cbn; lia.
    + destruct (streamOpenAI_requests engine world history newMessage provider)
        as [_ [-> | ->]]; cbn; lia.
  - rewrite generateImage_eq. destruct (negb _); [cbn; lia|].
    destruct (generateImages world _) as [e|response]; [cbn; lia|].
    destruct (first_imageBytes response) as [[|c b]|]; cbn; lia.
Qed.

(** X3: without the system key in the environment, a chat call for a
    provider of type gemini and an image call fail with the error "System
    API_KEY missing." and perform no event at all, whatever key the provider
    itself carries. *)
Theorem missing_system_key_fails_first
    (engine : Engine) (world : World) (history : list ChatMessage.t)
    (newMessage : jsstring) (newImages : list jsstring)
    (provider : AIProvider.t) (prompt : jsstring)
    (aspectRatio : option jsstring) :
  API_KEY world = None \/ API_KEY world = Some [] ->
  type provider = gemini ->
  streamChatResponse engine world history newMessage newImages provider
    = ([], inl (Error (lit "System API_KEY missing.")))
  /\ generateImage world prompt aspectRatio
     = ([], inl (Error (lit "System API_KEY missing."))).
Proof.
  intros Hkey Htype.
  assert (E : negb (truthy_opt (API_KEY world)) = true)
    by (destruct Hkey as [-> | ->]; reflexivity).
  unfold streamChatResponse. rewrite Htype, streamGemini_eq, generateImage_eq, E.
  split; reflexivity.
Qed.

Lemma missing_system_key_fails_first_witness :
  streamChatResponse sample_engine (http_world 200 [sse_body]) []
      (lit "hello") []
      (AIProvider.mk (lit "gemini-flash") (lit "Gemini") gemini None
         (Some (lit "user-key")) ModelName.FLASH (Some true))
    = ([], inl (Error (lit "System API_KEY missing.")))
  /\ generateImage (http_world 200 [sse_body]) (lit "a cat") None
     = ([], inl (Error (lit "System API_KEY missing."))).
Proof.
  apply missing_system_key_fails_first; [left|]; reflexivity.
Defined.

(** X4: when the SDK stream ends normally, [streamGemini] invokes
    [onChunk] once per chunk that carries a non-empty text, the [k]-th time
    with the concatenation of the first [k + 1] such texts, and resolves
    with the concatenation of all of them; chunks without text change
    nothing. *)
Theorem streamGemini_reports_running_concatenation
    (world : World) (history : list ChatMessage.t) (newMessage : jsstring)
    (newImages : list jsstring) (modelName : jsstring)
    (chunks : list GenerateContentResponse) :
  truthy_opt (API_KEY world) = true ->
  sendMessageStream world (chat_parameters history modelName)
      (outgoing_message (new_parts newMessage newImages))
    = inr (mkSource chunks Done) ->
  let run := streamGemini world history newMessage newImages modelName in
  let texts := chunk_texts chunks in
  List.length (onChunk_calls (trace run)) = List.length texts
  /\ (forall k, k < List.length texts ->
        nth_error (onChunk_calls (trace run)) k
        = Some (concat (firstn (S k) texts)))
  /\ outcome run = inr (concat texts).
Proof.
  intros Hkey Hs run texts. subst run texts.
  rewrite streamGemini_eq, Hkey, Hs. cbn [negb items finish trace outcome fst snd].
  cbn [onChunk_calls]. rewrite onChunk_calls_map.
  split; [apply running_length|]. split; [|reflexivity].
  intros k Hk. now rewrite running_nth.
Qed.

Lemma streamGemini_reports_running_concatenation_witness :
  let chunks := [mkChunk (Some (lit "a")); mkChunk None;
                 mkChunk (Some []); mkChunk (Some (lit "bc"))] in
  let run := streamGemini
               (constant_world (Some (lit "system-key"))
                  (inr (mkSource chunks Done)) (inl unreachable)
                  (inl unreachable))
               [] (lit "hello") [] ModelName.FLASH in
  List.length (onChunk_calls (trace run)) = 2
  /\ (forall k, k < 2 ->
        nth_error (onChunk_calls (trace run)) k
        = Some (concat (firstn (S k) [lit "a"; lit "bc"])))
  /\ outcome run = inr (lit "abc").
Proof.
  intros chunks.
  apply (streamGemini_reports_running_concatenation
           (constant_world (Some (lit "system-key"))
              (inr (mkSource chunks Done)) (inl unreachable)
              (inl unreachable))
           [] (lit "hello") [] ModelName.FLASH chunks);
    reflexivity.
Defined.

(** The [onChunk] arguments and the settlement of [streamOpenAI] in terms
    of what its lines add. *)
Lemma streamOpenAI_reports (engine : Engine) (world : World)
    (history : list ChatMessage.t) (newMessage : jsstring)
    (provider : AIProvider.t) :
  let run := streamOpenAI engine world history newMessage provider in
  exists ds,
    onChunk_calls (trace run) = running [] ds
    /\ match outcome run with
       | inr final => final = concat ds
       | inl _ => True
       end.
Proof.
  intros run. subst run. rewrite streamOpenAI_eq.
  destruct (_ || _); [exists []; split; exact I || reflexivity|].
  destruct (fetch world _ _) as [e|response];
    [exists []; split; exact I || reflexivity|].
  destruct (ok response).
  - destruct (response_body response) as [[cs fin]|];
      [|exists []; split; exact I || reflexivity].
    cbn [items finish].
    exists (line_deltas engine (complete_lines (decoded cs))).
    destruct fin as [|e]; unfold trace at 1, outcome at 1; cbn [fst snd].
    + cbn [onChunk_calls]. rewrite scan_calls, scan_outcome.
      split; reflexivity.
    + cbn [onChunk_calls]. rewrite onChunk_calls_app, scan_calls.
      cbn. rewrite app_nil_r. split; [reflexivity | exact I].
  - destruct (outcome (Response_text response));
      (exists []; split; exact I || reflexivity).
Qed.

Lemma streamGemini_reports (world : World) (history : list ChatMessage.t)
    (newMessage : jsstring) (newImages : list jsstring)
    (modelName : jsstring) :
  let run := streamGemini world history newMessage newImages modelName in
  exists ds,
    onChunk_calls (trace run) = running [] ds
    /\ match outcome run with
       | inr final => final = concat ds
       | inl _ => True
       end.
Proof.
  intros run. subst run. rewrite streamGemini_eq.
  destruct (negb _); [exists []; split; exact I || reflexivity|].
  destruct (sendMessageStream world _ _) as [e|[chunks fin]];
    [exists []; split; exact I || reflexivity|].
  cbn [items finish]. exists (chunk_texts chunks).
  destruct fin as [|e]; unfold trace, outcome; cbn [fst snd onChunk_calls].
  - rewrite onChunk_calls_map. split; reflexivity.
  - rewrite onChunk_calls_app, onChunk_calls_map. cbn. rewrite app_nil_r.
    split; [reflexivity | exact I].
Qed.

Lemma streamChatResponse_reports (engine : Engine) (world : World)
    (history : list ChatMessage.t) (newMessage : jsstring)
    (newImages : list jsstring) (provider : AIProvider.t) :
  let run := streamChatResponse engine world history newMessage newImages
               provider in
  exists ds,
    onChunk_calls (trace run) = running [] ds
    /\ match outcome run with
       | inr final => final = concat ds
       | inl _ => True
       end.
Proof.
  unfold streamChatResponse. destruct (type provider);
    [apply streamGemini_reports | apply streamOpenAI_reports].
Qed.

(** X5: in every chat call, whatever the environment answers, each
    [onChunk] argument starts with the argument of the invocation before
    it, so the reported text only grows; and when the call resolves, its
    value is the argument of the last invocation (the empty string when
    there was none). *)
Theorem reported_text_grows_up_to_the_result
    (engine : Engine) (world : World) (history : list ChatMessage.t)
    (newMessage : jsstring) (newImages : list jsstring)
    (provider : AIProvider.t) :
  let run := streamChatResponse engine world history newMessage newImages
               provider in
  growing [] (onChunk_calls (trace run)) = true
  /\ match outcome run with
     | inr final => final = last (onChunk_calls (trace run)) []
     | inl _ => True
     end.
Proof.
  intros run.
  destruct (streamChatResponse_reports engine world history newMessage
              newImages provider) as (ds & Hc & Ho).
  fold run in Hc, Ho. rewrite Hc. split; [apply growing_running|].
  destruct (outcome run); [exact I|]. now rewrite running_last.
Qed.

(** X6: when the stream of the SDK breaks off with an error after some
    chunks, [onChunk] has been invoked for these chunks as usual, then the
    error is logged once and the call rejects with that same error: the
    text accumulated so far is not returned. *)
Theorem broken_sdk_stream_rejects
    (world : World) (history : list ChatMessage.t) (newMessage : jsstring)
    (newImages : list jsstring) (modelName : jsstring)
    (chunks : list GenerateContentResponse) (e : exn) :
  truthy_opt (API_KEY world) = true ->
  sendMessageStream world (chat_parameters history modelName)
      (outgoing_message (new_parts newMessage newImages))
    = inr (mkSource chunks (Failed e)) ->
  let run := streamGemini world history newMessage newImages modelName in
  outcome run = inl e
  /\ onChunk_calls (trace run) = running [] (chunk_texts chunks)
  /\ filter (fun ev => negb (is_onChunk ev)) (trace run)
     = [SendMessageStream (chat_parameters history modelName)
          (outgoing_message (new_parts newMessage newImages));
        ConsoleError gemini_label e]
  /\ last (trace run) (OnChunk []) = ConsoleError gemini_label e.
Proof.
  intros Hkey Hs run. subst run.
  rewrite streamGemini_eq, Hkey, Hs.
  cbn [negb items finish trace outcome fst snd].
  split; [reflexivity|]. split; [|split].
  - cbn [onChunk_calls]. rewrite onChunk_calls_app, onChunk_calls_map.
    cbn. now rewrite app_nil_r.
  - cbn [filter is_onChunk negb]. rewrite filter_app.
    rewrite (filter_none (fun ev => negb (is_onChunk ev))); [reflexivity|].
    induction (running [] (chunk_texts chunks)); cbn; constructor; auto.
  - rewrite app_comm_cons. apply last_last.
Qed.

Lemma broken_sdk_stream_rejects_witness :
  let chunks := [mkChunk (Some (lit "par")); mkChunk (Some (lit "tial"))] in
  let run := streamGemini
               (constant_world (Some (lit "system-key"))
                  (inr (mkSource chunks (Failed (Error (lit "reset")))))
                  (inl unreachable) (inl unreachable))
               [] (lit "hello") [] ModelName.FLASH in
  outcome run = inl (Error (lit "reset"))
  /\ onChunk_calls (trace run) = [lit "par"; lit "partial"].
Proof.
  intros chunks.
  destruct (broken_sdk_stream_rejects
              (constant_world (Some (lit "system-key"))
                 (inr (mkSource chunks (Failed (Error (lit "reset")))))
                 (inl unreachable) (inl unreachable))
              [] (lit "hello") [] ModelName.FLASH chunks (Error (lit "reset"))
              eq_refl eq_refl) as (H1 & H2 & _).
  split; [exact H1 | exact H2].
Defined.

(** X7: when the body of a success response breaks off with an error,
    the complete lines read so far have been handled as usual, then the
    error is logged once and the call rejects with that same error. *)
Theorem broken_body_rejects
    (engine : Engine) (world : World) (history : list ChatMessage.t)
    (newMessage : jsstring) (provider : AIProvider.t)
    (response : Response) (cs : list Utf8.bytes) (e : exn) :
  truthy_opt (apiKey provider) = true ->
  truthy_opt (baseUrl provider) = true ->
  fetch world (completions_url provider)
        (request_init history newMessage provider) = inr response ->
  ok response = true ->
  response_body response = Some (mkSource cs (Failed e)) ->
  let run := streamOpenAI engine world history newMessage provider in
  outcome run = inl e
  /\ onChunk_calls (trace run)
     = running [] (line_deltas engine (complete_lines (decoded cs)))
  /\ trace run
     = Fetch (completions_url provider)
             (request_init history newMessage provider)
       :: trace (scan engine (decoded cs)) ++ [ConsoleError openai_label e].
Proof.
  intros Hkey Hurl Hf Hok Hb run. subst run.
  rewrite streamOpenAI_eq, Hkey, Hurl, Hf, Hok, Hb.
  cbn [negb orb items finish trace outcome fst snd].
  split; [reflexivity|]. split; [|reflexivity].
  cbn [onChunk_calls]. rewrite onChunk_calls_app.
  fold (trace (scan engine (decoded cs))). rewrite scan_calls.
  cbn. now rewrite app_nil_r.
Qed.

Lemma broken_body_rejects_witness :
  let world :=
    constant_world None (inl unreachable) (inl unreachable)
      (inr (mkResponse 200
              (Some (mkSource [sse_objects; firstn 60 sse_body]
                              (Failed (Error (lit "reset"))))))) in
  let run := streamOpenAI sample_engine world [] (lit "hello")
               sample_provider in
  outcome run = inl (Error (lit "reset"))
  /\ onChunk_calls (trace run)
     = [lit "Hi"; lit "Hi[object Object]"; lit "Hi[object Object] there";
        lit "Hi[object Object] thereHi"].
Proof.
  intros world.
  destruct (broken_body_rejects sample_engine world [] (lit "hello")
              sample_provider
              (mkResponse 200
                 (Some (mkSource [sse_objects; firstn 60 sse_body]
                                 (Failed (Error (lit "reset"))))))
              [sse_objects; firstn 60 sse_body] (Error (lit "reset"))
              eq_refl eq_refl eq_refl eq_refl eq_refl) as (H1 & H2 & _).
  split; [exact H1 | exact H2].
Defined.

(** X8: a request that the environment rejects is logged once and the
    call rejects with the error of the environment unchanged; nothing else
    happens, and [onChunk] is not invoked.  This holds for each of the three
    requests by itself, whatever the environment answers to the other two:
    the [fetch] of [streamOpenAI], the SDK chat call of [streamGemini], the
    SDK image call of [generateImage]. *)
Theorem rejected_request_is_rethrown
    (engine : Engine) (world : World) (history : list ChatMessage.t)
    (newMessage : jsstring) (newImages : list jsstring)
    (provider : AIProvider.t) (modelName prompt aspectRatio : jsstring) :
  (forall e,
      truthy_opt (apiKey provider) = true ->
      truthy_opt (baseUrl provider) = true ->
      fetch world (completions_url provider)
            (request_init history newMessage provider) = inl e ->
      streamOpenAI engine world history newMessage provider
      = ([Fetch (completions_url provider)
                (request_init history newMessage provider);
          ConsoleError (lit "OpenAI/Custom Chat Error:") e], inl e))
  /\ (forall e,
         truthy_opt (API_KEY world) = true ->
         sendMessageStream world (chat_parameters history modelName)
           (outgoing_message (new_parts newMessage newImages)) = inl e ->
         streamGemini world history newMessage newImages modelName
         = ([SendMessageStream (chat_parameters history modelName)
               (outgoing_message (new_parts newMessage newImages));
             ConsoleError (lit "Gemini Chat Error:") e], inl e))
  /\ (forall e,
         truthy_opt (API_KEY world) = true ->
         generateImages world (images_parameters prompt aspectRatio) = inl e ->
         generateImage world prompt (Some aspectRatio)
         = ([GenerateImages (images_parameters prompt aspectRatio);
             ConsoleError (lit "Image Gen Error:") e], inl e)).
Proof.
  split; [|split].
  - intros e Hkey Hurl Hf. now rewrite streamOpenAI_eq, Hkey, Hurl, Hf.
  - intros e Hsys Hc. now rewrite streamGemini_eq, Hsys, Hc.
  - intros e Hsys Hi. now rewrite generateImage_eq, Hsys, Hi.
Qed.

Lemma rejected_request_is_rethrown_witness :
  let image := mkImagesResponse
                 (Some [mkGenerated (Some (mkImage (Some (lit "QUJD"))))]) in
  let stream := mkSource [chunk_of "Hi"] Done in
  let page := mkResponse 200 (Some (mkSource [sse_body] Done)) in
  let key := Some (lit "system-key") in
  let no_fetch :=
    constant_world key (inr stream) (inr image) (inl (Error (lit "offline"))) in
  let no_chat :=
    constant_world key (inl (Error (lit "chat down"))) (inr image) (inr page) in
  let no_image :=
    constant_world key (inr stream) (inl (Error (lit "image down"))) (inr page) in
  streamOpenAI sample_engine no_fetch [] (lit "hello") sample_provider
    = ([Fetch (lit "https://api.deepseek.com/chat/completions")
              (request_init [] (lit "hello") sample_provider);
        ConsoleError (lit "OpenAI/Custom Chat Error:") (Error (lit "offline"))],
       inl (Error (lit "offline")))
  /\ streamGemini no_chat [] (lit "hello") [] ModelName.FLASH
     = ([SendMessageStream (chat_parameters [] ModelName.FLASH)
           (MessageString (lit "hello"));
         ConsoleError (lit "Gemini Chat Error:") (Error (lit "chat down"))],
        inl (Error (lit "chat down")))
  /\ generateImage no_image (lit "a cat") (Some (lit "1:1"))
     = ([GenerateImages (images_parameters (lit "a cat") (lit "1:1"));
         ConsoleError (lit "Image Gen Error:") (Error (lit "image down"))],
        inl (Error (lit "image down"))).
Proof.
  intros image stream page key no_fetch no_chat no_image.
  split; [|split].
  - exact (proj1 (rejected_request_is_rethrown sample_engine no_fetch []
                    (lit "hello") [] sample_provider ModelName.FLASH
                    (lit "a cat") (lit "1:1"))
             (Error (lit "offline")) eq_refl eq_refl eq_refl).
  - exact (proj1 (proj2 (rejected_request_is_rethrown sample_engine no_chat []
                           (lit "hello") [] sample_provider ModelName.FLASH
                           (lit "a cat") (lit "1:1")))
             (Error (lit "chat down")) eq_refl eq_refl).
  - exact (proj2 (proj2 (rejected_request_is_rethrown sample_engine no_image []
                           (lit "hello") [] sample_provider ModelName.FLASH
                           (lit "a cat") (lit "1:1")))
             (Error (lit "image down")) eq_refl eq_refl).
Defined.

(** X9: a success response without a body makes [streamOpenAI] fail with
    the error "No response body", after the [fetch] and without any
    [onChunk]. *)
Theorem null_body_fails
    (engine : Engine) (world : World) (history : list ChatMessage.t)
    (newMessage : jsstring) (provider : AIProvider.t) (response : Response) :
  truthy_opt (apiKey provider) = true ->
  truthy_opt (baseUrl provider) = true ->
  fetch world (completions_url provider)
        (request_init history newMessage provider) = inr response ->
  ok response = true ->
  response_body response = None ->
  let run := streamOpenAI engine world history newMessage provider in
  outcome run = inl (Error (lit "No response body"))
  /\ onChunk_calls (trace run) = []
  /\ filter is_request (trace run)
     = [Fetch (completions_url provider)
              (request_init history newMessage provider)].
Proof.
  intros Hkey Hurl Hf Hok Hb run. subst run.
  rewrite streamOpenAI_eq, Hkey, Hurl, Hf, Hok, Hb. repeat split.
Qed.

Lemma null_body_fails_witness :
  let world :=
    constant_world None (inl unreachable) (inl unreachable)
      (inr (mkResponse 204 None)) in
  let run := streamOpenAI sample_engine world [] (lit "hello")
               sample_provider in
  outcome run = inl (Error (lit "No response body"))
  /\ onChunk_calls (trace run) = []
  /\ filter is_request (trace run)
     = [Fetch (completions_url sample_provider)
              (request_init [] (lit "hello") sample_provider)].
Proof.
  intros world.
  apply (null_body_fails sample_engine world [] (lit "hello") sample_provider
           (mkResponse 204 None));
    reflexivity.
Defined.

(** X10: when a success response ends normally, [streamOpenAI] hands to
    [JSON.parse] exactly the payloads of the complete lines that start with
    "data: " and are not the [DONE] line, invokes [onChunk] once per payload
    that adds text, the [k]-th time with the concatenation of the first
    [k + 1] added texts, and resolves with the concatenation of all of
    them. *)
Theorem streamOpenAI_reports_running_concatenation
    (engine : Engine) (world : World) (history : list ChatMessage.t)
    (newMessage : jsstring) (provider : AIProvider.t)
    (response : Response) (cs : list Utf8.bytes) :
  truthy_opt (apiKey provider) = true ->
  truthy_opt (baseUrl provider) = true ->
  fetch world (completions_url provider)
        (request_init history newMessage provider) = inr response ->
  ok response = true ->
  response_body response = Some (mkSource cs Done) ->
  let run := streamOpenAI engine world history newMessage provider in
  let lines := complete_lines (decoded cs) in
  let ds := line_deltas engine lines in
  parse_attempts (trace run)
    = flat_map (fun l => match payload l with Some t => [t] | None => [] end)
               lines
  /\ List.length (onChunk_calls (trace run)) = List.length ds
  /\ (forall k, k < List.length ds ->
        nth_error (onChunk_calls (trace run)) k
        = Some (concat (firstn (S k) ds)))
  /\ outcome run = inr (concat ds).
Proof.
  intros Hkey Hurl Hf Hok Hb run lines ds. subst run lines ds.
  rewrite (streamOpenAI_streams engine world history newMessage provider
             Hkey Hurl response cs Hf Hok Hb).
  destruct (for_of_handle_line engine (complete_lines (decoded cs)) [])
    as (Hc & Ho & _ & Hp).
  unfold scan, trace, outcome in *.
  cbn [fst snd parse_attempts onChunk_calls]. rewrite Hc, Ho, Hp.
  split; [reflexivity|].
  split; [apply running_length|]. split; [|reflexivity].
  intros k Hk. now rewrite running_nth.
Qed.

Lemma streamOpenAI_reports_running_concatenation_witness :
  let run := streamOpenAI sample_engine (http_world 200 [sse_objects]) []
               (lit "hello") sample_provider in
  parse_attempts (trace run)
    = [json_Hi; json_own_toString; json_plain_object; json_there]
  /\ List.length (onChunk_calls (trace run)) = 3
  /\ nth_error (onChunk_calls (trace run)) 0 = Some (lit "Hi")
  /\ nth_error (onChunk_calls (trace run)) 1 = Some (lit "Hi[object Object]")
  /\ nth_error (onChunk_calls (trace run)) 2
     = Some (lit "Hi[object Object] there")
  /\ outcome run = inr (lit "Hi[object Object] there").
Proof.
  destruct (streamOpenAI_reports_running_concatenation sample_engine
              (http_world 200 [sse_objects]) [] (lit "hello") sample_provider
              (mkResponse 200 (Some (mkSource [sse_objects] Done)))
              [sse_objects]
              eq_refl eq_refl eq_refl eq_refl eq_refl) as (H1 & H2 & H3 & H4).
  assert (L : forall k, k < 3 ->
                k < List.length
                      (line_deltas sample_engine
                         (complete_lines (decoded [sse_objects]))))
    by (intros k Hk; vm_compute; lia).
  split; [exact H1|]. split; [exact H2|].
  split; [exact (H3 0 (L 0 ltac:(lia)))|].
  split; [exact (H3 1 (L 1 ltac:(lia)))|].
  split; [exact (H3 2 (L 2 ltac:(lia)))|exact H4].
Defined.

Lemma for_of_filter_payload (engine : Engine) (lines : list jsstring) :
  forall acc,
    for_of lines (handle_line engine) acc
    = for_of (filter has_payload lines) (handle_line engine) acc.
Proof.
  induction lines as [|l lines IH]; intros acc; [reflexivity|].
  cbn [for_of filter]. unfold has_payload at 1.
  destruct (payload l) as [t|] eqn:E.
  - cbn [for_of]. apply bind_ext. exact IH.
  - rewrite handle_line_eq, E, bind_inr. cbn [app]. rewrite <- IH.
    destruct (for_of lines (handle_line engine) acc); reflexivity.
Qed.

(** X11: the complete lines that do not start with "data: " after
    trimming (blank lines, comments, other fields, "data:" without the
    space) and the [DONE] line leave no trace: a body with such lines runs
    exactly like the body without them.  In particular the loop does not
    stop at the [DONE] line: the data lines after it are handled. *)
Theorem lines_without_payload_leave_no_trace
    (engine : Engine) (world1 world2 : World) (history : list ChatMessage.t)
    (newMessage : jsstring) (provider : AIProvider.t)
    (response1 response2 : Response) (cs1 cs2 : list Utf8.bytes) :
  truthy_opt (apiKey provider) = true ->
  truthy_opt (baseUrl provider) = true ->
  fetch world1 (completions_url provider)
        (request_init history newMessage provider) = inr response1 ->
  ok response1 = true ->
  response_body response1 = Some (mkSource cs1 Done) ->
  fetch world2 (completions_url provider)
        (request_init history newMessage provider) = inr response2 ->
  ok response2 = true ->
  response_body response2 = Some (mkSource cs2 Done) ->
  complete_lines (decoded cs2)
    = filter has_payload (complete_lines (decoded cs1)) ->
  streamOpenAI engine world1 history newMessage provider
  = streamOpenAI engine world2 history newMessage provider.
Proof.
  intros Hkey Hurl Hf1 Hok1 Hb1 Hf2 Hok2 Hb2 Hl.
  rewrite (streamOpenAI_streams engine world1 history newMessage provider
             Hkey Hurl response1 cs1 Hf1 Hok1 Hb1).
  rewrite (streamOpenAI_streams engine world2 history newMessage provider
             Hkey Hurl response2 cs2 Hf2 Hok2 Hb2).
  unfold scan. rewrite Hl, <- for_of_filter_payload. reflexivity.
Qed.

Lemma lines_without_payload_leave_no_trace_witness :
  streamOpenAI sample_engine (http_world 200 [sse_noisy]) [] (lit "hello")
    sample_provider
  = streamOpenAI sample_engine (http_world 200 [sse_quiet]) [] (lit "hello")
      sample_provider.
Proof.
  apply (lines_without_payload_leave_no_trace sample_engine
           (http_world 200 [sse_noisy]) (http_world 200 [sse_quiet])
           [] (lit "hello") sample_provider
           (mkResponse 200 (Some (mkSource [sse_noisy] Done)))
           (mkResponse 200 (Some (mkSource [sse_quiet] Done)))
           [sse_noisy] [sse_quiet]);
    reflexivity.
Defined.

Lemma trimStart_snoc (l : jsstring) (w : code_unit) :
  is_white_space w = true ->
  trimStart (l ++ [w])
  = match trimStart l with [] => [] | x :: r => (x :: r) ++ [w] end.
Proof.
  intros Hw. induction l as [|c l IH]; cbn [app trimStart].
  - now rewrite Hw.
  - destruct (is_white_space c); [exact IH | reflexivity].
Qed.

Lemma trimEnd_snoc (l : jsstring) (w : code_unit) :
  is_white_space w = true -> trimEnd (l ++ [w]) = trimEnd l.
Proof.
  intros Hw. unfold trimEnd. rewrite rev_app_distr. cbn [rev app trimStart].
  now rewrite Hw.
Qed.

(** White space at the end of a line does not count. *)
Lemma trim_snoc (l : jsstring) (w : code_unit) :
  is_white_space w = true -> trim (l ++ [w]) = trim l.
Proof.
  intros Hw. unfold trim. rewrite (trimStart_snoc l w Hw).
  destruct (trimStart l) as [|x r]; [reflexivity|].
  apply trimEnd_snoc, Hw.
Qed.

Lemma handle_line_trim (engine : Engine) (acc a b : jsstring) :
  trim a = trim b -> handle_line engine acc a = handle_line engine acc b.
Proof.
  intros H. rewrite !handle_line_eq. unfold payload. now rewrite H.
Qed.

Lemma for_of_CR (engine : Engine) (lines : list jsstring) :
  forall acc,
    for_of (map (fun l => l ++ [13%N]) lines) (handle_line engine) acc
    = for_of lines (handle_line engine) acc.
Proof.
  induction lines as [|l lines IH]; intros acc; [reflexivity|].
  cbn [map for_of]. cbn beta.
  rewrite (handle_line_trim engine acc _ l)
    by (apply trim_snoc; reflexivity).
  apply bind_ext. exact IH.
Qed.

(** X12: line ends do not matter: a body whose lines end with a carriage
    return and a line feed runs exactly like the body whose lines end with
    the line feed alone. *)
Theorem carriage_returns_do_not_matter
    (engine : Engine) (world1 world2 : World) (history : list ChatMessage.t)
    (newMessage : jsstring) (provider : AIProvider.t)
    (response1 response2 : Response) (cs1 cs2 : list Utf8.bytes) :
  truthy_opt (apiKey provider) = true ->
  truthy_opt (baseUrl provider) = true ->
  fetch world1 (completions_url provider)
        (request_init history newMessage provider) = inr response1 ->
  ok response1 = true ->
  response_body response1 = Some (mkSource cs1 Done) ->
  fetch world2 (completions_url provider)
        (request_init history newMessage provider) = inr response2 ->
  ok response2 = true ->
  response_body response2 = Some (mkSource cs2 Done) ->
  complete_lines (decoded cs1)
    = map (fun l => l ++ [13%N]) (complete_lines (decoded cs2)) ->
  streamOpenAI engine world1 history newMessage provider
  = streamOpenAI engine world2 history newMessage provider.
Proof.
  intros Hkey Hurl Hf1 Hok1 Hb1 Hf2 Hok2 Hb2 Hl.
  rewrite (streamOpenAI_streams engine world1 history newMessage provider
             Hkey Hurl response1 cs1 Hf1 Hok1 Hb1).
  rewrite (streamOpenAI_streams engine world2 history newMessage provider
             Hkey Hurl response2 cs2 Hf2 Hok2 Hb2).
  unfold scan. rewrite Hl, for_of_CR. reflexivity.
Qed.

Lemma carriage_returns_do_not_matter_witness :
  streamOpenAI sample_engine (http_world 200 [sse_CRLF]) [] (lit "hello")
    sample_provider
  = streamOpenAI sample_engine (http_world 200 [sse_body]) [] (lit "hello")
      sample_provider.
Proof.
  apply (carriage_returns_do_not_matter sample_engine
           (http_world 200 [sse_CRLF]) (http_world 200 [sse_body])
           [] (lit "hello") sample_provider
           (mkResponse 200 (Some (mkSource [sse_CRLF] Done)))
           (mkResponse 200 (Some (mkSource [sse_body] Done)))
           [sse_CRLF] [sse_body]);
    reflexivity.
Defined.

Lemma same_for_openai_map (h1 h2 : list ChatMessage.t) :
  Forall2 same_for_openai h1 h2 ->
  map history_message h1 = map history_message h2.
Proof.
  induction 1 as [|a b h1 h2 [Ht Hr] _ IH]; [reflexivity|].
  cbn [map]. rewrite IH. unfold history_message. now rewrite Ht, Hr.
Qed.

(** X13: the compatible adapter looks at a turn of the history only for
    its text and for whether its role is MODEL: images attached to the turns
    of the history or to the new turn, ids, time stamps and the difference
    between the roles USER and SYSTEM never change the run. *)
Theorem compatible_run_ignores_images
    (engine : Engine) (world : World) (h1 h2 : list ChatMessage.t)
    (newMessage : jsstring) (images1 images2 : list jsstring)
    (provider : AIProvider.t) :
  type provider = openai ->
  Forall2 same_for_openai h1 h2 ->
  streamChatResponse engine world h1 newMessage images1 provider
  = streamChatResponse engine world h2 newMessage images2 provider.
Proof.
  intros Ht H. unfold streamChatResponse. rewrite Ht.
  unfold streamOpenAI, request_init, messagesWithSystem.
  now rewrite (same_for_openai_map h1 h2 H).
Qed.

Lemma compatible_run_ignores_images_witness :
  streamChatResponse sample_engine (http_world 200 [sse_body])
    [sample_message SYSTEM "look" (Some [lit "AAAA"])] (lit "hello")
    [lit "BBBB"] sample_provider
  = streamChatResponse sample_engine (http_world 200 [sse_body])
      [sample_message USER "look" None] (lit "hello") [] sample_provider.
Proof.
  apply compatible_run_ignores_images; [reflexivity|].
  repeat constructor.
Defined.

(* ================================================================== *)
(** ** The list of providers *)
(* ================================================================== *)

Lemma str_eqb_refl (a : jsstring) : str_eqb a a = true.
Proof. now apply str_eqb_eq. Qed.

Lemma str_eqb_neq (a b : jsstring) : a <> b -> str_eqb a b = false.
Proof.
  intros H. destruct (str_eqb a b) eqn:E; [|reflexivity].
  apply str_eqb_eq in E. contradiction.
Qed.

Lemma findIndex_Some {A} (f : A -> bool) (a : list A) (i : nat) :
  findIndex f a = Some i ->
  exists x, nth_error a i = Some x /\ f x = true
            /\ find f a = Some x
            /\ forall j y, j < i -> nth_error a j = Some y -> f y = false.
Proof.
  revert i; induction a as [|x a IH]; intros i H; [discriminate|].
  cbn in H. destruct (f x) eqn:E.
  - inversion H; subst. exists x. cbn. rewrite E. repeat split.
    intros j y Hj; lia.
  - destruct (findIndex f a) as [k|]; [|discriminate].
    inversion H; subst. destruct (IH k eq_refl) as (y & Hn & Hf & Hfind & Hlt).
    exists y. cbn. rewrite E. repeat split; auto.
    intros [|j] z Hj Hz; cbn in Hz.
    + inversion Hz; subst; exact E.
    + apply (Hlt j); [lia | exact Hz].
Qed.

Lemma findIndex_None {A} (f : A -> bool) (a : list A) :
  findIndex f a = None -> find f a = None /\ Forall (fun x => f x = false) a.
Proof.
  induction a as [|x a IH]; intros H; [split; [reflexivity | constructor]|].
  cbn in H. destruct (f x) eqn:E; [discriminate|].
  destruct (findIndex f a); [discriminate|].
  destruct (IH eq_refl) as [Hf Ha]. cbn. rewrite E. split; [exact Hf|].
  constructor; assumption.
Qed.

Lemma find_findIndex {A} (f : A -> bool) (a : list A) :
  find f a = None <-> findIndex f a = None.
Proof.
  split.
  - intros H. destruct (findIndex f a) as [i|] eqn:E; [|reflexivity].
    destruct (findIndex_Some f a i E) as (x & _ & _ & Hx & _). congruence.
  - intros H. apply findIndex_None, H.
Qed.

Lemma nth_error_assign_same {A} (a : list A) (i : nat) (v x : A) :
  nth_error a i = Some x -> nth_error (assign a i v) i = Some v.
Proof.
  revert i; induction a as [|y a IH]; intros [|i] H; try discriminate;
    cbn in *; auto.
Qed.

Lemma assign_itself {A} (a : list A) (i : nat) (x : A) :
  nth_error a i = Some x -> assign a i x = a.
Proof.
  revert i; induction a as [|y a IH]; intros [|i] H; try discriminate;
    cbn in *.
  - now inversion H.
  - now rewrite IH.
Qed.

Lemma assign_assign {A} (a : list A) (i : nat) (v w : A) :
  assign (assign a i v) i w = assign a i w.
Proof.
  revert i; induction a as [|y a IH]; intros [|i]; cbn; auto.
  now rewrite IH.
Qed.

Lemma with_apiKey_own (p : AIProvider.t) : with_apiKey p (apiKey p) = p.
Proof. destruct p; reflexivity. Qed.

(** The second test of the loop body never changes the array: what
    [merge_one] does is append a provider with a new id, or put it in the
    place of the first provider with its id when that one is not a system
    provider. *)
Lemma merge_one_eq (merged : list AIProvider.t) (p : AIProvider.t) :
  merge_one merged p
  = match findIndex (same_id p) merged with
    | None => merged ++ [p]
    | Some i =>
        match nth_error merged i with
        | Some m =>
            if truthy_flag (isSystem m) then merged else assign merged i p
        | None => merged
        end
    end.
Proof.
  unfold merge_one.
  destruct (findIndex (same_id p) merged) as [i|] eqn:E.
  - destruct (findIndex_Some _ _ _ E) as (m & Hn & _ & Hf & _).
    rewrite Hf, Hn. destruct (truthy_flag (isSystem m)) eqn:Es; cbn [negb].
    + rewrite Hn, Es. reflexivity.
    + rewrite (nth_error_assign_same _ _ p _ Hn).
      destruct (negb (truthy_flag (isSystem p)) && truthy_opt (apiKey p));
        [|reflexivity].
      now rewrite with_apiKey_own, assign_assign.
  - apply find_findIndex in E. now rewrite E.
Qed.

Lemma map_id_assign (a : list AIProvider.t) (i : nat) (m p : AIProvider.t) :
  nth_error a i = Some m -> id p = id m ->
  map id (assign a i p) = map id a.
Proof.
  revert i; induction a as [|y a IH]; intros [|i] H E; try discriminate;
    cbn in *.
  - inversion H; subst. now rewrite E.
  - now rewrite (IH i H E).
Qed.

Lemma firstn_assign {A} (a : list A) (i k : nat) (v : A) :
  k <= i -> firstn k (assign a i v) = firstn k a.
Proof.
  revert i k; induction a as [|y a IH]; intros [|i] [|k] H; cbn; auto; try lia.
  rewrite IH; [reflexivity | lia].
Qed.

Lemma same_id_eq (p m : AIProvider.t) : same_id p m = true <-> id m = id p.
Proof. unfold same_id. apply str_eqb_eq. Qed.

Lemma same_id_false_not_In (p : AIProvider.t) (a : list AIProvider.t) :
  Forall (fun m => same_id p m = false) a -> ~ In (id p) (map id a).
Proof.
  induction 1 as [|m a Hm _ IH]; [intros []|].
  intros [E|Hin]; [|exact (IH Hin)].
  assert (same_id p m = true) by (apply same_id_eq; exact E). congruence.
Qed.

Lemma merge_invariant_start : merge_invariant DEFAULT_PROVIDERS.
Proof.
  split; [reflexivity | reflexivity|].
  cbn. repeat constructor; cbn; intuition discriminate.
Qed.

Lemma merge_invariant_length (merged : list AIProvider.t) :
  merge_invariant merged -> 4 <= List.length merged.
Proof.
  intros [_ H _]. apply (f_equal (@List.length _)) in H.
  rewrite length_map, length_firstn in H.
  change (List.length default_ids) with 4 in H. lia.
Qed.

Lemma merge_one_invariant (merged : list AIProvider.t) (p : AIProvider.t) :
  merge_invariant merged -> merge_invariant (merge_one merged p).
Proof.
  intros Hinv. pose proof (merge_invariant_length _ Hinv) as Hlen.
  destruct Hinv as [Hsys Hids Hnd]. rewrite merge_one_eq.
  destruct (findIndex (same_id p) merged) as [i|] eqn:E.
  - destruct (findIndex_Some _ _ _ E) as (m & Hn & Hsame & _ & _).
    rewrite Hn. apply same_id_eq in Hsame.
    destruct (truthy_flag (isSystem m)) eqn:Es; [split; assumption|].
    assert (Hi : 2 <= i).
    { destruct merged as [|a [|b r]]; [discriminate | discriminate|].
      cbn in Hsys. inversion Hsys; subst a b.
      destruct i as [|[|i]]; cbn in Hn; [| |lia];
        inversion Hn; subst m; discriminate. }
    split.
    + rewrite firstn_assign by exact Hi. exact Hsys.
    + rewrite <- Hids. rewrite <- !firstn_map.
      now rewrite (map_id_assign _ _ m p Hn (eq_sym Hsame)).
    + now rewrite (map_id_assign _ _ m p Hn (eq_sym Hsame)).
  - destruct (findIndex_None _ _ E) as [_ Hall].
    split.
    + rewrite firstn_app. replace (2 - List.length merged) with 0 by lia.
      cbn [firstn]. now rewrite app_nil_r.
    + rewrite firstn_app. replace (4 - List.length merged) with 0 by lia.
      cbn [firstn]. now rewrite app_nil_r.
    + rewrite map_app. cbn [map]. apply NoDup_app.
      * exact Hnd.
      * repeat constructor. intros [].
      * intros x Hx [Hx'|[]]. subst x.
        exact (same_id_false_not_In p merged Hall Hx).
Qed.

Lemma fold_merge_invariant (parsed merged : list AIProvider.t) :
  merge_invariant merged -> merge_invariant (fold_left merge_one parsed merged).
Proof.
  revert merged; induction parsed as [|p parsed IH]; intros merged H;
    [exact H|].
  cbn [fold_left]. apply IH, merge_one_invariant, H.
Qed.

(** X14: whatever was stored, the start-up merge keeps the two built-in
    system providers unchanged at the head of the list, keeps the ids of the
    four built-in providers in their places, and never produces two
    providers with the same id. *)
Theorem merge_keeps_system_providers_and_unique_ids
    (parsed : list AIProvider.t) :
  firstn 2 (merge_saved parsed) = [gemini_flash; gemini_pro]
  /\ map id (firstn 4 (merge_saved parsed)) = map id DEFAULT_PROVIDERS
  /\ NoDup (map id (merge_saved parsed)).
Proof.
  destruct (fold_merge_invariant parsed DEFAULT_PROVIDERS merge_invariant_start)
    as [H1 H2 H3].
  repeat split; assumption.
Qed.

Lemma In_assign {A} (a : list A) (i : nat) (v x : A) :
  In x (assign a i v) -> x = v \/ In x a.
Proof.
  revert i; induction a as [|y a IH]; intros [|i] H; cbn in *; try tauto.
  - destruct H as [H|H]; auto.
  - destruct H as [H|H]; auto. destruct (IH i H); auto.
Qed.

Lemma find_assign_other {A} (f : A -> bool) (a : list A) (i : nat) (v m : A) :
  nth_error a i = Some m -> f m = false -> f v = false ->
  find f (assign a i v) = find f a.
Proof.
  revert i; induction a as [|y a IH]; intros [|i] Hn Hm Hv; try discriminate;
    cbn in *.
  - inversion Hn; subst. now rewrite Hm, Hv.
  - destruct (f y); [reflexivity|]. now apply IH.
Qed.

Lemma find_assign_first {A} (f : A -> bool) (a : list A) (i : nat) (v m : A) :
  nth_error a i = Some m -> f v = true ->
  (forall j y, j < i -> nth_error a j = Some y -> f y = false) ->
  find f (assign a i v) = Some v.
Proof.
  revert i; induction a as [|y a IH]; intros [|i] Hn Hv Hlt; try discriminate;
    cbn in *.
  - now rewrite Hv.
  - rewrite (Hlt 0 y) by (try lia; reflexivity).
    apply IH; [exact Hn | exact Hv|].
    intros j z Hj Hz. apply (Hlt (S j)); [lia | exact Hz].
Qed.

Lemma find_app_l {A} (f : A -> bool) (a b : list A) :
  find f (a ++ b) = match find f a with Some x => Some x | None => find f b end.
Proof.
  induction a as [|y a IH]; cbn; [reflexivity|].
  destruct (f y); [reflexivity | exact IH].
Qed.

Lemma same_id_refl (p : AIProvider.t) : same_id p p = true.
Proof. apply str_eqb_refl. Qed.

Lemma same_id_diff (p q : AIProvider.t) : id q <> id p -> same_id p q = false.
Proof. intros H. apply str_eqb_neq. exact H. Qed.

(** Merging a provider leaves the lookup of any other id as it was. *)
Lemma find_merge_one_other (merged : list AIProvider.t) (q x : AIProvider.t) :
  id q <> id x ->
  find (same_id x) (merge_one merged q) = find (same_id x) merged.
Proof.
  intros Hne. rewrite merge_one_eq.
  destruct (findIndex (same_id q) merged) as [i|] eqn:E.
  - destruct (findIndex_Some _ _ _ E) as (m & Hn & Hsame & _ & _).
    rewrite Hn. destruct (truthy_flag (isSystem m)); [reflexivity|].
    apply same_id_eq in Hsame.
    apply (find_assign_other _ _ _ _ m Hn).
    + apply same_id_diff. congruence.
    + apply same_id_diff. exact Hne.
  - rewrite find_app_l. destruct (find (same_id x) merged); [reflexivity|].
    cbn. now rewrite (same_id_diff x q Hne).
Qed.

Lemma default_cases (m : AIProvider.t) :
  In m DEFAULT_PROVIDERS ->
  In (id m) system_ids \/ truthy_flag (isSystem m) = false.
Proof.
  intros [<-|[<-|[<-|[<-|[]]]]]; cbn; auto.
Qed.

Lemma fold_lookup (parsed : list AIProvider.t) :
  forall merged seen,
    (forall m, In m merged -> In m DEFAULT_PROVIDERS \/ In m seen) ->
    NoDup (map id (seen ++ parsed)) ->
    (forall q, In q seen -> ~ In (id q) system_ids ->
               find (same_id q) merged = Some q) ->
    forall p, In p (seen ++ parsed) -> ~ In (id p) system_ids ->
              find (same_id p) (fold_left merge_one parsed merged) = Some p.
Proof.
  induction parsed as [|q rest IH]; intros merged seen Hfrom Hnd Hseen p Hp Hsys.
  - rewrite app_nil_r in Hp. cbn. now apply Hseen.
  - cbn [fold_left].
    assert (Hq : ~ In (id q) (map id seen)).
    { rewrite map_app in Hnd. cbn [map] in Hnd.
      apply NoDup_remove_2 in Hnd. intros Hin. apply Hnd.
      apply in_or_app. left. exact Hin. }
    apply (IH (merge_one merged q) (seen ++ [q])).
    + intros m Hm. rewrite merge_one_eq in Hm.
      destruct (findIndex (same_id q) merged) as [i|].
      * destruct (nth_error merged i) as [m0|].
        -- destruct (truthy_flag (isSystem m0)).
           ++ destruct (Hfrom m Hm); [left | right; apply in_or_app; left];
                assumption.
           ++ apply In_assign in Hm as [->|Hm].
              ** right. apply in_or_app. right. left. reflexivity.
              ** destruct (Hfrom m Hm);
                   [left | right; apply in_or_app; left]; assumption.
        -- destruct (Hfrom m Hm); [left | right; apply in_or_app; left];
             assumption.
      * apply in_app_or in Hm as [Hm|[<-|[]]].
        -- destruct (Hfrom m Hm); [left | right; apply in_or_app; left];
             assumption.
        -- right. apply in_or_app. right. left. reflexivity.
    + now rewrite <- app_assoc.
    + intros x Hx Hxs. apply in_app_or in Hx as [Hx|[<-|[]]].
      * rewrite find_merge_one_other; [now apply Hseen|].
        intros E. apply Hq. rewrite E. now apply in_map.
      * rewrite merge_one_eq.
        destruct (findIndex (same_id q) merged) as [i|] eqn:E.
        -- destruct (findIndex_Some _ _ _ E) as (m & Hn & Hsame & _ & Hlt).
           rewrite Hn. destruct (truthy_flag (isSystem m)) eqn:Es.
           ++ exfalso. apply same_id_eq in Hsame.
              destruct (Hfrom m (nth_error_In _ _ Hn)) as [Hd|Hs].
              ** destruct (default_cases m Hd) as [Hd'|Hd'];
                   [rewrite Hsame in Hd'; contradiction | congruence].
              ** apply Hq. rewrite <- Hsame. now apply in_map.
           ++ apply (find_assign_first _ _ _ _ m Hn (same_id_refl q) Hlt).
        -- destruct (findIndex_None _ _ E) as [Hf _].
           rewrite find_app_l, Hf. cbn. now rewrite same_id_refl.
    + rewrite <- app_assoc. exact Hp.
    + exact Hsys.
Qed.

(** X15: a stored provider comes back from the start-up merge: when the
    stored providers have distinct ids, looking up the id of a stored
    provider in the merged list gives that very provider, unless its id is
    the id of one of the two built-in system providers. *)
Theorem stored_provider_is_found_after_merge
    (parsed : list AIProvider.t) (p : AIProvider.t) :
  NoDup (map id parsed) ->
  In p parsed ->
  id p <> lit "gemini-flash" ->
  id p <> lit "gemini-pro" ->
  find (same_id p) (merge_saved parsed) = Some p
  /\ activeProvider (id p) (merge_saved parsed) = Some p.
Proof.
  intros Hnd Hin H1 H2.
  assert (H : find (same_id p) (merge_saved parsed) = Some p).
  { apply (fold_lookup parsed DEFAULT_PROVIDERS []).
    - intros m Hm; left; exact Hm.
    - exact Hnd.
    - intros q [].
    - exact Hin.
    - intros [E|[E|[]]]; congruence. }
  split; [exact H|]. unfold activeProvider.
  unfold same_id in H. now rewrite H.
Qed.

Lemma stored_provider_is_found_after_merge_witness :
  let kimi := with_apiKey kimi_8k (Some (lit "sk-1")) in
  let custom :=
    AIProvider.mk (lit "local") (lit "Local") openai
      (Some (lit "http://localhost:8080/v1")) (Some (lit "none"))
      (lit "llama") (Some false) in
  find (same_id kimi) (merge_saved [kimi; custom]) = Some kimi
  /\ activeProvider (id kimi) (merge_saved [kimi; custom]) = Some kimi.
Proof.
  intros kimi custom.
  apply (stored_provider_is_found_after_merge [kimi; custom] kimi).
  - cbn. repeat constructor; cbn; intuition discriminate.
  - left; reflexivity.
  - discriminate.
  - discriminate.
Defined.

Lemma findIndex_not_In (p : AIProvider.t) (a : list AIProvider.t) :
  ~ In (id p) (map id a) -> findIndex (same_id p) a = None.
Proof.
  induction a as [|m a IH]; intros H; [reflexivity|].
  cbn. rewrite same_id_diff.
  - rewrite IH; [reflexivity|]. intros Hin. apply H. right. exact Hin.
  - intros E. apply H. left. exact E.
Qed.

(** Providers with new, distinct ids are appended in order. *)
Lemma fold_merge_appends (customs : list AIProvider.t) :
  forall base, NoDup (map id (base ++ customs)) ->
               fold_left merge_one customs base = base ++ customs.
Proof.
  induction customs as [|c customs IH]; intros base H;
    [now rewrite app_nil_r|].
  cbn [fold_left]. rewrite merge_one_eq, findIndex_not_In.
  - rewrite IH; rewrite <- app_assoc; [reflexivity | exact H].
  - rewrite map_app in H. cbn [map] in H. apply NoDup_remove_2 in H.
    intros Hin. apply H. apply in_or_app. left. exact Hin.
Qed.

Lemma filter_all {A} (f : A -> bool) (l : list A) :
  Forall (fun x => f x = true) l -> filter f l = l.
Proof.
  induction 1 as [|x l Hx _ IH]; cbn; [reflexivity|]. now rewrite Hx, IH.
Qed.

(** X16: storing and starting again gives the same list: when no provider
    after the two built-in system providers is dropped by the filter of the
    storing effect, merging what that effect stores with the defaults gives
    back the merged list. *)
Theorem merge_of_stored_is_identity (parsed : list AIProvider.t) :
  Forall (fun p => stored p = true) (skipn 2 (merge_saved parsed)) ->
  exists saved,
    to_store (merge_saved parsed) = Some saved
    /\ saved = skipn 2 (merge_saved parsed)
    /\ merge_saved saved = merge_saved parsed.
Proof.
  intros Hall.
  destruct (fold_merge_invariant parsed DEFAULT_PROVIDERS merge_invariant_start)
    as [Hsys Hids Hnd].
  fold (merge_saved parsed) in Hsys, Hids, Hnd.
  destruct (merge_saved parsed) as [|a [|b [|d3 [|d4 customs]]]];
    try discriminate.
  cbn in Hsys, Hids. inversion Hsys; subst a b. clear Hsys.
  inversion Hids as [[H3 H4]]. clear Hids. cbn [skipn] in Hall |- *.
  exists (d3 :: d4 :: customs). split; [|split; [reflexivity|]].
  - unfold to_store. cbn [List.length Nat.ltb Nat.leb].
    change (filter stored (gemini_flash :: gemini_pro :: d3 :: d4 :: customs))
      with (filter stored (d3 :: d4 :: customs)).
    now rewrite (filter_all _ _ Hall).
  - unfold merge_saved. cbn [fold_left].
    assert (E3 : merge_one DEFAULT_PROVIDERS d3
                 = [gemini_flash; gemini_pro; d3; kimi_8k]).
    { rewrite merge_one_eq. unfold same_id. rewrite H3. reflexivity. }
    rewrite E3.
    assert (E4 : merge_one [gemini_flash; gemini_pro; d3; kimi_8k] d4
                 = [gemini_flash; gemini_pro; d3; d4]).
    { rewrite merge_one_eq. unfold same_id. cbn [findIndex].
      rewrite H3, H4. reflexivity. }
    rewrite E4.
    apply (fold_merge_appends customs [gemini_flash; gemini_pro; d3; d4]).
    exact Hnd.
Qed.

Lemma merge_of_stored_is_identity_witness :
  let parsed :=
    [with_apiKey kimi_8k (Some (lit "sk-1"));
     AIProvider.mk (lit "local") (lit "Local") openai
       (Some (lit "http://localhost:8080/v1")) (Some (lit "none"))
       (lit "llama") (Some false)] in
  exists saved,
    to_store (merge_saved parsed) = Some saved
    /\ saved = skipn 2 (merge_saved parsed)
    /\ merge_saved saved = merge_saved parsed.
Proof.
  intros parsed. apply (merge_of_stored_is_identity parsed).
  repeat constructor.
Defined.

(** X17: saving a provider and looking it up: after
    [saveProviderSettings], the lookup of the saved provider's id gives the
    saved provider, the lookup of any other id gives what it gave before,
    and the list of ids is the same as before or, for a new id, the list
    before followed by the new id. *)
Theorem save_then_lookup (p q : AIProvider.t) (prev : list AIProvider.t) :
  id q <> id p ->
  find (same_id p) (saveProviderSettings p prev) = Some p
  /\ find (same_id q) (saveProviderSettings p prev) = find (same_id q) prev
  /\ map id (saveProviderSettings p prev)
     = if existsb (same_id p) prev then map id prev
       else map id prev ++ [id p].
Proof.
  intros Hne. unfold saveProviderSettings. fold (same_id p).
  assert (Hex : existsb (same_id p) prev
                = match find (same_id p) prev with
                  | Some _ => true | None => false end).
  { induction prev as [|m prev IH]; cbn; [reflexivity|].
    destruct (same_id p m); [reflexivity | exact IH]. }
  rewrite Hex.
  destruct (find (same_id p) prev) as [m|] eqn:E.
  - split; [|split].
    + clear Hex. induction prev as [|x prev IH]; [discriminate|].
      cbn in E |- *. unfold same_id at 1 in E. unfold same_id at 2.
      destruct (str_eqb (id x) (id p)) eqn:Ex.
      * unfold same_id. now rewrite str_eqb_refl.
      * unfold same_id at 1. rewrite Ex. apply IH. exact E.
    + clear Hex E. induction prev as [|x prev IH]; [reflexivity|].
      cbn. destruct (str_eqb (id x) (id p)) eqn:Ex.
      * apply str_eqb_eq in Ex.
        rewrite (same_id_diff q p) by congruence.
        rewrite (same_id_diff q x) by congruence. exact IH.
      * destruct (same_id q x); [reflexivity | exact IH].
    + clear Hex E. induction prev as [|x prev IH]; [reflexivity|].
      cbn. destruct (str_eqb (id x) (id p)) eqn:Ex.
      * apply str_eqb_eq in Ex. now rewrite IH, Ex.
      * now rewrite IH.
  - split; [|split].
    + rewrite find_app_l, E. cbn. now rewrite same_id_refl.
    + rewrite find_app_l. destruct (find (same_id q) prev); [reflexivity|].
      cbn. rewrite (same_id_diff q p) by congruence. reflexivity.
    + rewrite map_app. reflexivity.
Qed.

Lemma save_then_lookup_witness :
  let p := with_apiKey kimi_8k (Some (lit "sk-1")) in
  find (same_id p) (saveProviderSettings p DEFAULT_PROVIDERS) = Some p
  /\ find (same_id deepseek_chat) (saveProviderSettings p DEFAULT_PROVIDERS)
     = find (same_id deepseek_chat) DEFAULT_PROVIDERS
  /\ map id (saveProviderSettings p DEFAULT_PROVIDERS)
     = map id DEFAULT_PROVIDERS.
Proof.
  intros p. apply (save_then_lookup p deepseek_chat DEFAULT_PROVIDERS).
  discriminate.
Defined.

(** X18: after the start-up merge there is always an active provider,
    whatever was stored and whatever id is selected: the provider with the
    selected id when the list has one, the built-in Gemini Flash provider
    otherwise.  For the ids of the two built-in system providers it is the
    built-in provider itself, never a stored one. *)
Theorem active_provider_after_merge
    (parsed : list AIProvider.t) (activeProviderId : jsstring) :
  let providers := merge_saved parsed in
  activeProvider (lit "gemini-flash") providers = Some gemini_flash
  /\ activeProvider (lit "gemini-pro") providers = Some gemini_pro
  /\ exists p,
       activeProvider activeProviderId providers = Some p
       /\ if existsb (fun m => str_eqb (id m) activeProviderId) providers
          then id p = activeProviderId
          else p = gemini_flash.
Proof.
  intros providers. subst providers.
  destruct (fold_merge_invariant parsed DEFAULT_PROVIDERS merge_invariant_start)
    as [Hsys _ _].
  fold (merge_saved parsed) in Hsys.
  destruct (merge_saved parsed) as [|a [|b rest]]; try discriminate.
  cbn in Hsys. inversion Hsys; subst a b. clear Hsys.
  split; [reflexivity|]. split; [reflexivity|].
  unfold activeProvider.
  set (f := fun m : AIProvider.t => str_eqb (id m) activeProviderId).
  assert (Hex : forall l, existsb f l
                = match find f l with Some _ => true | None => false end).
  { induction l as [|m l IH]; cbn; [reflexivity|].
    destruct (f m); [reflexivity | exact IH]. }
  rewrite Hex.
  destruct (find f (gemini_flash :: gemini_pro :: rest)) as [p|] eqn:E.
  - exists p. split; [reflexivity|].
    apply find_some in E as [_ E]. now apply str_eqb_eq in E.
  - exists gemini_flash. split; reflexivity.
Qed.

(* ================================================================== *)
(** ** The handlers of the application *)
(* ================================================================== *)

Lemma show_chunk_fresh (aid t : jsstring) (l : list ChatMessage.t) :
  ~ In aid (map ChatMessage.id l) -> App.show_chunk aid t l = l.
Proof.
  unfold App.show_chunk.
  induction l as [|m l IH]; intros H; [reflexivity|].
  cbn [map]. rewrite str_eqb_neq by (intros E; apply H; left; exact E).
  rewrite IH; [reflexivity|]. intros Hin. apply H. right. exact Hin.
Qed.

Lemma show_error_fresh (aid t : jsstring) (l : list ChatMessage.t) :
  ~ In aid (map ChatMessage.id l) -> App.show_error aid t l = l.
Proof.
  unfold App.show_error.
  induction l as [|m l IH]; intros H; [reflexivity|].
  cbn [map]. rewrite str_eqb_neq by (intros E; apply H; left; exact E).
  rewrite IH; [reflexivity|]. intros Hin. apply H. right. exact Hin.
Qed.

Lemma with_text_own (m : ChatMessage.t) : App.with_text m (text m) = m.
Proof. destruct m; reflexivity. Qed.

(** The updates of the callback, one after the other, leave in the
    assistant's message the text of the last one. *)
Lemma fold_show_chunk (calls : list jsstring) :
  forall (prior : list ChatMessage.t) (user ai : ChatMessage.t)
         (aid : jsstring),
    ChatMessage.id ai = aid ->
    ~ In aid (map ChatMessage.id prior) ->
    aid <> ChatMessage.id user ->
    fold_left (fun prev t => App.show_chunk aid t prev) calls
              ((prior ++ [user]) ++ [ai])
    = (prior ++ [user]) ++ [App.with_text ai (last calls (text ai))].
Proof.
  induction calls as [|c calls IH]; intros prior user ai aid Ha Hp Hu.
  - cbn [fold_left last]. now rewrite with_text_own.
  - cbn [fold_left].
    assert (E : App.show_chunk aid c ((prior ++ [user]) ++ [ai])
                = (prior ++ [user]) ++ [App.with_text ai c]).
    { unfold App.show_chunk. rewrite !map_app.
      fold (App.show_chunk aid c prior).
      rewrite (show_chunk_fresh _ _ _ Hp). cbn [map].
      rewrite (str_eqb_neq (ChatMessage.id user) aid) by congruence.
      now rewrite Ha, str_eqb_refl. }
    rewrite E.
    rewrite (IH prior user (App.with_text ai c) aid)
      by (try assumption; destruct ai; exact Ha).
    f_equal. f_equal.
    assert (L : last calls c = last (c :: calls) (text ai)).
    { destruct calls as [|d calls]; [reflexivity|].
      change (last (c :: d :: calls) (text ai))
        with (last (d :: calls) (text ai)).
      apply last_default. discriminate. }
    rewrite <- L. destruct ai; reflexivity.
Qed.

(** What [handleSendChat] leaves when it passes its two tests, in the
    terms of its parts. *)
Lemma handleSendChat_passes
    (engine : Engine) (world : World) (builtin_message : exn -> jsstring)
    (st : App.ChatState) (t1 t2 t3 t4 : N) (activeProvider : AIProvider.t) :
  truthy_string (trim (App.input st)) = true \/ App.attachedImages st <> [] ->
  App.isLoading st = false ->
  truthy_flag (isSystem activeProvider) = true
  \/ truthy_opt (apiKey activeProvider) = true ->
  ~ In (App.aiMsgId t3) (map ChatMessage.id (App.messages st)) ->
  App.aiMsgId t3 <> of_N t1 ->
  App.handleSendChat engine world builtin_message st t1 t2 t3 t4 activeProvider
  = App.mkHandled
      (App.mkChatState (App.mode st) (App.editingProvider st)
         (App.messages st
          ++ [App.newUserMsg st t1 t2;
              match outcome (App.chat_run engine world st t1 t2 activeProvider)
              with
              | inr final => App.with_text (App.newAiMsg t3 t4) final
              | inl error =>
                  App.with_error (App.newAiMsg t3 t4)
                    (App.error_text builtin_message error)
              end])
         [] false [])
      [] (trace (App.chat_run engine world st t1 t2 activeProvider)).
Proof.
  intros Hin Hload Hkey Hfresh Hid. unfold App.handleSendChat.
  assert (G1 : (negb (truthy_string (trim (App.input st)))
                && (List.length (App.attachedImages st) =? 0)%nat)
               || App.isLoading st = false).
  { rewrite Hload, orb_false_r. destruct Hin as [-> | Hne]; [reflexivity|].
    destruct (App.attachedImages st); [congruence|]. apply andb_false_r. }
  assert (G2 : negb (truthy_flag (isSystem activeProvider))
               && negb (truthy_opt (apiKey activeProvider)) = false).
  { destruct Hkey as [-> | ->]; [reflexivity | apply andb_false_r]. }
  rewrite G1, G2. f_equal. f_equal.
  set (run := App.chat_run engine world st t1 t2 activeProvider).
  rewrite (fold_show_chunk (onChunk_calls (trace run)) (App.messages st)
             (App.newUserMsg st t1 t2) (App.newAiMsg t3 t4) (App.aiMsgId t3)
             eq_refl Hfresh Hid).
  rewrite <- app_assoc. cbn [app].
  destruct (streamChatResponse_reports engine world
              (App.messages st ++ [App.newUserMsg st t1 t2])
              (App.input st) (App.attachedImages st) activeProvider)
    as (ds & Hcalls & Hout).
  change (streamChatResponse engine world
            (App.messages st ++ [App.newUserMsg st t1 t2])
            (App.input st) (App.attachedImages st) activeProvider)
    with run in Hcalls, Hout.
  cbn [text App.newAiMsg]. rewrite Hcalls, running_last. cbn [app].
  destruct (outcome run) as [error|final].
  - unfold App.show_error. rewrite map_app.
    fold (App.show_error (App.aiMsgId t3)
            (App.error_text builtin_message error) (App.messages st)).
    rewrite (show_error_fresh _ _ _ Hfresh). cbn [map].
    change (ChatMessage.id (App.newUserMsg st t1 t2)) with (of_N t1).
    change (ChatMessage.id (App.with_text (App.newAiMsg t3 t4) (concat ds)))
      with (App.aiMsgId t3).
    rewrite (str_eqb_neq (of_N t1) (App.aiMsgId t3)) by congruence.
    now rewrite str_eqb_refl.
  - now rewrite Hout.
Qed.

(** X19: a send that passes the two tests of [handleSendChat], with an
    id for the assistant's message that no shown message has: when the
    handler has finished, the shown messages are the ones before, the new
    user message, and the assistant's message, which holds the resolved text
    when the call resolved, and holds the error text, flagged as error, when
    the call failed (whatever partial text was shown meanwhile).  The error
    text is the two characters U+9519 U+8BEF, a colon, a space and the
    message of the error, or the four characters U+8BF7 U+6C42 U+5931 U+8D25
    when that message is empty.  The input and the attachments are emptied,
    the loading flag is off, and nothing is alerted.  The call awaited is the
    one of the facade on the messages before and the new user message. *)
Theorem send_leaves_the_answer_or_the_error
    (engine : Engine) (world : World) (builtin_message : exn -> jsstring)
    (st : App.ChatState) (t1 t2 t3 t4 : N) (activeProvider : AIProvider.t) :
  let user :=
    ChatMessage.mk (of_N t1) USER (App.input st) t2
      (Some (App.attachedImages st)) None in
  let run :=
    streamChatResponse engine world (App.messages st ++ [user])
      (App.input st) (App.attachedImages st) activeProvider in
  let answer :=
    match outcome run with
    | inr final => ChatMessage.mk (of_N (t3 + 1)) MODEL final t4 None None
    | inl error =>
        let message :=
          match error with
          | Error message => message
          | _ => builtin_message error
          end in
        ChatMessage.mk (of_N (t3 + 1)) MODEL
          ([0x9519%N; 0x8BEF%N] ++ lit ": "
           ++ (if truthy_string message then message
               else [0x8BF7%N; 0x6C42%N; 0x5931%N; 0x8D25%N]))
          t4 None (Some true)
    end in
  truthy_string (trim (App.input st)) = true \/ App.attachedImages st <> [] ->
  App.isLoading st = false ->
  truthy_flag (isSystem activeProvider) = true
  \/ truthy_opt (apiKey activeProvider) = true ->
  ~ In (of_N (t3 + 1)) (map ChatMessage.id (App.messages st)) ->
  of_N (t3 + 1) <> of_N t1 ->
  App.handleSendChat engine world builtin_message st t1 t2 t3 t4 activeProvider
  = App.mkHandled
      (App.mkChatState (App.mode st) (App.editingProvider st)
         (App.messages st ++ [user; answer]) [] false [])
      [] (trace run).
Proof.
  intros user run answer Hin Hload Hkey Hfresh Hid.
  rewrite (handleSendChat_passes engine world builtin_message st t1 t2 t3 t4
             activeProvider Hin Hload Hkey Hfresh Hid).
  change (App.chat_run engine world st t1 t2 activeProvider) with run.
  change (App.newUserMsg st t1 t2) with user.
  subst answer.
  destruct (outcome run) as [error|final]; [destruct error|]; reflexivity.
Qed.

Lemma send_leaves_the_answer_or_the_error_witness :
  let st := App.mkChatState App.CHAT None [] (lit "hi") false [] in
  App.state
    (App.handleSendChat sample_engine (chat_world ["Hi"; " there"]%string)
       (fun _ => []) st 1000 1000 1000 1000 gemini_provider)
  = App.mkChatState App.CHAT None
      [ChatMessage.mk (lit "1000") USER (lit "hi") 1000 (Some []) None;
       ChatMessage.mk (lit "1001") MODEL (lit "Hi there") 1000 None None]
      [] false []
  /\ App.state
       (App.handleSendChat sample_engine
          (http_world 401 [ascii_bytes "bad key"])
          (fun _ => []) st 1000 1000 1000 1000 sample_provider)
     = App.mkChatState App.CHAT None
         [ChatMessage.mk (lit "1000") USER (lit "hi") 1000 (Some []) None;
          ChatMessage.mk (lit "1001") MODEL
            ([0x9519%N; 0x8BEF%N] ++ lit ": Provider Error (401): bad key")
            1000 None (Some true)]
         [] false []
  /\ App.state
       (App.handleSendChat sample_engine
          (constant_world None (inl unreachable) (inl unreachable)
             (inl (Error [])))
          (fun _ => []) st 1000 1000 1000 1000 sample_provider)
     = App.mkChatState App.CHAT None
         [ChatMessage.mk (lit "1000") USER (lit "hi") 1000 (Some []) None;
          ChatMessage.mk (lit "1001") MODEL
            [0x9519%N; 0x8BEF%N; 58%N; 32%N;
             0x8BF7%N; 0x6C42%N; 0x5931%N; 0x8D25%N]
            1000 None (Some true)]
         [] false [].
Proof.
  intros st.
  assert (Hid : of_N (1000 + 1) <> of_N 1000)
    by (intros H; vm_compute in H; discriminate H).
  split; [|split].
  - rewrite (send_leaves_the_answer_or_the_error sample_engine
               (chat_world ["Hi"; " there"]%string)
               (fun _ => []) st 1000 1000 1000 1000 gemini_provider
               (or_introl eq_refl) eq_refl (or_introl eq_refl)
               (fun H => H) Hid).
    reflexivity.
  - rewrite (send_leaves_the_answer_or_the_error sample_engine
               (http_world 401 [ascii_bytes "bad key"])
               (fun _ => []) st 1000 1000 1000 1000 sample_provider
               (or_introl eq_refl) eq_refl (or_intror eq_refl)
               (fun H => H) Hid).
    reflexivity.
  - rewrite (send_leaves_the_answer_or_the_error sample_engine
               (constant_world None (inl unreachable) (inl unreachable)
                  (inl (Error [])))
               (fun _ => []) st 1000 1000 1000 1000 sample_provider
               (or_introl eq_refl) eq_refl (or_intror eq_refl)
               (fun H => H) Hid).
    reflexivity.
Defined.

(** X20: a send that stops at one of the tests of [handleSendChat]
    performs no request and leaves the messages, the input, the attachments
    and the loading flag as they were.  A send that stops at the first test
    (a blank input without attachment, or a call in flight) changes nothing
    at all and alerts nothing, whatever the provider.  A send that passes the
    first test and stops at the second (a provider that is not a system
    provider and has no key) alerts once, with the text that asks to
    configure the key of the model in the settings, and opens the settings on
    the active provider. *)
Theorem send_that_stops_performs_nothing
    (engine : Engine) (world : World) (builtin_message : exn -> jsstring)
    (st : App.ChatState) (t1 t2 t3 t4 : N) (activeProvider : AIProvider.t) :
  let r := App.handleSendChat engine world builtin_message st t1 t2 t3 t4
             activeProvider in
  ((truthy_string (trim (App.input st)) = false
    /\ App.attachedImages st = [])
   \/ App.isLoading st = true ->
   r = App.mkHandled st [] [])
  /\ (truthy_string (trim (App.input st)) = true
      \/ App.attachedImages st <> [] ->
      App.isLoading st = false ->
      truthy_flag (isSystem activeProvider) = false ->
      truthy_opt (apiKey activeProvider) = false ->
      r = App.mkHandled
            (App.mkChatState App.SETTINGS (Some activeProvider)
               (App.messages st) (App.input st) (App.isLoading st)
               (App.attachedImages st))
            [[0x8BF7; 0x5148; 0x5728; 0x8BBE; 0x7F6E; 0x4E2D; 0x914D; 0x7F6E;
              0x8BE5; 0x6A21; 0x578B; 0x7684]%N ++ lit " API Key"]
            []).
Proof.
  intros r. subst r. unfold App.handleSendChat. split.
  - intros H.
    assert (G1 : (negb (truthy_string (trim (App.input st)))
                  && (List.length (App.attachedImages st) =? 0)%nat)
                 || App.isLoading st = true).
    { destruct H as [[Hb Hi]|Hl].
      - now rewrite Hb, Hi.
      - rewrite Hl. apply orb_true_r. }
    now rewrite G1.
  - intros Hin Hload Hs Hk.
    assert (G1 : (negb (truthy_string (trim (App.input st)))
                  && (List.length (App.attachedImages st) =? 0)%nat)
                 || App.isLoading st = false).
    { rewrite Hload, orb_false_r. destruct Hin as [-> | Hne]; [reflexivity|].
      destruct (App.attachedImages st); [congruence|]. apply andb_false_r. }
    rewrite G1, Hs, Hk. reflexivity.
Qed.

Lemma send_that_stops_performs_nothing_witness :
  let blank := App.mkChatState App.CHAT None [] (lit "  ") false [] in
  let busy := App.mkChatState App.CHAT None [] (lit "hi") true [] in
  let ready := App.mkChatState App.CHAT None [] (lit "hi") false [] in
  let send st :=
    App.handleSendChat sample_engine (http_world 200 [sse_body])
      (fun _ => []) st 1000 1000 1000 1000 kimi_8k in
  send blank = App.mkHandled blank [] []
  /\ send busy = App.mkHandled busy [] []
  /\ send ready
     = App.mkHandled
         (App.mkChatState App.SETTINGS (Some kimi_8k) [] (lit "hi") false [])
         [[0x8BF7; 0x5148; 0x5728; 0x8BBE; 0x7F6E; 0x4E2D; 0x914D; 0x7F6E;
           0x8BE5; 0x6A21; 0x578B; 0x7684; 0x20; 0x41; 0x50; 0x49; 0x20;
           0x4B; 0x65; 0x79]%N]
         [].
Proof.
  intros blank busy ready send.
  split; [|split].
  - exact (proj1 (send_that_stops_performs_nothing sample_engine
                    (http_world 200 [sse_body]) (fun _ => []) blank
                    1000 1000 1000 1000 kimi_8k)
             (or_introl (conj eq_refl eq_refl))).
  - exact (proj1 (send_that_stops_performs_nothing sample_engine
                    (http_world 200 [sse_body]) (fun _ => []) busy
                    1000 1000 1000 1000 kimi_8k)
             (or_intror eq_refl)).
  - exact (proj2 (send_that_stops_performs_nothing sample_engine
                    (http_world 200 [sse_body]) (fun _ => []) ready
                    1000 1000 1000 1000 kimi_8k)
             (or_introl eq_refl) eq_refl eq_refl eq_refl).
Defined.



(* ================================================================== *)
(** ** Attachments as data URLs *)
(* ================================================================== *)

Lemma split_sep (sep : code_unit) (a b : jsstring) :
  split sep (a ++ sep :: b) = split sep a ++ split sep b.
Proof.
  induction a as [|c a IH]; cbn [app split].
  - now rewrite N.eqb_refl.
  - rewrite IH. destruct (N.eqb c sep); [reflexivity|].
    pose proof (split_nonempty sep a) as Hne.
    destruct (split sep a); [congruence | reflexivity].
Qed.

(** X22: the attachment made from a data URL is what follows its first
    comma, up to the next one: for a header and a payload without comma
    (base64 text has none) it is the payload, whatever the header says, so
    the media type of the file is forgotten; [displayBase64] of this payload
    reads back as the payload; a text without comma gives [undefined]. *)
Theorem attachment_is_the_payload (header1 header2 raw : jsstring) :
  ~ In 44%N header1 -> ~ In 44%N header2 -> ~ In 44%N raw ->
  blobToBase64 (header1 ++ 44%N :: raw) = Some raw
  /\ blobToBase64 (header1 ++ 44%N :: raw)
     = blobToBase64 (header2 ++ 44%N :: raw)
  /\ blobToBase64 (displayBase64 raw) = Some raw
  /\ blobToBase64 header1 = None.
Proof.
  intros H1 H2 Hr.
  assert (E : forall h, ~ In 44%N h ->
                        blobToBase64 (h ++ 44%N :: raw) = Some raw).
  { intros h Hh. unfold blobToBase64.
    now rewrite split_sep, (split_no_sep _ _ Hh), (split_no_sep _ _ Hr). }
  split; [exact (E _ H1)|]. split; [now rewrite !E|]. split.
  - change (displayBase64 raw)
      with (lit "data:image/jpeg;base64" ++ 44%N :: raw).
    apply E. cbn. intuition discriminate.
  - unfold blobToBase64. now rewrite (split_no_sep _ _ H1).
Qed.

Lemma attachment_is_the_payload_witness :
  blobToBase64 (lit "data:image/png;base64,iVBORw0KGgo=")
    = Some (lit "iVBORw0KGgo=")
  /\ blobToBase64 (lit "data:image/png;base64,iVBORw0KGgo=")
     = blobToBase64 (lit "data:image/jpeg;base64,iVBORw0KGgo=")
  /\ blobToBase64 (displayBase64 (lit "iVBORw0KGgo=")) = Some (lit "iVBORw0KGgo=")
  /\ blobToBase64 (lit "data:image/png;base64") = None.
Proof.
  apply (attachment_is_the_payload (lit "data:image/png;base64")
           (lit "data:image/jpeg;base64") (lit "iVBORw0KGgo="));
    cbn; intuition discriminate.
Defined.

(* ================================================================== *)
(** ** The markdown view *)
(* ================================================================== *)

Import MarkdownView.

Section SplitFacts.

Variable match_at : jsstring -> option nat.

(** The loop as the recursion it stands for. *)
Lemma split_loop_eq (piece : jsstring) (c : code_unit) (rest : jsstring) :
  split_loop match_at (List.length (c :: rest)) piece (c :: rest)
  = match match_at (c :: rest) with
    | Some (S n) =>
        piece :: firstn (S n) (c :: rest)
          :: split_loop match_at (List.length (skipn (S n) (c :: rest))) []
               (skipn (S n) (c :: rest))
    | _ => split_loop match_at (List.length rest) (piece ++ [c]) rest
    end.
Proof.
  cbn [List.length split_loop].
  destruct (match_at (c :: rest)) as [[|n]|]; try reflexivity.
  now rewrite length_skipn.
Qed.

(** Where the pattern matches nowhere, nothing is split off. *)
Lemma split_loop_no_match (rest : jsstring) :
  forall piece,
    (forall q, match_at (skipn q rest) = None) ->
    split_loop match_at (List.length rest) piece rest = [piece ++ rest].
Proof.
  induction rest as [|c rest IH]; intros piece H.
  - cbn. now rewrite app_nil_r.
  - rewrite split_loop_eq. pose proof (H 0) as H0. cbn [skipn] in H0.
    rewrite H0.
    rewrite IH; [now rewrite <- app_assoc|].
    intros q. exact (H (S q)).
Qed.

(** A stretch without match is passed over. *)
Lemma split_loop_skip (a : jsstring) :
  forall piece t,
    (forall q, q < List.length a -> match_at (skipn q (a ++ t)) = None) ->
    split_loop match_at (List.length (a ++ t)) piece (a ++ t)
    = split_loop match_at (List.length t) (piece ++ a) t.
Proof.
  induction a as [|c a IH]; intros piece t H.
  - cbn [app]. now rewrite app_nil_r.
  - cbn [app]. rewrite split_loop_eq.
    assert (H0 : match_at (c :: a ++ t) = None) by (apply (H 0); cbn; lia).
    rewrite H0.
    rewrite IH; [now rewrite <- app_assoc|].
    intros q Hq. apply (H (S q)). cbn; lia.
Qed.

(** A match at the head of the text is split off. *)
Lemma split_loop_match (piece m t : jsstring) :
  m <> [] -> match_at (m ++ t) = Some (List.length m) ->
  split_loop match_at (List.length (m ++ t)) piece (m ++ t)
  = piece :: m :: split_loop match_at (List.length t) [] t.
Proof.
  intros Hs Hm. destruct m as [|c rest]; [congruence|].
  cbn [app] in *. rewrite split_loop_eq, Hm. cbn [List.length].
  change (c :: rest ++ t) with ((c :: rest) ++ t).
  change (S (List.length rest)) with (List.length (c :: rest)).
  now rewrite firstn_app, Nat.sub_diag, firstn_all, skipn_app, Nat.sub_diag,
    skipn_all, app_nil_r.
Qed.

End SplitFacts.

Lemma join_cons (c : code_unit) (h : jsstring) (t : list jsstring) :
  join [10%N] ((c :: h) :: t) = c :: join [10%N] (h :: t).
Proof. destruct t; reflexivity. Qed.

(** Joining the lines of a text gives the text. *)
Lemma join_split (s : jsstring) : join [10%N] (split 10%N s) = s.
Proof.
  induction s as [|c s IH]; [reflexivity|].
  pose proof (split_nonempty 10%N s) as Hne.
  cbn [split]. destruct (N.eqb_spec c 10%N) as [->|_].
  - destruct (split 10%N s) as [|h t] eqn:E; [congruence|].
    change (join [10%N] ([] :: h :: t)) with (10%N :: join [10%N] (h :: t)).
    now rewrite IH.
  - destruct (split 10%N s) as [|h t] eqn:E; [congruence|].
    now rewrite join_cons, IH.
Qed.

Lemma In_split (sep c : code_unit) (s l : jsstring) :
  In l (split sep s) -> In c l -> In c s.
Proof.
  revert l; induction s as [|x s IH]; intros l Hl Hc.
  - cbn in Hl. destruct Hl as [<-|[]]. exact Hc.
  - cbn [split] in Hl. destruct (N.eqb x sep).
    + destruct Hl as [<-|Hl]; [destruct Hc|]. right. exact (IH l Hl Hc).
    + pose proof (split_nonempty sep s) as Hne.
      destruct (split sep s) as [|h t]; [congruence|].
      destruct Hl as [<-|Hl].
      * destruct Hc as [<-|Hc]; [left; reflexivity|].
        right. apply (IH h); [left; reflexivity | exact Hc].
      * right. apply (IH l); [right; exact Hl | exact Hc].
Qed.

Lemma startsWith_head_false (s p : jsstring) (c : code_unit) :
  ~ In c s -> startsWith s (c :: p) = false.
Proof.
  destruct s as [|x s]; intros H; [reflexivity|].
  cbn. destruct (N.eqb_spec x c) as [->|_]; [|reflexivity].
  exfalso. apply H. left. reflexivity.
Qed.

Lemma not_In_skipn {A} (c : A) (q : nat) (s : list A) :
  ~ In c s -> ~ In c (skipn q s).
Proof.
  intros H Hin. apply H. rewrite <- (firstn_skipn q s).
  apply in_or_app. right. exact Hin.
Qed.

Lemma match_fence_none (t : jsstring) : ~ In 96%N t -> match_fence t = None.
Proof.
  intros H. unfold match_fence, fence.
  change (lit "```") with (96%N :: lit "``").
  now rewrite startsWith_head_false.
Qed.

Lemma startsWith_prefix_false (q : nat) (s t p : jsstring) (c : code_unit) :
  0 < List.length (skipn q s) -> ~ In c s ->
  startsWith (skipn q (s ++ t)) (c :: p) = false.
Proof.
  intros Hq H. rewrite skipn_app.
  pose proof (not_In_skipn c q s H) as Hn.
  destruct (skipn q s) as [|x r]; [cbn in Hq; lia|].
  cbn [app startsWith]. destruct (N.eqb_spec x c) as [->|_]; [|reflexivity].
  exfalso. apply Hn. left. reflexivity.
Qed.

Lemma match_fence_prefix (q : nat) (s t : jsstring) :
  0 < List.length (skipn q s) -> ~ In 96%N s ->
  match_fence (skipn q (s ++ t)) = None.
Proof.
  intros Hq H. unfold match_fence, fence.
  change (lit "```") with (96%N :: lit "``").
  now rewrite startsWith_prefix_false.
Qed.

Lemma match_bold_prefix (q : nat) (s t : jsstring) :
  0 < List.length (skipn q s) -> ~ In 42%N s ->
  match_bold (skipn q (s ++ t)) = None.
Proof.
  intros Hq H. unfold match_bold, stars.
  change (lit "**") with (42%N :: lit "*").
  now rewrite startsWith_prefix_false.
Qed.

Lemma match_bold_none (t : jsstring) : ~ In 42%N t -> match_bold t = None.
Proof.
  intros H. unfold match_bold, stars.
  change (lit "**") with (42%N :: lit "*").
  now rewrite startsWith_head_false.
Qed.

Lemma render_line_plain (l : jsstring) :
  ~ In 42%N l -> render_line l = plain_line l.
Proof.
  intros H. unfold render_line, lineParts, split_re.
  destruct l as [|c l]; [reflexivity|]. cbn [truthy_string negb plain_line].
  rewrite split_loop_no_match
    by (intros q; apply match_bold_none, not_In_skipn, H).
  cbn [app map]. unfold render_inline, stars.
  change (lit "**") with (42%N :: lit "*").
  now rewrite startsWith_head_false.
Qed.

(** X23: a text without backtick and without star is shown line by line
    and unchanged: one text block whose lines are the lines of the content,
    an empty line as a spacer and any other line as one plain span; joining
    the lines gives back the content. *)
Theorem plain_text_is_shown_as_it_is (content : jsstring) :
  ~ In 96%N content -> ~ In 42%N content ->
  MarkdownView content = [Text (map plain_line (split 10%N content))]
  /\ join [10%N] (split 10%N content) = content.
Proof.
  intros Hb Hs. split; [|apply join_split].
  unfold MarkdownView, split_re.
  rewrite split_loop_no_match
    by (intros q; apply match_fence_none, not_In_skipn, Hb).
  cbn [app map]. unfold render_part, fence.
  change (lit "```") with (96%N :: lit "``").
  rewrite startsWith_head_false by exact Hb.
  f_equal. f_equal. apply map_ext_in.
  intros l Hl. apply render_line_plain.
  intros Hin. apply Hs. exact (In_split 10%N 42%N content l Hl Hin).
Qed.

Lemma plain_text_is_shown_as_it_is_witness :
  MarkdownView (lit ("Hi" ++ LF ++ LF ++ "there")%string)
  = [Text [Paragraph [Span (lit "Hi")]; Spacer; Paragraph [Span (lit "there")]]].
Proof.
  apply (plain_text_is_shown_as_it_is (lit ("Hi" ++ LF ++ LF ++ "there")%string));
    cbn; intuition discriminate.
Defined.

Lemma startsWith_LF_fence (a r : jsstring) :
  startsWith (a ++ 10%N :: r) fence = startsWith a fence.
Proof.
  destruct a as [|x [|y [|z [|w a]]]]; cbn; rewrite ?Bool.andb_false_r; reflexivity.
Qed.

Lemma indexOf_cons_None (c : code_unit) (a pat : jsstring) :
  indexOf (c :: a) pat = None ->
  startsWith (c :: a) pat = false /\ indexOf a pat = None.
Proof.
  cbn [indexOf]. destruct (startsWith (c :: a) pat); [discriminate|].
  destruct (indexOf a pat); [discriminate|]. now split.
Qed.

Lemma indexOf_skipn_None (q : nat) (a pat : jsstring) :
  indexOf a pat = None -> indexOf (skipn q a) pat = None.
Proof.
  revert a; induction q as [|q IH]; intros a H; [exact H|].
  destruct a as [|c a]; [exact H|]. cbn [skipn].
  apply IH. now apply indexOf_cons_None in H.
Qed.

(** The closing fence after a line feed is the first one when there is none
    before. *)
Lemma indexOf_closing_fence (a r : jsstring) :
  indexOf a fence = None ->
  indexOf (a ++ 10%N :: fence ++ r) fence = Some (S (List.length a)).
Proof.
  induction a as [|c a IH]; intros H.
  - cbn [app List.length].
    change (indexOf (10%N :: fence ++ r) fence)
      with (option_map S (indexOf (fence ++ r) fence)).
    destruct (fence ++ r) as [|x s] eqn:E; [discriminate|].
    unfold indexOf. now rewrite <- E, startsWith_app.
  - apply indexOf_cons_None in H. destruct H as [H1 H2].
    cbn [app]. unfold indexOf; fold indexOf.
    change (c :: a ++ 10%N :: fence ++ r)
      with ((c :: a) ++ 10%N :: fence ++ r).
    rewrite startsWith_LF_fence, H1, (IH H2). reflexivity.
Qed.

Lemma removelast_snoc {A} (l : list A) (x : A) : removelast (l ++ [x]) = l.
Proof. now rewrite removelast_app, app_nil_r by discriminate. Qed.

Lemma not_In_fence_app (lang : jsstring) :
  ~ In 10%N lang -> ~ In 10%N (fence ++ lang).
Proof.
  intros H Hin. apply in_app_or in Hin. destruct Hin as [Hin|Hin]; [|tauto].
  cbn in Hin. intuition discriminate.
Qed.

(** X24: a fenced block is shown as it was written, between the text
    around it: for a first line [lang] without line feed and lines [code],
    with no three backticks in either, and texts [before] and [after] without
    backtick, the content [before], opening fence with [lang], the lines,
    the closing fence on a line of its own, [after] gives three blocks: the
    lines of [before], one code block with the label [lang] trimmed and the
    text [code], and the lines of [after]. *)
Theorem fenced_block_is_recovered (before lang code after : jsstring) :
  ~ In 96%N before -> ~ In 96%N after ->
  ~ In 10%N lang ->
  indexOf (lang ++ 10%N :: code) fence = None ->
  MarkdownView (before ++ (fence ++ lang ++ 10%N :: code ++ 10%N :: fence)
                  ++ after)
  = [Text (map render_line (split 10%N before));
     Code (trim lang) code;
     Text (map render_line (split 10%N after))].
Proof.
  intros Hbefore Hafter Hlang Hnone.
  set (content := fence ++ lang ++ 10%N :: code ++ 10%N :: fence).
  assert (Hm : match_fence (content ++ after) = Some (List.length content)).
  { unfold match_fence, content. rewrite <- app_assoc, startsWith_app.
    change (skipn 3 (fence ++ (lang ++ 10%N :: code ++ 10%N :: fence) ++ after))
      with ((lang ++ 10%N :: code ++ 10%N :: fence) ++ after).
    replace ((lang ++ 10%N :: code ++ 10%N :: fence) ++ after)
      with ((lang ++ 10%N :: code) ++ 10%N :: fence ++ after)
      by (now rewrite <- !app_assoc; cbn [app]; rewrite <- !app_assoc).
    rewrite (indexOf_closing_fence _ _ Hnone).
    f_equal. repeat (rewrite ?length_app; cbn [List.length]).
    change (List.length fence) with 3. lia. }
  assert (Hp : render_part content = Code (trim lang) code).
  { unfold render_part, content. rewrite startsWith_app.
    replace (fence ++ lang ++ 10%N :: code ++ 10%N :: fence)
      with ((fence ++ lang) ++ 10%N :: code ++ 10%N :: fence)
      by (now rewrite <- app_assoc).
    rewrite !split_sep.
    rewrite (split_no_sep _ _ (not_In_fence_app lang Hlang)).
    change (split 10%N fence) with [fence].
    cbn [app hd tl].
    rewrite replace_prefix by apply startsWith_app.
    change (skipn (List.length fence) (fence ++ lang)) with lang.
    now rewrite removelast_snoc, join_split. }
  assert (Hplain : forall s, ~ In 96%N s ->
                             render_part s = Text (map render_line (split 10%N s))).
  { intros s Hs. unfold render_part, fence.
    change (lit "```") with (96%N :: lit "``").
    now rewrite startsWith_head_false. }
  unfold MarkdownView, split_re.
  rewrite split_loop_skip.
  2:{ intros q Hq. apply match_fence_prefix; [|exact Hbefore].
      rewrite length_skipn. lia. }
  rewrite (split_loop_match match_fence _ content after)
    by (discriminate || exact Hm).
  rewrite split_loop_no_match
    by (intros q; apply match_fence_none, not_In_skipn, Hafter).
  cbn [map app]. now rewrite Hp, !Hplain.
Qed.

Lemma fenced_block_is_recovered_witness :
  MarkdownView (lit ("Try:" ++ LF ++ "```ts " ++ LF ++ "let x = 1;" ++ LF ++ LF
                       ++ "x++" ++ LF ++ "```" ++ LF ++ "**Done**")%string)
  = [Text [Paragraph [Span (lit "Try:")]; Spacer];
     Code (lit "ts") (lit ("let x = 1;" ++ LF ++ LF ++ "x++")%string);
     Text [Spacer; Paragraph [Span []; Strong (lit "Done"); Span []]]].
Proof.
  apply (fenced_block_is_recovered (lit ("Try:" ++ LF)%string) (lit "ts ")
           (lit ("let x = 1;" ++ LF ++ LF ++ "x++")%string)
           (lit (LF ++ "**Done**")%string)).
  - cbn; intuition discriminate.
  - cbn; intuition discriminate.
  - cbn; intuition discriminate.
  - reflexivity.
Defined.

Lemma match_fence_open (q : nat) (rest : jsstring) :
  indexOf rest fence = None -> match_fence (skipn q (fence ++ rest)) = None.
Proof.
  intros H. unfold match_fence.
  destruct (startsWith (skipn q (fence ++ rest)) fence); [|reflexivity].
  rewrite skipn_skipn. replace (3 + q) with (q + 3) by lia.
  rewrite <- skipn_skipn.
  change (skipn 3 (fence ++ rest)) with rest.
  now rewrite indexOf_skipn_None.
Qed.

(** X25: a fence that is not closed.  At the start of the content it
    opens a code block that lacks its last line: with a first line [lang],
    lines [shown] and a last line [last], none with three backticks, the
    block has the text [shown] only.  After a text [before] without backtick
    that is not empty there is no code block: the whole content, fence
    included, is shown as text lines. *)
Theorem open_fence_hides_its_last_line (before lang shown last : jsstring) :
  ~ In 10%N lang -> ~ In 10%N last ->
  indexOf (lang ++ 10%N :: shown ++ 10%N :: last) fence = None ->
  ~ In 96%N before -> before <> [] ->
  MarkdownView (fence ++ lang ++ 10%N :: shown ++ 10%N :: last)
  = [Code (trim lang) shown]
  /\ MarkdownView (before ++ fence ++ lang ++ 10%N :: shown ++ 10%N :: last)
     = [Text (map render_line
                (split 10%N (before ++ fence ++ lang ++ 10%N :: shown
                               ++ 10%N :: last)))].
Proof.
  intros Hlang Hlast Hnone Hbefore Hne.
  set (rest := lang ++ 10%N :: shown ++ 10%N :: last) in *.
  split.
  - unfold MarkdownView, split_re.
    rewrite split_loop_no_match by (intros q; now apply match_fence_open).
    cbn [app map]. unfold render_part. rewrite startsWith_app.
    unfold rest.
    replace (fence ++ lang ++ 10%N :: shown ++ 10%N :: last)
      with ((fence ++ lang) ++ 10%N :: shown ++ 10%N :: last)
      by (now rewrite <- app_assoc).
    rewrite !split_sep.
    rewrite (split_no_sep _ _ (not_In_fence_app lang Hlang)).
    rewrite (split_no_sep _ _ Hlast).
    cbn [app hd tl].
    rewrite replace_prefix by apply startsWith_app.
    change (skipn (List.length fence) (fence ++ lang)) with lang.
    now rewrite removelast_snoc, join_split.
  - unfold MarkdownView, split_re.
    rewrite split_loop_no_match.
    + cbn [app map]. unfold render_part.
      assert (E : startsWith (before ++ fence ++ rest) fence = false).
      { apply (startsWith_prefix_false 0 before (fence ++ rest) (lit "``") 96%N);
          [|exact Hbefore].
        destruct before; [congruence | cbn; lia]. }
      now rewrite E.
    + intros q. destruct (Nat.lt_ge_cases q (List.length before)) as [Hq|Hq].
      * apply match_fence_prefix; [|exact Hbefore]. rewrite length_skipn. lia.
      * rewrite skipn_app, (skipn_all2 before) by exact Hq. cbn [app].
        now apply match_fence_open.
Qed.

Lemma open_fence_hides_its_last_line_witness :
  MarkdownView (lit ("```js" ++ LF ++ "let x = 1;" ++ LF ++ "let y")%string)
  = [Code (lit "js") (lit "let x = 1;")]
  /\ MarkdownView (lit ("Try " ++ "```js" ++ LF ++ "let x = 1;" ++ LF ++ "let y")%string)
     = [Text [Paragraph [Span (lit "Try ```js")];
              Paragraph [Span (lit "let x = 1;")];
              Paragraph [Span (lit "let y")]]].
Proof.
  apply (open_fence_hides_its_last_line (lit "Try ") (lit "js")
           (lit "let x = 1;") (lit "let y")).
  - cbn; intuition discriminate.
  - cbn; intuition discriminate.
  - reflexivity.
  - cbn; intuition discriminate.
  - discriminate.
Defined.

Lemma rev_stars : rev stars = stars.
Proof. reflexivity. Qed.

(** The closing stars after a text without star and without line terminator
    are the first ones. *)
Lemma bold_end_closing (x b : jsstring) :
  ~ In 42%N x -> existsb is_line_terminator x = false ->
  bold_end (x ++ stars ++ b) = Some (List.length x).
Proof.
  induction x as [|c x IH]; intros Hs Ht.
  - cbn [app List.length]. destruct (stars ++ b) as [|y s] eqn:E; [discriminate|].
    unfold bold_end. now rewrite <- E, startsWith_app.
  - cbn [existsb] in Ht. apply Bool.orb_false_iff in Ht. destruct Ht as [Hc Ht].
    cbn [app]. unfold bold_end; fold bold_end.
    assert (E : startsWith (c :: x ++ stars ++ b) stars = false).
    { apply (startsWith_prefix_false 0 (c :: x) (stars ++ b) (lit "*") 42%N);
        [cbn; lia | exact Hs]. }
    rewrite E, Hc, IH; [reflexivity | | exact Ht].
    intros Hin. apply Hs. right. exact Hin.
Qed.

Lemma render_inline_plain (a : jsstring) :
  ~ In 42%N a -> render_inline a = Span a.
Proof.
  intros H. unfold render_inline, stars.
  change (lit "**") with (42%N :: lit "*").
  now rewrite startsWith_head_false.
Qed.

Lemma render_inline_bold (x : jsstring) :
  render_inline (stars ++ x ++ stars) = Strong x.
Proof.
  unfold render_inline, endsWith.
  rewrite startsWith_app, !rev_app_distr, rev_stars, <- app_assoc,
    startsWith_app.
  cbn [andb]. f_equal. unfold slice_2_m2.
  change (skipn 2 (stars ++ x ++ stars)) with (x ++ stars).
  rewrite !length_app. change (List.length stars) with 2.
  replace (2 + (List.length x + 2) - 4) with (List.length x + 0) by lia.
  now rewrite firstn_app_2, app_nil_r.
Qed.

(** X26: the first bold span of a line: for a text [a] without star and a
    text [x] without star and without line terminator, the line [a], two
    stars, [x], two stars, [b] is shown as [a] plain, [x] strong, and then
    what [b] alone is shown as; with no star in [b] that is [b] plain. *)
Theorem bold_span_is_shown_strong (a x b : jsstring) :
  ~ In 42%N a -> ~ In 42%N x -> existsb is_line_terminator x = false ->
  map render_inline (lineParts (a ++ (stars ++ x ++ stars) ++ b))
  = Span a :: Strong x :: map render_inline (lineParts b)
  /\ (~ In 42%N b ->
      render_line (a ++ (stars ++ x ++ stars) ++ b)
      = Paragraph [Span a; Strong x; Span b]).
Proof.
  intros Ha Hx Ht.
  assert (E : map render_inline (lineParts (a ++ (stars ++ x ++ stars) ++ b))
              = Span a :: Strong x :: map render_inline (lineParts b)).
  { unfold lineParts, split_re.
    rewrite split_loop_skip
      by (intros q Hq; apply match_bold_prefix;
          [rewrite length_skipn; lia | exact Ha]).
    rewrite split_loop_match.
    - cbn [app map]. now rewrite render_inline_plain, render_inline_bold.
    - discriminate.
    - unfold match_bold. rewrite <- !app_assoc, startsWith_app.
      change (skipn 2 (stars ++ x ++ stars ++ b)) with (x ++ stars ++ b).
      rewrite bold_end_closing by assumption.
      f_equal. rewrite !length_app. change (List.length stars) with 2. lia. }
  split; [exact E|].
  intros Hb. unfold render_line.
  replace (negb (truthy_string (a ++ (stars ++ x ++ stars) ++ b))) with false
    by (destruct a; reflexivity).
  rewrite E. unfold lineParts, split_re.
  rewrite split_loop_no_match
    by (intros q; apply match_bold_none, not_In_skipn, Hb).
  cbn [app map]. now rewrite render_inline_plain.
Qed.

Lemma bold_span_is_shown_strong_witness :
  render_line (lit "Use **npm install** first")
  = Paragraph [Span (lit "Use "); Strong (lit "npm install"); Span (lit " first")].
Proof.
  refine (proj2 (bold_span_is_shown_strong (lit "Use ") (lit "npm install")
                   (lit " first") _ _ _) _).
  - cbn; intuition discriminate.
  - cbn; intuition discriminate.
  - reflexivity.
  - cbn; intuition discriminate.
Defined.

(* ================================================================== *)
(** ** The cut of the body into chunks *)
(* ================================================================== *)

(** X27: how the network cuts the body into chunks does not matter, not
    even inside a line or inside a character: two environments that answer
    the request with the same status and bodies of the same bytes, ending
    the same way, give the same run of [streamOpenAI]: the same events in
    the same order and the same outcome. *)
Theorem chunking_does_not_matter
    (engine : Engine) (world world' : World) (history : list ChatMessage.t)
    (newMessage : jsstring) (provider : AIProvider.t)
    (st : N) (cs cs' : list Utf8.bytes) (fin : ending) :
  fetch world (completions_url provider)
        (request_init history newMessage provider)
  = inr (mkResponse st (Some (mkSource cs fin))) ->
  fetch world' (completions_url provider)
        (request_init history newMessage provider)
  = inr (mkResponse st (Some (mkSource cs' fin))) ->
  concat cs = concat cs' ->
  streamOpenAI engine world history newMessage provider
  = streamOpenAI engine world' history newMessage provider.
Proof.
  intros Hw Hw' Hcs.
  rewrite !streamOpenAI_eq, Hw, Hw'.
  unfold ok, Response_text, decoded.
  cbn [status response_body items finish]. now rewrite Hcs.
Qed.

Lemma chunking_does_not_matter_witness :
  let world cs :=
    constant_world None (inl unreachable) (inl unreachable)
      (inr (mkResponse 200 (Some (mkSource cs Done)))) in
  streamOpenAI sample_engine (world sse_accent_cut) [] (lit "hello")
    sample_provider
  = streamOpenAI sample_engine (world sse_accent_whole) [] (lit "hello")
      sample_provider
  /\ onChunk_calls
       (trace (streamOpenAI sample_engine (world sse_accent_cut) []
                 (lit "hello") sample_provider))
     = [[233%N]].
Proof.
  intros world. split; [|reflexivity].
  apply (chunking_does_not_matter sample_engine (world sse_accent_cut)
           (world sse_accent_whole) [] (lit "hello") sample_provider
           200 sse_accent_cut sse_accent_whole Done);
    reflexivity.
Defined.
